(** * Sudoku engine: validator, solver, solution counter and generator

    A shallow embedding of [sudoku_validator.py], [sudoku_solver.py],
    [sudoku_generator.py] and the [SudokuBoard] class of [sudoku_board.py].
    Boards are Python lists of lists; a cell holds an [int] or a [str]
    (the empty indicator may be either).  Functions that
    mutate the board are written in a small state-and-exception monad whose
    state is the board the caller passed in. *)

From Stdlib Require Import ZArith List String Bool Lia Sorted.
From stdpp Require Import base list.
Import ListNotations.

Local Open Scope Z_scope.

(** ** Python values, exceptions and list primitives *)

Inductive pyval : Type :=
| PInt (z : Z)
| PStr (s : string).

(** Python's [==] on [int | str]: an int never equals a str. *)
Definition pyval_eqb (a b : pyval) : bool :=
  match a, b with
  | PInt x, PInt y => Z.eqb x y
  | PStr s, PStr t => String.eqb s t
  | _, _ => false
  end.

Inductive exn : Type := IndexError | ValueError.

(** [OutOfFuel] is not a Python exception: it marks a run of the model that
    was given too little fuel for a recursion or a [while] loop. *)
Inductive result (A : Type) : Type :=
| Ok (a : A)
| Raise (e : exn)
| OutOfFuel.
Arguments Ok {A} a.
Arguments Raise {A} e.
Arguments OutOfFuel {A}.

Definition rbind {A B} (r : result A) (k : A -> result B) : result B :=
  match r with
  | Ok a => k a
  | Raise e => Raise e
  | OutOfFuel => OutOfFuel
  end.

Notation "'let*' x ':=' r 'in' k" := (rbind r (fun x => k))
  (at level 10, x pattern, r at level 100, k at level 200).

(** [l[i]] with Python's negative indices. *)
Definition py_index {A} (l : list A) (i : Z) : result A :=
  let n := Z.of_nat (length l) in
  let j := if i <? 0 then i + n else i in
  if (0 <=? j) && (j <? n) then
    match l !! Z.to_nat j with
    | Some x => Ok x
    | None => Raise IndexError
    end
  else Raise IndexError.

(** [l[i] = v]. *)
Definition py_setitem {A} (l : list A) (i : Z) (v : A) : result (list A) :=
  let n := Z.of_nat (length l) in
  let j := if i <? 0 then i + n else i in
  if (0 <=? j) && (j <? n) then Ok (<[Z.to_nat j := v]> l)
  else Raise IndexError.

Definition py_clamp (n i : Z) : Z :=
  if i <? 0 then Z.max 0 (i + n) else Z.min i n.

(** [l[lo:hi]]: a slice never raises. *)
Definition py_slice {A} (l : list A) (lo hi : Z) : list A :=
  let n := Z.of_nat (length l) in
  let a := py_clamp n lo in
  let b := py_clamp n hi in
  take (Z.to_nat (b - a)) (drop (Z.to_nat a) l).

(** [range(a, b)] *)
Definition py_range (a b : Z) : list Z :=
  map (fun k => a + Z.of_nat k) (seq 0 (Z.to_nat (b - a))).

Fixpoint result_map {A B} (f : A -> result B) (l : list A) : result (list B) :=
  match l with
  | [] => Ok []
  | x :: l' =>
      let* y := f x in
      let* ys := result_map f l' in
      Ok (y :: ys)
  end.

Definition board : Type := list (list pyval).

(** [board[row][col]] *)
Definition get_cell (b : board) (row col : Z) : result pyval :=
  let* r := py_index b row in py_index r col.

(** [board[row][col] = v] (the rows of a board are distinct list objects) *)
Definition set_cell (b : board) (row col : Z) (v : pyval) : result board :=
  let* r := py_index b row in
  let* r' := py_setitem r col v in
  py_setitem b row r'.

(** The cells visited by [for y in range(9): for x in range(9)]. *)
Definition cells9 : list (Z * Z) :=
  flat_map (fun y => map (pair y) (py_range 0 9)) (py_range 0 9).

(** ** sudoku_validator.py *)

Fixpoint square_rows (b : board) (y x : Z) (offs : list Z) (square : list pyval)
  : result (list pyval) :=
  match offs with
  | [] => Ok square
  | i :: offs' =>
      let* r := py_index b (y + i) in
      square_rows b y x offs' (square ++ py_slice r x (x + 3))
  end.

Definition get_values_in_square (b : board) (row_index col_index : Z)
  : result (list pyval) :=
  let y := (row_index / 3) * 3 in
  let x := (col_index / 3) * 3 in
  square_rows b y x (py_range 0 3) [].

Definition is_valid_entry (b : board) (row_index col_index : Z) (value : pyval)
  : result bool :=
  let* column := result_map (fun row => py_index row col_index) b in
  let* row := py_index b row_index in
  let* square := get_values_in_square b row_index col_index in
  if existsb (pyval_eqb value) (column ++ row ++ square) then Ok false
  else Ok true.

(** *** The board monad *)

Definition M (A : Type) : Type := board -> result A * board.

Definition ret {A} (a : A) : M A := fun b => (Ok a, b).

Definition bind {A B} (m : M A) (k : A -> M B) : M B :=
  fun b =>
    match m b with
    | (Ok a, b') => k a b'
    | (Raise e, b') => (Raise e, b')
    | (OutOfFuel, b') => (OutOfFuel, b')
    end.

Notation "'do' x <- m ; k" := (bind m (fun x => k))
  (at level 10, x name, m at level 100, k at level 200,
   format "'[v' 'do'  x  <-  m ; '/' k ']'").

(** Run a computation that only reads the board. *)
Definition reading {A} (f : board -> result A) : M A := fun b => (f b, b).

Definition write_cell (row col : Z) (v : pyval) : M unit :=
  fun b =>
    match set_cell b row col v with
    | Ok b' => (Ok tt, b')
    | Raise e => (Raise e, b)
    | OutOfFuel => (OutOfFuel, b)
    end.

Definition raise {A} (e : exn) : M A := fun b => (Raise e, b).
Definition out_of_fuel {A} : M A := fun b => (OutOfFuel, b).

Fixpoint is_valid_board_scan (e : pyval) (cells : list (Z * Z)) : M bool :=
  match cells with
  | [] => ret true
  | (row, col) :: rest =>
      do value <- reading (fun b => get_cell b row col);
      if pyval_eqb value e then is_valid_board_scan e rest
      else
        do _ <- write_cell row col e;
        do ok <- reading (fun b => is_valid_entry b row col value);
        if negb ok then ret false
        else
          do _ <- write_cell row col value;
          is_valid_board_scan e rest
  end.

Definition is_valid_board (e : pyval) : M bool :=
  fun b =>
    if negb (Nat.eqb (length b) 9)
       || existsb (fun row => negb (Nat.eqb (length row) 9)) b
    then raise ValueError b
    else is_valid_board_scan e cells9 b.

(** ** sudoku_solver.py *)

Fixpoint get_empty_scan (b : board) (e : pyval) (cells : list (Z * Z))
  : result (option (Z * Z)) :=
  match cells with
  | [] => Ok None
  | (y, x) :: rest =>
      let* v := get_cell b y x in
      if pyval_eqb v e then Ok (Some (y, x)) else get_empty_scan b e rest
  end.

Definition get_empty (b : board) (e : pyval) : result (option (Z * Z)) :=
  get_empty_scan b e cells9.

(** The [for value in range(1, 10)] loop of [fill_board]; [rec] is the
    recursive call. *)
Fixpoint fill_candidates (rec : M bool) (e : pyval) (row col : Z)
    (values : list Z) : M bool :=
  match values with
  | [] => ret false
  | value :: rest =>
      do ok <- reading (fun b => is_valid_entry b row col (PInt value));
      if ok then
        do _ <- write_cell row col (PInt value);
        do filled <- rec;
        if filled then ret true
        else
          do _ <- write_cell row col e;
          fill_candidates rec e row col rest
      else fill_candidates rec e row col rest
  end.

Fixpoint fill_board_rec (fuel : nat) (e : pyval) : M bool :=
  match fuel with
  | O => out_of_fuel
  | S fuel' =>
      do empty_cell <- reading (fun b => get_empty b e);
      match empty_cell with
      | None => ret true
      | Some (row_index, col_index) =>
          fill_candidates (fill_board_rec fuel' e) e row_index col_index
            (py_range 1 10)
      end
  end.

(** Number of cells equal to the empty indicator. *)
Definition count_empty (e : pyval) (b : board) : nat :=
  length (List.filter (fun v => pyval_eqb v e) (concat b)).

(** Every recursive call is made on a board with one empty cell fewer, so
    the recursion is at most [count_empty + 1] deep. *)
Definition fill_board (e : pyval) : M bool :=
  fun b => fill_board_rec (S (count_empty e b)) e b.

(** ** sudoku_generator.py *)

Fixpoint count_candidates (rec : M Z) (limit : Z) (e : pyval) (row col : Z)
    (nums : list Z) (count : Z) : M Z :=
  match nums with
  | [] => ret count
  | num :: rest =>
      do ok <- reading (fun b => is_valid_entry b row col (PInt num));
      if ok then
        do _ <- write_cell row col (PInt num);
        do n <- rec;
        let count := count + n in
        do _ <- write_cell row col e;
        if limit <=? count then ret count
        else count_candidates rec limit e row col rest count
      else count_candidates rec limit e row col rest count
  end.

Fixpoint count_solutions_rec (fuel : nat) (limit : Z) (e : pyval) : M Z :=
  match fuel with
  | O => out_of_fuel
  | S fuel' =>
      do empty_cell <- reading (fun b => get_empty b e);
      match empty_cell with
      | None => ret 1
      | Some (row, col) =>
          count_candidates (count_solutions_rec fuel' limit e) limit e row col
            (py_range 1 10) 0
      end
  end.

Definition count_solutions (limit : Z) (e : pyval) : M Z :=
  fun b => count_solutions_rec (S (count_empty e b)) limit e b.

(** The random source: the two [random.sample] results of one call of
    [generate], and the successive results of [random.randint(0, 8)]. *)
Record rng : Type := {
  sample_cells : list Z;
  sample_values : list Z;
  randint : nat -> Z
}.

(** The loop variables of [_create_unique_board], with the board and the
    number of [randint] calls made so far. *)
Record carving : Type := {
  cv_board : board;
  cv_empties : Z;
  cv_attempts : Z;
  cv_draws : nat
}.

Definition max_attempts : Z := 81 * 3.

(** [empties < total_empties and attempts < max_attempts] *)
Definition unique_guard (total_empties : Z) (st : carving) : bool :=
  (cv_empties st <? total_empties) && (cv_attempts st <? max_attempts).

(** One iteration of the [while] loop of [_create_unique_board]. *)
Definition unique_body (e : pyval) (rand : nat -> Z) (st : carving)
  : result carving :=
  let row := rand (cv_draws st) in
  let col := rand (S (cv_draws st)) in
  let b := cv_board st in
  let* v := get_cell b row col in
  if pyval_eqb v e then
    Ok {| cv_board := b; cv_empties := cv_empties st;
          cv_attempts := cv_attempts st + 1; cv_draws := S (S (cv_draws st)) |}
  else
    let backup_value := v in
    let* b1 := set_cell b row col e in
    let board_copy := b1 in
    let* solutions := fst (count_solutions 2 e board_copy) in
    if solutions =? 1 then
      Ok {| cv_board := b1; cv_empties := cv_empties st + 1;
            cv_attempts := cv_attempts st + 1;
            cv_draws := S (S (cv_draws st)) |}
    else
      let* b2 := set_cell b1 row col backup_value in
      Ok {| cv_board := b2; cv_empties := cv_empties st;
            cv_attempts := cv_attempts st + 1;
            cv_draws := S (S (cv_draws st)) |}.

Fixpoint unique_loop (fuel : nat) (e : pyval) (rand : nat -> Z)
    (total_empties : Z) (st : carving) : result carving :=
  if unique_guard total_empties st then
    match fuel with
    | O => OutOfFuel
    | S fuel' =>
        let* st' := unique_body e rand st in
        unique_loop fuel' e rand total_empties st'
    end
  else Ok st.

(** [attempts] grows by one in every iteration, so [max_attempts]
    iterations are enough. *)
Definition create_unique_board (e : pyval) (rand : nat -> Z) (draws : nat)
    (total_empties : Z) (b : board) : result carving :=
  unique_loop (Z.to_nat max_attempts) e rand total_empties
    {| cv_board := b; cv_empties := 0; cv_attempts := 0; cv_draws := draws |}.

(** The [while total_empties > 0] loop of [generate]; it leaves the loop
    only when a random stream picks enough non-empty cells. *)
Fixpoint carve_loop (fuel : nat) (e : pyval) (rand : nat -> Z) (draws : nat)
    (total_empties : Z) (b : board) : result board :=
  if 0 <? total_empties then
    match fuel with
    | O => OutOfFuel
    | S fuel' =>
        let row := rand draws in
        let col := rand (S draws) in
        let* v := get_cell b row col in
        if pyval_eqb v e then
          carve_loop fuel' e rand (S (S draws)) total_empties b
        else
          let* b' := set_cell b row col e in
          carve_loop fuel' e rand (S (S draws)) (total_empties - 1) b'
    end
  else Ok b.

(** [for col, value in zip(cells, values): board[0][col] = value] *)
Fixpoint seed_board (seeds : list (Z * Z)) (b : board) : result board :=
  match seeds with
  | [] => Ok b
  | (col, value) :: rest =>
      let* b' := set_cell b 0 col (PInt value) in
      seed_board rest b'
  end.

(** [generate]; [fuel] bounds the iterations of the non-unique carving
    loop.  The result is the pair [(board, solved_board)]. *)
Definition generate (fuel : nat) (g : rng) (total_empties : Z) (unique : bool)
    (e : pyval) : result (board * board) :=
  let board0 := repeat (repeat e 9%nat) 9%nat in
  if negb ((0 <? total_empties) && (total_empties <=? 81)) then
    Raise ValueError
  else
    let* seeded := seed_board (combine (sample_cells g) (sample_values g))
                     board0 in
    match fill_board e seeded with
    | (Ok _, filled) =>
        let solved_board := filled in
        if unique then
          let* st := create_unique_board e (randint g) 0 total_empties filled in
          Ok (cv_board st, solved_board)
        else
          let* puzzle := carve_loop fuel e (randint g) 0 total_empties filled in
          Ok (puzzle, solved_board)
    | (Raise x, _) => Raise x
    | (OutOfFuel, _) => OutOfFuel
    end.

(** ** Specification vocabulary *)

Definition in_grid (r c : Z) : Prop := 0 <= r < 9 /\ 0 <= c < 9.

(** A 9x9 grid: nine rows of nine cells. *)
Definition wf9 (b : board) : Prop :=
  length b = 9%nat /\ Forall (fun row => length row = 9%nat) b.

(** The value of a cell, read with the code's own [board[r][c]]. *)
Definition cellv (b : board) (r c : Z) : pyval :=
  match get_cell b r c with
  | Ok v => v
  | _ => PInt 0
  end.

(** The grid whose cell [(r, c)] holds [f r c]. *)
Definition board_of (f : Z -> Z -> pyval) : board :=
  map (fun r => map (f r) (py_range 0 9)) (py_range 0 9).

Definition fupd (f : Z -> Z -> pyval) (r c : Z) (v : pyval)
  : Z -> Z -> pyval :=
  fun r' c' => if (r' =? r) && (c' =? c) then v else f r' c'.

(** The grid [b] after [b[r][c] = v]. *)
Definition upd (b : board) (r c : Z) (v : pyval) : board :=
  board_of (fupd (cellv b) r c v).

(** Two cells share a row, a column or a 3x3 box. *)
Definition related (r c r' c' : Z) : bool :=
  (r =? r') || (c =? c') || ((r / 3 =? r' / 3) && (c / 3 =? c' / 3)).

(** The positions whose values [is_valid_entry] collects, in its order:
    the column, the row, the box. *)
Definition units (r c : Z) : list (Z * Z) :=
  map (fun y => (y, c)) (py_range 0 9)
  ++ map (fun x => (r, x)) (py_range 0 9)
  ++ flat_map (fun i => map (fun j => (r / 3 * 3 + i, c / 3 * 3 + j))
                         (py_range 0 3)) (py_range 0 3).

(** The values [is_valid_entry] searches: [column + row + square]. *)
Definition entry_values (b : board) (r c : Z) : result (list pyval) :=
  let* column := result_map (fun row => py_index row c) b in
  let* row := py_index b r in
  let* square := get_values_in_square b r c in
  Ok (column ++ row ++ square).

Definition entry_free (b : board) (r c : Z) (v : pyval) : bool :=
  negb (existsb (fun p => pyval_eqb v (cellv b (fst p) (snd p))) (units r c)).

Definition is_digit (v : pyval) : bool :=
  match v with
  | PInt d => (1 <=? d) && (d <=? 9)
  | PStr _ => false
  end.

(** No cell holds the empty indicator. *)
Definition complete (e : pyval) (b : board) : Prop :=
  forall r c, in_grid r c -> cellv b r c <> e.

(** No two distinct related cells hold the same non-empty value. *)
Definition legal (e : pyval) (b : board) : Prop :=
  forall r c r' c', in_grid r c -> in_grid r' c' -> (r, c) <> (r', c') ->
    related r c r' c' = true -> cellv b r c <> e ->
    cellv b r c <> cellv b r' c'.

(** [s] agrees with [b] on every non-empty cell of [b]. *)
Definition extends (e : pyval) (b s : board) : Prop :=
  forall r c, in_grid r c -> cellv b r c <> e -> cellv s r c = cellv b r c.

(** Every cell that is empty in [b] holds in [g] a digit that none of its
    other related cells holds: what the search guarantees for the cells it
    fills (it never looks at the given cells on their own). *)
Definition placed_ok (e : pyval) (b g : board) : Prop :=
  forall r c, in_grid r c -> cellv b r c = e ->
    is_digit (cellv g r c) = true /\
    forall r' c', in_grid r' c' -> (r', c') <> (r, c) ->
      related r c r' c' = true -> cellv g r' c' <> cellv g r c.

(** [g] is a completion of [b] that the search can reach. *)
Definition filled_from (e : pyval) (b g : board) : Prop :=
  wf9 g /\ complete e g /\ extends e b g /\ placed_ok e b g.

(** What a run of the solver on [b] yields: either failure with the board
    as it was passed in, when no completion exists, or a completion. *)
Definition fill_outcome (e : pyval) (b : board) (out : result bool * board)
  : Prop :=
  (out = (Ok false, b) /\ ~ exists s, filled_from e b s)
  \/ (exists g, out = (Ok true, g) /\ filled_from e b g).

(** [m2] behaves as [m1] wherever [m1] has enough fuel. *)
Definition approx {A} (m1 m2 : M A) : Prop :=
  forall b r b', m1 b = (r, b') -> r <> OutOfFuel -> m2 b = (r, b').

(** *** The random source *)

Fixpoint distinct (l : list Z) : bool :=
  match l with
  | [] => true
  | x :: l' => negb (existsb (Z.eqb x) l') && distinct l'
  end.

(** [l] can be the result of [random.sample(range(lo, hi), k)]. *)
Definition sample_ok (lo hi : Z) (k : nat) (l : list Z) : bool :=
  Nat.eqb (length l) k && distinct l
  && forallb (fun x => (lo <=? x) && (x <? hi)) l.

Definition rng_ok (g : rng) : Prop :=
  sample_ok 0 9 3 (sample_cells g) = true
  /\ sample_ok 1 10 3 (sample_values g) = true
  /\ forall i, 0 <= randint g i <= 8.

(** *** A completion of every seeded grid

    [base_solution] is a solved grid whose first row is 1..9.  Renaming its
    digits by a permutation that sends [col + 1] to the value seeded at
    [col] gives a solved grid that agrees with the seeds. *)

Definition base_solution : list (list Z) :=
  [[1; 2; 3; 4; 5; 6; 7; 8; 9];
   [4; 5; 6; 7; 8; 9; 1; 2; 3];
   [7; 8; 9; 1; 2; 3; 4; 5; 6];
   [2; 1; 4; 3; 6; 5; 8; 9; 7];
   [3; 6; 5; 8; 9; 7; 2; 1; 4];
   [8; 9; 7; 2; 1; 4; 3; 6; 5];
   [5; 3; 1; 6; 4; 2; 9; 7; 8];
   [6; 4; 2; 9; 7; 8; 5; 3; 1];
   [9; 7; 8; 5; 3; 1; 6; 4; 2]].

Definition base (r c : Z) : Z :=
  nth (Z.to_nat c) (nth (Z.to_nat r) base_solution []) 0.

(** The transposition of [a] and [b]. *)
Definition transp (a b x : Z) : Z :=
  if x =? a then b else if x =? b then a else x.

(** The renaming built from the seeds [(col, value)], one transposition
    per seed: it sends [col + 1] to [value]. *)
Definition relabel (seeds : list (Z * Z)) : Z -> Z :=
  fold_left (fun sigma cv =>
               fun x => transp (sigma (fst cv + 1)) (snd cv) (sigma x))
    seeds (fun x => x).

Definition seed_check (c1 c2 c3 v1 v2 v3 : Z) : bool :=
  let sigma := relabel [(c1, v1); (c2, v2); (c3, v3)] in
  (sigma (c1 + 1) =? v1) && (sigma (c2 + 1) =? v2) && (sigma (c3 + 1) =? v3).

Definition base_check : bool :=
  forallb (fun p =>
    (1 <=? base (fst p) (snd p)) && (base (fst p) (snd p) <=? 9)
    && forallb (fun q =>
         ((fst p =? fst q) && (snd p =? snd q))
         || negb (related (fst p) (snd p) (fst q) (snd q))
         || negb (base (fst p) (snd p) =? base (fst q) (snd q))) cells9)
    cells9
  && forallb (fun c => base 0 c =? c + 1) (py_range 0 9).

Definition solution_for (seeds : list (Z * Z)) : board :=
  board_of (fun r c => PInt (relabel seeds (base r c))).

(** Every cell holds a digit and no two distinct related cells hold the
    same one. *)
Definition solved (s : board) : Prop :=
  wf9 s
  /\ (forall r c, in_grid r c -> is_digit (cellv s r c) = true)
  /\ (forall r c r' c', in_grid r c -> in_grid r' c' -> (r', c') <> (r, c) ->
        related r c r' c' = true -> cellv s r' c' <> cellv s r c).

(** The state after [n] iterations of the loop body of
    [_create_unique_board]. *)
Fixpoint unique_iter (n : nat) (e : pyval) (rand : nat -> Z) (st : carving)
  : result carving :=
  match n with
  | O => Ok st
  | S n' =>
      let* st' := unique_body e rand st in
      unique_iter n' e rand st'
  end.

(** What the carving loop keeps true of its state: the board is a 9x9 grid
    whose non-empty cells are those of the solved grid [sol], [empties]
    counts its empty cells, and the solution counter answers 1 on it. *)
Definition carving_inv (e : pyval) (sol : board) (st : carving) : Prop :=
  wf9 (cv_board st)
  /\ extends e (cv_board st) sol
  /\ cv_empties st = Z.of_nat (count_empty e (cv_board st))
  /\ 0 <= cv_attempts st
  /\ count_solutions 2 e (cv_board st) = (Ok 1, cv_board st).

(** *** Checks on the given cells of a grid *)

Definition all_cells (P : Z -> Z -> bool) : bool :=
  forallb (fun p => P (fst p) (snd p)) cells9.

(** Every given (non-empty) cell holds a digit 1..9. *)
Definition given_digits (e : pyval) (b : board) : bool :=
  all_cells (fun r c =>
    pyval_eqb (cellv b r c) e || is_digit (cellv b r c)).

(** No column holds the same given value twice. *)
Definition columns_distinct (e : pyval) (b : board) : bool :=
  all_cells (fun r c =>
    pyval_eqb (cellv b r c) e
    || forallb (fun r' =>
         (r' =? r) || negb (pyval_eqb (cellv b r' c) (cellv b r c)))
         (py_range 0 9)).

(** No row other than [r0] holds the same given value twice. *)
Definition other_rows_distinct (e : pyval) (b : board) (r0 : Z) : bool :=
  all_cells (fun r c =>
    (r =? r0) || pyval_eqb (cellv b r c) e
    || forallb (fun c' =>
         (c' =? c) || negb (pyval_eqb (cellv b r c') (cellv b r c)))
         (py_range 0 9)).

(** The column of row [r] where [g] holds [v], if any. *)
Definition column_of (g : board) (v : pyval) (r : Z) : Z :=
  match List.find (fun c => pyval_eqb (cellv g r c) v) (py_range 0 9) with
  | Some c => c
  | None => 0
  end.

(** *** Grids used as concrete inputs *)

Definition int_board (rows : list (list Z)) : board := map (map PInt) rows.

(** The solved grid of the unit tests. *)
Definition complete_board : board := int_board
  [[5; 3; 4; 6; 7; 8; 9; 1; 2];
   [6; 7; 2; 1; 9; 5; 3; 4; 8];
   [1; 9; 8; 3; 4; 2; 5; 6; 7];
   [8; 5; 9; 7; 6; 1; 4; 2; 3];
   [4; 2; 6; 8; 5; 3; 7; 9; 1];
   [7; 1; 3; 9; 2; 4; 8; 5; 6];
   [9; 6; 1; 5; 3; 7; 2; 8; 4];
   [2; 8; 7; 4; 1; 9; 6; 3; 5];
   [3; 4; 5; 2; 8; 6; 1; 7; 9]].

(** [complete_board] with seven cells cleared: it has three completions. *)
Definition three_way_board : board := int_board
  [[5; 3; 4; 6; 7; 8; 9; 1; 2];
   [6; 7; 2; 1; 9; 5; 3; 0; 0];
   [1; 9; 8; 3; 4; 2; 5; 6; 7];
   [8; 5; 9; 7; 6; 1; 0; 0; 3];
   [4; 2; 6; 8; 5; 3; 7; 9; 1];
   [7; 1; 3; 9; 2; 4; 8; 5; 6];
   [9; 6; 1; 5; 3; 7; 0; 0; 0];
   [2; 8; 7; 4; 1; 9; 6; 3; 5];
   [3; 4; 5; 2; 8; 6; 1; 7; 9]].

(** [complete_board] after [board[0][1] = 5]: two 5s in row 0 (the grid of
    [test_invalid_row]). *)
Definition duplicate_row_board : board := int_board
  [[5; 5; 4; 6; 7; 8; 9; 1; 2];
   [6; 7; 2; 1; 9; 5; 3; 4; 8];
   [1; 9; 8; 3; 4; 2; 5; 6; 7];
   [8; 5; 9; 7; 6; 1; 4; 2; 3];
   [4; 2; 6; 8; 5; 3; 7; 9; 1];
   [7; 1; 3; 9; 2; 4; 8; 5; 6];
   [9; 6; 1; 5; 3; 7; 2; 8; 4];
   [2; 8; 7; 4; 1; 9; 6; 3; 5];
   [3; 4; 5; 2; 8; 6; 1; 7; 9]].

(** [duplicate_row_board] with its last cell cleared. *)
Definition duplicate_row_open_board : board := int_board
  [[5; 5; 4; 6; 7; 8; 9; 1; 2];
   [6; 7; 2; 1; 9; 5; 3; 4; 8];
   [1; 9; 8; 3; 4; 2; 5; 6; 7];
   [8; 5; 9; 7; 6; 1; 4; 2; 3];
   [4; 2; 6; 8; 5; 3; 7; 9; 1];
   [7; 1; 3; 9; 2; 4; 8; 5; 6];
   [9; 6; 1; 5; 3; 7; 2; 8; 4];
   [2; 8; 7; 4; 1; 9; 6; 3; 5];
   [3; 4; 5; 2; 8; 6; 1; 7; 0]].

(** The unsolvable grid of the solver's unit tests. *)
Definition unsolvable_board : board := int_board
  [[5; 5; 0; 0; 7; 0; 0; 0; 0];
   [6; 0; 0; 1; 9; 5; 0; 0; 0];
   [0; 9; 8; 0; 0; 0; 0; 6; 0];
   [8; 0; 0; 0; 6; 0; 0; 0; 3];
   [4; 0; 0; 8; 0; 3; 0; 0; 1];
   [7; 0; 0; 0; 2; 0; 0; 0; 6];
   [0; 6; 0; 0; 0; 0; 2; 8; 0];
   [0; 0; 0; 4; 1; 9; 0; 0; 5];
   [0; 0; 0; 0; 8; 0; 0; 7; 9]].

Definition empty_board : board := repeat (repeat (PInt 0) 9%nat) 9%nat.

(** A random source whose [randint] always answers 0 (the mock of
    [test_create_unique_board_max_attempts]). *)
Definition stuck_rng : rng :=
  {| sample_cells := [0; 1; 2]; sample_values := [1; 2; 3];
     randint := fun _ => 0 |}.

(** A random source whose successive [(row, col)] pairs sweep the grid in
    row-major order. *)
Definition sweep_rng : rng :=
  {| sample_cells := [4; 0; 7]; sample_values := [9; 2; 5];
     randint := fun i =>
       let k := Z.of_nat (Nat.div i 2) in
       if Nat.even i then (k / 9) mod 9 else k mod 9 |}.

(** ** More of sudoku_solver.py *)

(** The list comprehension of [get_possible_values]: the values of
    [range(1, 10)] that pass [is_valid_entry], in order. *)
Fixpoint possible_scan (b : board) (row col : Z) (values : list Z)
  : result (list Z) :=
  match values with
  | [] => Ok []
  | value :: rest =>
      let* ok := is_valid_entry b row col (PInt value) in
      let* tl := possible_scan b row col rest in
      Ok (if ok then value :: tl else tl)
  end.

Definition get_possible_values (b : board) (row col : Z) : result (list Z) :=
  possible_scan b row col (py_range 1 10).

(** *** Vocabulary for the further properties *)

(** The cells of the 3x3 box of [(r, c)], row by row. *)
Definition box_cells (r c : Z) : list (Z * Z) :=
  flat_map (fun i => map (fun j => (r / 3 * 3 + i, c / 3 * 3 + j))
                       (py_range 0 3)) (py_range 0 3).

(** [(r', c')] comes before [(r, c)] in row-major order. *)
Definition before (r' c' r c : Z) : Prop := r' < r \/ (r' = r /\ c' < c).

(** The puzzle of the solver's unit tests. *)
Definition partial_board : board := int_board
  [[5; 3; 0; 0; 7; 0; 0; 0; 0];
   [6; 0; 0; 1; 9; 5; 0; 0; 0];
   [0; 9; 8; 0; 0; 0; 0; 6; 0];
   [8; 0; 0; 0; 6; 0; 0; 0; 3];
   [4; 0; 0; 8; 0; 3; 0; 0; 1];
   [7; 0; 0; 0; 2; 0; 0; 0; 6];
   [0; 6; 0; 0; 0; 0; 2; 8; 0];
   [0; 0; 0; 4; 1; 9; 0; 0; 5];
   [0; 0; 0; 0; 8; 0; 0; 7; 9]].

(** A legal grid with an empty cell, (0, 8), that no value fits. *)
Definition dead_cell_board : board := int_board
  [[1; 2; 3; 4; 5; 6; 7; 8; 0];
   [0; 0; 0; 0; 0; 0; 0; 0; 9];
   [0; 0; 0; 0; 0; 0; 0; 0; 0];
   [0; 0; 0; 0; 0; 0; 0; 0; 0];
   [0; 0; 0; 0; 0; 0; 0; 0; 0];
   [0; 0; 0; 0; 0; 0; 0; 0; 0];
   [0; 0; 0; 0; 0; 0; 0; 0; 0];
   [0; 0; 0; 0; 0; 0; 0; 0; 0];
   [0; 0; 0; 0; 0; 0; 0; 0; 0]].

(** What a count [n] says about the grids that satisfy [Q]: none when it
    is 0, exactly one when it is 1, at least two when it is 2 or more. *)
Definition count_of (Q : board -> Prop) (n : Z) : Prop :=
  (n = 0 /\ ~ exists s, Q s)
  \/ (n = 1 /\ exists s, Q s /\ forall s', Q s' -> s' = s)
  \/ (2 <= n /\ exists s1 s2, Q s1 /\ Q s2 /\ s1 <> s2).

(** ** sudoku_board.py *)

Module sudoku_board.

(** The attributes of a [SudokuBoard] object ([_rows] and [_columns] are
    the constant 9). *)
Record SudokuBoard : Type := {
  empty_indicator : pyval;
  _board : board;
  _unsolved_board : board;
  _solved_board : board;
  prefilled_squares : list (Z * Z);
  player_fillable_squares : list (Z * Z);
  edited_squares : list (Z * Z)
}.

(** [self._board = b] *)
Definition set_board (self : SudokuBoard) (b : board) : SudokuBoard :=
  {| empty_indicator := empty_indicator self;
     _board := b;
     _unsolved_board := _unsolved_board self;
     _solved_board := _solved_board self;
     prefilled_squares := prefilled_squares self;
     player_fillable_squares := player_fillable_squares self;
     edited_squares := edited_squares self |}.

(** The list object [self.edited_squares] becomes [l]. *)
Definition set_edited (self : SudokuBoard) (l : list (Z * Z)) : SudokuBoard :=
  {| empty_indicator := empty_indicator self;
     _board := _board self;
     _unsolved_board := _unsolved_board self;
     _solved_board := _solved_board self;
     prefilled_squares := prefilled_squares self;
     player_fillable_squares := player_fillable_squares self;
     edited_squares := l |}.

(** [0 <= row < self._rows and 0 <= col < self._columns] *)
Definition in_range (row col : Z) : bool :=
  ((0 <=? row) && (row <? 9)) && ((0 <=? col) && (col <? 9)).

(** [==] on [(row, col)] tuples and [square in squares]. *)
Definition square_eqb (p q : Z * Z) : bool :=
  (fst p =? fst q) && (snd p =? snd q).

Definition square_in (p : Z * Z) (l : list (Z * Z)) : bool :=
  existsb (square_eqb p) l.

(** [list.remove]: drops the first element equal to [p]; ValueError when
    there is none. *)
Fixpoint list_remove (p : Z * Z) (l : list (Z * Z)) : result (list (Z * Z)) :=
  match l with
  | [] => Raise ValueError
  | q :: l' =>
      if square_eqb q p then Ok l'
      else let* t := list_remove p l' in Ok (q :: t)
  end.

(** [enumerate(l)] *)
Definition enumerate {A} (l : list A) : list (Z * A) :=
  combine (map Z.of_nat (seq 0 (length l))) l.

(** [sum(row.count(self.empty_indicator) for row in board)] *)
Definition total_empty_squares (e : pyval) (b : board) : Z :=
  fold_right Z.add 0
    (map (fun row =>
            Z.of_nat (length (List.filter (fun v => pyval_eqb v e) row))) b).

(** [is_valid_board] on the board selected by its first line ([board] if
    given, else [self._board]); [e] is [self.empty_indicator].  The
    [isinstance] tests hold of every typed argument. *)
Definition is_valid_board (e : pyval) (expected_empties : option Z) : M bool :=
  do actual_empties <- reading (fun b => Ok (total_empty_squares e b));
  let valid_empties :=
    match expected_empties with
    | Some n => actual_empties =? n
    | None => true
    end in
  do valid_board <- is_valid_board e;
  ret (valid_board && valid_empties).

(** The last loop of [_validate_input_boards]:
    [value != self.empty_indicator and value not in range(1, 10)]. *)
Fixpoint validate_values (e : pyval) (b : board) (cells : list (Z * Z))
  : result unit :=
  match cells with
  | [] => Ok tt
  | (row, col) :: rest =>
      let* value := get_cell b row col in
      if negb (pyval_eqb value e) && negb (is_digit value)
      then Raise ValueError
      else validate_values e b rest
  end.

(** [_validate_input_boards]; [is_solved] stands for
    [board_name == "SolvedBoard"].  The state is the caller's list. *)
Definition _validate_input_boards (e : pyval) (is_solved : bool) : M unit :=
  fun b =>
    if negb (Nat.eqb (length b) 9)
       || existsb (fun row => negb (Nat.eqb (length row) 9)) b
    then raise IndexError b
    else
      (do ok <- is_valid_board e None;
       if negb ok then raise ValueError
       else
         do empties <- reading (fun b => Ok (total_empty_squares e b));
         if is_solved && negb (empties =? 0) then raise ValueError
         else reading (fun b => validate_values e b cells9)) b.

Fixpoint _is_solved_version (e : pyval) (unsolved_board solved_board : board)
    (cells : list (Z * Z)) : result unit :=
  match cells with
  | [] => Ok tt
  | (row, col) :: rest =>
      let* unsolved_value := get_cell unsolved_board row col in
      let* solved_value := get_cell solved_board row col in
      if negb (pyval_eqb unsolved_value e)
         && negb (pyval_eqb unsolved_value solved_value)
      then Raise ValueError
      else _is_solved_version e unsolved_board solved_board rest
  end.

(** [tuple((row, col) for row in range(9) for col in range(9)
           if keep(board[row][col]))] *)
Fixpoint select_squares (b : board) (keep : pyval -> bool)
    (cells : list (Z * Z)) : result (list (Z * Z)) :=
  match cells with
  | [] => Ok []
  | (row, col) :: rest =>
      let* v := get_cell b row col in
      let* tl := select_squares b keep rest in
      Ok (if keep v then (row, col) :: tl else tl)
  end.

(** [__init__]: the result, with the two argument lists (two distinct
    objects) as the call leaves them.  Indices and values passed to the
    methods below are ints, as their signatures say. *)
Definition init (unsolved_board solved_board : board) (e : pyval)
  : result SudokuBoard * (board * board) :=
  match _validate_input_boards e false unsolved_board with
  | (Ok _, unsolved_board) =>
      match _validate_input_boards e true solved_board with
      | (Ok _, solved_board) =>
          (let* _ := _is_solved_version e unsolved_board solved_board cells9 in
           let* prefilled :=
             select_squares unsolved_board (fun v => negb (pyval_eqb v e))
               cells9 in
           let* fillable :=
             select_squares unsolved_board (fun v => pyval_eqb v e) cells9 in
           Ok {| empty_indicator := e;
                 _board := unsolved_board;
                 _unsolved_board := unsolved_board;
                 _solved_board := solved_board;
                 prefilled_squares := prefilled;
                 player_fillable_squares := fillable;
                 edited_squares := [] |},
           (unsolved_board, solved_board))
      | (Raise x, solved_board) => (Raise x, (unsolved_board, solved_board))
      | (OutOfFuel, solved_board) => (OutOfFuel, (unsolved_board, solved_board))
      end
  | (Raise x, unsolved_board) => (Raise x, (unsolved_board, solved_board))
  | (OutOfFuel, unsolved_board) => (OutOfFuel, (unsolved_board, solved_board))
  end.

(** [self.is_valid_board(expected_empties=...)]: the check runs on
    [self._board] itself. *)
Definition is_valid_board_self (expected_empties : option Z)
    (self : SudokuBoard) : result bool * SudokuBoard :=
  let (r, b) := is_valid_board (empty_indicator self) expected_empties
                  (_board self) in
  (r, set_board self b).

Definition get_value (self : SudokuBoard) (row col : Z) : result pyval :=
  if negb (in_range row col) then Raise IndexError
  else get_cell (_board self) row col.

Definition is_currently_empty (self : SudokuBoard) (row col : Z)
  : result bool :=
  if negb (in_range row col) then Raise IndexError
  else
    let* v := get_value self row col in
    Ok (pyval_eqb v (empty_indicator self)).

Definition is_valid_entry (self : SudokuBoard) (row col value : Z)
  : result bool :=
  if negb (in_range row col) then Raise IndexError
  else if negb ((1 <=? value) && (value <=? 9)) then Raise ValueError
  else if square_in (row, col) (prefilled_squares self) then Ok false
  else
    let* already_empty :=
      if pyval_eqb (PInt value) (empty_indicator self) then
        let* v := get_value self row col in
        Ok (pyval_eqb (empty_indicator self) v)
      else Ok false in
    if already_empty then Ok false
    else is_valid_entry (_board self) row col (PInt value).

Definition reset_board (self : SudokuBoard) : board * SudokuBoard :=
  let self := set_board self (_unsolved_board self) in
  let self := set_edited self [] in
  (_board self, self).

Definition update_to_solved (self : SudokuBoard) : SudokuBoard :=
  let self := set_board self (_solved_board self) in
  set_edited self [].

Definition get_current_board (self : SudokuBoard) : board := _board self.

Definition get_board_copy (self : SudokuBoard) : board := _board self.

(** [count_solutions] is called with its defaults: [limit=2] and
    [empty_indicator=0]. *)
Definition has_one_solution (self : SudokuBoard) : result bool :=
  let* solutions := fst (count_solutions 2 (PInt 0) (get_board_copy self)) in
  Ok (solutions =? 1).

(** [get_hint]; [choice] is the index drawn by [random.choice]. *)
Definition get_hint (choice : nat) (self : SudokuBoard)
  : result (pyval * Z * Z) :=
  if total_empty_squares (empty_indicator self) (_board self) =? 0
  then Ok (PInt 0, 0, 0)
  else
    let empty_squares :=
      List.filter (fun square => negb (square_in square (edited_squares self)))
        (player_fillable_squares self) in
    match empty_squares with
    | [] => Ok (PInt 0, 0, 0)
    | _ :: _ =>
        let (row, col) :=
          nth (choice mod length empty_squares)%nat empty_squares (0, 0) in
        let* value := get_cell (_solved_board self) row col in
        Ok (value, row, col)
    end.

Definition set_value (self : SudokuBoard) (row col value : Z)
  : result bool * SudokuBoard :=
  if negb (in_range row col) then (Raise IndexError, self)
  else if negb ((1 <=? value) && (value <=? 9)) then (Raise ValueError, self)
  else
    match is_valid_entry self row col value with
    | Ok true =>
        match set_cell (_board self) row col (PInt value) with
        | Ok b =>
            let self := set_board self b in
            let square := (row, col) in
            if negb (square_in square (edited_squares self)) then
              match get_cell (_unsolved_board self) row col with
              | Ok u =>
                  if pyval_eqb u (empty_indicator self)
                     && negb (pyval_eqb (PInt value) (empty_indicator self))
                  then (Ok true,
                        set_edited self (edited_squares self ++ [(row, col)]))
                  else (Ok true, self)
              | Raise x => (Raise x, self)
              | OutOfFuel => (OutOfFuel, self)
              end
            else (Ok true, self)
        | Raise x => (Raise x, self)
        | OutOfFuel => (OutOfFuel, self)
        end
    | Ok false => (Ok false, self)
    | Raise x => (Raise x, self)
    | OutOfFuel => (OutOfFuel, self)
    end.

Definition set_empty (self : SudokuBoard) (row col : Z)
  : result bool * SudokuBoard :=
  if negb (in_range row col) then (Raise IndexError, self)
  else
    let square := (row, col) in
    if square_in square (edited_squares self) then
      match set_cell (_board self) row col (empty_indicator self) with
      | Ok b =>
          let self := set_board self b in
          match list_remove square (edited_squares self) with
          | Ok l => (Ok true, set_edited self l)
          | Raise x => (Raise x, self)
          | OutOfFuel => (OutOfFuel, self)
          end
      | Raise x => (Raise x, self)
      | OutOfFuel => (OutOfFuel, self)
      end
    else (Ok false, self).

(** The generator expression of [get_by_value]. *)
Fixpoint squares_with (self : SudokuBoard) (value : Z) (cells : list (Z * Z))
  : result (list (Z * Z)) :=
  match cells with
  | [] => Ok []
  | (row, col) :: rest =>
      let* v := get_value self row col in
      let* tl := squares_with self value rest in
      Ok (if pyval_eqb v (PInt value) then (row, col) :: tl else tl)
  end.

Definition get_by_value (self : SudokuBoard) (value : Z)
  : result (list (Z * Z)) :=
  if negb ((1 <=? value) && (value <=? 9)) then Raise ValueError
  else squares_with self value cells9.

(** The three loops of [find_conflicts], each appending to [conflicts]. *)
Definition row_conflicts (row col : Z) (value : pyval) (nums : list pyval)
  : list (Z * Z) :=
  flat_map (fun p : Z * pyval =>
              let (index, num) := p in
              if negb (square_eqb (row, index) (row, col))
                 && pyval_eqb num value
              then [(row, index)] else [])
    (enumerate nums).

Definition column_conflicts (row col : Z) (value : pyval) (nums : list pyval)
  : list (Z * Z) :=
  flat_map (fun p : Z * pyval =>
              let (index, num) := p in
              if negb (square_eqb (index, col) (row, col))
                 && pyval_eqb num value
              then [(index, col)] else [])
    (enumerate nums).

Fixpoint square_conflicts (b : board) (row col : Z) (value : pyval)
    (cells : list (Z * Z)) : result (list (Z * Z)) :=
  match cells with
  | [] => Ok []
  | (r, c) :: rest =>
      let* hit :=
        if negb (square_eqb (r, c) (row, col)) then
          let* v := get_cell b r c in Ok (pyval_eqb v value)
        else Ok false in
      let* tl := square_conflicts b row col value rest in
      Ok (if hit then (r, c) :: tl else tl)
  end.

(** [find_conflicts]: [list(set(conflicts))] keeps one copy of every
    square, in an order Python leaves open. *)
Definition find_conflicts (self : SudokuBoard) (row col value : Z)
  : result (list (Z * Z)) :=
  if negb (in_range row col) then Raise IndexError
  else if negb ((1 <=? value) && (value <=? 9)) then Raise ValueError
  else
    let* nums := py_index (_board self) row in
    let on_row := row_conflicts row col (PInt value) nums in
    let* column := result_map (fun r => py_index r col) (_board self) in
    let on_column := column_conflicts row col (PInt value) column in
    let y := (row / 3) * 3 in
    let x := (col / 3) * 3 in
    let* on_square :=
      square_conflicts (_board self) row col (PInt value)
        (flat_map (fun i => map (fun j => (y + i, x + j)) (py_range 0 3))
           (py_range 0 3)) in
    Ok (remove_dups (on_row ++ on_column ++ on_square)).

End sudoku_board.

(** ** Vocabulary for the session object *)

(** The squares of the grid, in row-major order, whose cell of [b]
    satisfies [keep]. *)
Definition squares_where (b : board) (keep : pyval -> bool) : list (Z * Z) :=
  List.filter (fun p => keep (cellv b (fst p) (snd p))) cells9.

(** What the methods of [SudokuBoard] keep true of an object built by its
    constructor: the three grids are 9x9, the solved grid is a solution of
    the unsolved one, the current grid is legal, holds digits or the empty
    indicator and agrees with the prefilled squares; [edited_squares] lists
    without repetition the fillable squares that hold a value, unless the
    solved grid has just been shown. *)
Definition session_inv (self : sudoku_board.SudokuBoard) : Prop :=
  let e := sudoku_board.empty_indicator self in
  let cur := sudoku_board._board self in
  let u := sudoku_board._unsolved_board self in
  let s := sudoku_board._solved_board self in
  let edited := sudoku_board.edited_squares self in
  is_digit e = false
  /\ wf9 u /\ solved s /\ extends e u s
  /\ sudoku_board.prefilled_squares self
     = squares_where u (fun v => negb (pyval_eqb v e))
  /\ sudoku_board.player_fillable_squares self
     = squares_where u (fun v => pyval_eqb v e)
  /\ wf9 cur /\ legal e cur /\ given_digits e cur = true /\ extends e u cur
  /\ List.NoDup edited
  /\ ((cur = s /\ edited = [])
      \/ forall r c, In (r, c) edited
                     <-> in_grid r c /\ cellv u r c = e /\ cellv cur r c <> e).

(** A call a client makes on the object; a raised exception is caught and
    the session goes on. *)
Inductive call : Type :=
| SetValue (row col value : Z)
| SetEmpty (row col : Z)
| ResetBoard
| UpdateToSolved
| IsValidBoard (expected_empties : option Z).

Definition run_call (self : sudoku_board.SudokuBoard) (c : call)
  : sudoku_board.SudokuBoard :=
  match c with
  | SetValue row col value => snd (sudoku_board.set_value self row col value)
  | SetEmpty row col => snd (sudoku_board.set_empty self row col)
  | ResetBoard => snd (sudoku_board.reset_board self)
  | UpdateToSolved => sudoku_board.update_to_solved self
  | IsValidBoard expected_empties =>
      snd (sudoku_board.is_valid_board_self expected_empties self)
  end.

Definition run_calls (self : sudoku_board.SudokuBoard) (calls : list call)
  : sudoku_board.SudokuBoard :=
  fold_left run_call calls self.

(** [partial_board] with "." for the empty cells. *)
Definition dotted_board : board :=
  map (map (fun v => if pyval_eqb v (PInt 0) then PStr "." else v))
    partial_board.

(** [g] comes before [s] in the order of the search: at the first cell, in
    row-major order, where the two grids differ, [g] holds the smaller
    digit. *)
Definition comes_first (g s : board) : Prop :=
  exists r c x y,
    in_grid r c
    /\ (forall r' c', in_grid r' c' -> before r' c' r c ->
          cellv g r' c' = cellv s r' c')
    /\ cellv g r c = PInt x /\ cellv s r c = PInt y /\ x < y.

(** * Properties *)

(** ** Python primitives *)

Lemma pyval_eqb_eq (a b : pyval) : pyval_eqb a b = true <-> a = b.
Proof.
  destruct a as [x|s], b as [y|t]; simpl; split; intro H;
    try discriminate; try (inversion H; subst).
  - apply Z.eqb_eq in H. now subst.
  - apply Z.eqb_refl.
  - apply String.eqb_eq in H. now subst.
  - apply String.eqb_refl.
Qed.

Lemma pyval_eqb_refl (a : pyval) : pyval_eqb a a = true.
Proof. now apply pyval_eqb_eq. Qed.

Lemma pyval_eqb_neq (a b : pyval) : pyval_eqb a b = false <-> a <> b.
Proof.
  rewrite <- pyval_eqb_eq. destruct (pyval_eqb a b); split; congruence.
Qed.

Lemma pyval_eqb_sym (a b : pyval) : pyval_eqb a b = pyval_eqb b a.
Proof.
  destruct (pyval_eqb b a) eqn:E.
  - apply pyval_eqb_eq in E. subst. apply pyval_eqb_refl.
  - apply pyval_eqb_neq. apply pyval_eqb_neq in E. congruence.
Qed.

Lemma range9_cases (r : Z) :
  0 <= r < 9 ->
  r = 0 \/ r = 1 \/ r = 2 \/ r = 3 \/ r = 4 \/ r = 5 \/ r = 6 \/ r = 7 \/ r = 8.
Proof. lia. Qed.

Ltac grid_cases H :=
  let Hr := fresh in let Hc := fresh in
  destruct H as [Hr Hc];
  apply range9_cases in Hr; apply range9_cases in Hc;
  repeat (destruct Hr as [Hr|Hr]); repeat (destruct Hc as [Hc|Hc]);
  subst.

Lemma py_range_0_9 (v : Z) : In v (py_range 0 9) <-> 0 <= v < 9.
Proof. change (py_range 0 9) with [0; 1; 2; 3; 4; 5; 6; 7; 8]. simpl. lia. Qed.

Lemma in_cells9 (r c : Z) : in_grid r c <-> In (r, c) cells9.
Proof.
  unfold cells9, in_grid. rewrite in_flat_map. split.
  - intros [Hr Hc]. exists r. split; [now apply py_range_0_9|].
    apply in_map. now apply py_range_0_9.
  - intros [y [Hy Hin]]. apply in_map_iff in Hin.
    destruct Hin as [x [E Hx]]. inversion E; subst.
    split; now apply py_range_0_9.
Qed.

(** A property checked on the 81 cells holds on the grid. *)
Lemma grid_forall (P : Z -> Z -> Prop) :
  Forall (fun p => P (fst p) (snd p)) cells9 ->
  forall r c, in_grid r c -> P r c.
Proof.
  intros HF r c H. rewrite List.Forall_forall in HF.
  apply (HF (r, c)). now apply in_cells9.
Qed.

Ltac len9 l H :=
  do 9 (destruct l as [|? l]; [discriminate H|]);
  destruct l; [|discriminate H].

Lemma board_of_cellv (b : board) : wf9 b -> board_of (cellv b) = b.
Proof.
  intros [Hl HF]. len9 b Hl.
  repeat match goal with
         | H : Forall _ (_ :: _) |- _ => inversion H; subst; clear H
         end.
  repeat match goal with
         | H : length ?l = 9%nat |- _ => len9 l H
         end.
  reflexivity.
Qed.

Lemma wf9_board_of (f : Z -> Z -> pyval) : wf9 (board_of f).
Proof. split; [reflexivity|]. repeat constructor. Qed.

Lemma get_cell_board_of (f : Z -> Z -> pyval) (r c : Z) :
  in_grid r c -> get_cell (board_of f) r c = Ok (f r c).
Proof. revert r c. apply grid_forall. repeat constructor. Qed.

Lemma cellv_board_of (f : Z -> Z -> pyval) (r c : Z) :
  in_grid r c -> cellv (board_of f) r c = f r c.
Proof. intro H. unfold cellv. now rewrite get_cell_board_of. Qed.

Lemma set_cell_board_of (f : Z -> Z -> pyval) (r c : Z) (v : pyval) :
  in_grid r c -> set_cell (board_of f) r c v = Ok (board_of (fupd f r c v)).
Proof.
  revert r c. apply grid_forall. repeat constructor.
Qed.

Lemma board_of_ext (f g : Z -> Z -> pyval) :
  (forall r c, in_grid r c -> f r c = g r c) -> board_of f = board_of g.
Proof.
  intro H. unfold board_of.
  apply map_ext_in. intros r Hr. apply map_ext_in. intros c Hc.
  apply H. unfold in_grid.
  vm_compute in Hr, Hc.
  split.
  - repeat (destruct Hr as [Hr|Hr]; [lia|]). destruct Hr.
  - repeat (destruct Hc as [Hc|Hc]; [lia|]). destruct Hc.
Qed.

Lemma is_valid_entry_values (b : board) (r c : Z) (v : pyval) :
  is_valid_entry b r c v =
  let* l := entry_values b r c in Ok (negb (existsb (pyval_eqb v) l)).
Proof.
  unfold is_valid_entry, entry_values.
  destruct (result_map _ b) as [column| |]; simpl; try reflexivity.
  destruct (py_index b r) as [row| |]; simpl; try reflexivity.
  destruct (get_values_in_square b r c) as [square| |]; simpl; try reflexivity.
  now destruct (existsb _ _).
Qed.

Lemma entry_values_board_of (f : Z -> Z -> pyval) (r c : Z) :
  in_grid r c ->
  entry_values (board_of f) r c =
  Ok (map (fun p => f (fst p) (snd p)) (units r c)).
Proof.
  revert r c. apply grid_forall.
  repeat constructor; vm_compute; reflexivity.
Qed.

(** ** Grids *)

Lemma get_cell_wf (b : board) (r c : Z) :
  wf9 b -> in_grid r c -> get_cell b r c = Ok (cellv b r c).
Proof.
  intros Hb H. rewrite <- (board_of_cellv b Hb) at 1.
  now apply get_cell_board_of.
Qed.

Lemma set_cell_wf (b : board) (r c : Z) (v : pyval) :
  wf9 b -> in_grid r c -> set_cell b r c v = Ok (upd b r c v).
Proof.
  intros Hb H. rewrite <- (board_of_cellv b Hb) at 1.
  now apply set_cell_board_of.
Qed.

Lemma wf9_upd (b : board) (r c : Z) (v : pyval) : wf9 (upd b r c v).
Proof. apply wf9_board_of. Qed.

Lemma cellv_upd (b : board) (r c r' c' : Z) (v : pyval) :
  in_grid r' c' ->
  cellv (upd b r c v) r' c' =
  if (r' =? r) && (c' =? c) then v else cellv b r' c'.
Proof. intro H. unfold upd. now rewrite cellv_board_of. Qed.

Lemma cellv_upd_same (b : board) (r c : Z) (v : pyval) :
  in_grid r c -> cellv (upd b r c v) r c = v.
Proof. intro H. rewrite cellv_upd by assumption. now rewrite !Z.eqb_refl. Qed.

Lemma cellv_upd_other (b : board) (r c r' c' : Z) (v : pyval) :
  in_grid r' c' -> (r', c') <> (r, c) ->
  cellv (upd b r c v) r' c' = cellv b r' c'.
Proof.
  intros H Hne. rewrite cellv_upd by assumption.
  destruct (Z.eqb_spec r' r), (Z.eqb_spec c' c); simpl; congruence.
Qed.

Lemma board_ext (b b' : board) :
  wf9 b -> wf9 b' ->
  (forall r c, in_grid r c -> cellv b r c = cellv b' r c) -> b = b'.
Proof.
  intros Hb Hb' H.
  rewrite <- (board_of_cellv b Hb), <- (board_of_cellv b' Hb').
  now apply board_of_ext.
Qed.

(** Writing back the value a cell held undoes a write to that cell. *)
Lemma upd_restore (b : board) (r c : Z) (v : pyval) :
  wf9 b -> in_grid r c -> upd (upd b r c v) r c (cellv b r c) = b.
Proof.
  intros Hb H. apply board_ext; [apply wf9_upd|assumption|].
  intros r' c' H'. rewrite !cellv_upd by assumption.
  destruct (Z.eqb_spec r' r), (Z.eqb_spec c' c); simpl; congruence.
Qed.

Lemma upd_refill (b : board) (e v : pyval) (r c : Z) :
  wf9 b -> in_grid r c -> cellv b r c = e -> upd (upd b r c v) r c e = b.
Proof. intros Hb H <-. now apply upd_restore. Qed.

Lemma upd_upd (b : board) (r c : Z) (v w : pyval) :
  upd (upd b r c v) r c w = upd b r c w.
Proof.
  apply board_ext; try apply wf9_upd.
  intros r' c' H'. rewrite !cellv_upd by assumption.
  now destruct ((r' =? r) && (c' =? c)).
Qed.

Lemma is_valid_entry_wf (b : board) (r c : Z) (v : pyval) :
  wf9 b -> in_grid r c -> is_valid_entry b r c v = Ok (entry_free b r c v).
Proof.
  intros Hb H. rewrite is_valid_entry_values.
  rewrite <- (board_of_cellv b Hb) at 1.
  rewrite entry_values_board_of by assumption.
  assert (Hmap : forall l : list (Z * Z),
             existsb (pyval_eqb v) (map (fun p => cellv b (fst p) (snd p)) l) =
             existsb (fun p => pyval_eqb v (cellv b (fst p) (snd p))) l).
  { intro l. induction l as [|p l IH]; simpl; [reflexivity|]. now rewrite IH. }
  unfold entry_free, rbind. now rewrite Hmap.
Qed.

Lemma in_units (r c r' c' : Z) :
  in_grid r c ->
  In (r', c') (units r c) <-> in_grid r' c' /\ related r c r' c' = true.
Proof.
  intro H. split.
  - revert r' c'.
    assert (HF : forallb (fun q => (0 <=? fst q) && (fst q <? 9)
                            && (0 <=? snd q) && (snd q <? 9)
                            && related r c (fst q) (snd q)) (units r c) = true).
    { grid_cases H; vm_compute; reflexivity. }
    intros r' c' Hin. rewrite forallb_forall in HF.
    specialize (HF _ Hin). simpl in HF. unfold in_grid.
    repeat (apply andb_prop in HF; destruct HF as [HF ?]).
    split; [lia|assumption].
  - intros [H' Hrel].
    assert (HF : forallb (fun p => forallb (fun q =>
                   implb (related (fst p) (snd p) (fst q) (snd q))
                     (existsb (fun u => (fst u =? fst q) && (snd u =? snd q))
                        (units (fst p) (snd p)))) cells9) cells9 = true)
      by (vm_compute; reflexivity).
    rewrite forallb_forall in HF.
    specialize (HF (r, c) (proj1 (in_cells9 r c) H)).
    rewrite forallb_forall in HF.
    specialize (HF (r', c') (proj1 (in_cells9 r' c') H')).
    cbn [fst snd] in HF. rewrite Hrel in HF. cbn [implb] in HF.
    apply existsb_exists in HF. destruct HF as [[r2 c2] [Hin Heq]].
    simpl in Heq. apply andb_prop in Heq. destruct Heq as [E1 E2].
    apply Z.eqb_eq in E1, E2. now subst.
Qed.

Lemma entry_free_true (b : board) (r c : Z) (v : pyval) :
  in_grid r c ->
  entry_free b r c v = true <->
  forall r' c', in_grid r' c' -> related r c r' c' = true -> cellv b r' c' <> v.
Proof.
  intro H. unfold entry_free. rewrite negb_true_iff.
  split.
  - intros Hex r' c' H' Hrel Heq.
    assert (Hin : In (r', c') (units r c)) by (apply in_units; auto).
    assert (existsb (fun p => pyval_eqb v (cellv b (fst p) (snd p)))
              (units r c) = true); [|congruence].
    apply existsb_exists. exists (r', c'). split; [assumption|].
    simpl. now apply pyval_eqb_eq.
  - intro Hall. destruct (existsb _ _) eqn:E; [|reflexivity].
    apply existsb_exists in E. destruct E as [[r' c'] [Hin Heq]].
    apply in_units in Hin; [|assumption]. destruct Hin as [H' Hrel].
    simpl in Heq. apply pyval_eqb_eq in Heq.
    exfalso. now apply (Hall r' c' H' Hrel).
Qed.

Lemma related_refl (r c : Z) : related r c r c = true.
Proof. unfold related. now rewrite Z.eqb_refl. Qed.

Lemma related_sym (r c r' c' : Z) : related r c r' c' = related r' c' r c.
Proof.
  unfold related.
  now rewrite (Z.eqb_sym r r'), (Z.eqb_sym c c'),
    (Z.eqb_sym (r / 3)), (Z.eqb_sym (c / 3)).
Qed.

(** ** [get_empty] *)

Lemma get_empty_scan_wf (b : board) (e : pyval) (cells : list (Z * Z)) :
  wf9 b -> (forall p, In p cells -> in_grid (fst p) (snd p)) ->
  get_empty_scan b e cells =
  Ok (List.find (fun p => pyval_eqb (cellv b (fst p) (snd p)) e) cells).
Proof.
  intros Hb. induction cells as [|[y x] rest IH]; intro Hin; simpl.
  - reflexivity.
  - rewrite get_cell_wf by (auto; apply (Hin (y, x)); now left). simpl.
    destruct (pyval_eqb (cellv b y x) e); [reflexivity|].
    apply IH. intros p Hp. apply Hin. now right.
Qed.

Lemma get_empty_wf (b : board) (e : pyval) :
  wf9 b ->
  get_empty b e =
  Ok (List.find (fun p => pyval_eqb (cellv b (fst p) (snd p)) e) cells9).
Proof.
  intro Hb. apply get_empty_scan_wf; [assumption|].
  intros [r c] Hp. now apply in_cells9.
Qed.

Lemma get_empty_none (b : board) (e : pyval) :
  wf9 b -> get_empty b e = Ok None -> complete e b.
Proof.
  intros Hb H r c Hrc Heq. rewrite get_empty_wf in H by assumption.
  assert (Hf : List.find (fun p => pyval_eqb (cellv b (fst p) (snd p)) e)
                 cells9 = None) by congruence.
  pose proof (List.find_none _ _ Hf (r, c) (proj1 (in_cells9 r c) Hrc)) as Hn.
  cbn [fst snd] in Hn. apply pyval_eqb_neq in Hn. contradiction.
Qed.

Lemma complete_get_empty (b : board) (e : pyval) :
  wf9 b -> complete e b -> get_empty b e = Ok None.
Proof.
  intros Hb Hc. rewrite get_empty_wf by assumption. f_equal.
  destruct (List.find _ cells9) as [[r c]|] eqn:E; [|reflexivity].
  apply List.find_some in E. destruct E as [Hin Heq]. cbn [fst snd] in Heq.
  apply pyval_eqb_eq in Heq. apply in_cells9 in Hin.
  now destruct (Hc r c Hin).
Qed.

Lemma get_empty_some (b : board) (e : pyval) (r c : Z) :
  wf9 b -> get_empty b e = Ok (Some (r, c)) ->
  in_grid r c /\ cellv b r c = e.
Proof.
  intros Hb H. rewrite get_empty_wf in H by assumption.
  assert (Hf : List.find (fun p => pyval_eqb (cellv b (fst p) (snd p)) e)
                 cells9 = Some (r, c)) by congruence.
  apply List.find_some in Hf. destruct Hf as [Hin Heq].
  cbn [fst snd] in Heq. apply pyval_eqb_eq in Heq. apply in_cells9 in Hin. auto.
Qed.

Lemma get_empty_total (b : board) (e : pyval) :
  wf9 b -> exists o, get_empty b e = Ok o.
Proof. intro Hb. rewrite get_empty_wf by assumption. eauto. Qed.

(** ** Counting empty cells *)

Lemma count_empty_cells (b : board) (e : pyval) :
  wf9 b ->
  count_empty e b =
  length (List.filter (fun p => pyval_eqb (cellv b (fst p) (snd p)) e) cells9).
Proof.
  intro Hb. unfold count_empty. rewrite <- (board_of_cellv b Hb) at 1.
  change (concat (board_of (cellv b)))
    with (map (fun p => cellv b (fst p) (snd p)) cells9).
  induction cells9 as [|p l IH]; simpl; [reflexivity|].
  destruct (pyval_eqb _ e); simpl; now rewrite IH.
Qed.

Lemma filter_flip_one {A} (same : A -> bool) (P Q : A -> bool) (l : list A) :
  (forall q, In q l -> same q = false -> P q = Q q) ->
  (forall q, In q l -> same q = true -> P q = true /\ Q q = false) ->
  length (List.filter P l) =
  (length (List.filter Q l) + length (List.filter same l))%nat.
Proof.
  induction l as [|q l IH]; intros Hd Hs; simpl; [reflexivity|].
  assert (IH' := IH (fun x Hx => Hd x (or_intror Hx))
                    (fun x Hx => Hs x (or_intror Hx))).
  destruct (same q) eqn:E.
  - destruct (Hs q (or_introl eq_refl) E) as [-> ->]. simpl. lia.
  - rewrite (Hd q (or_introl eq_refl) E). destruct (Q q); simpl; lia.
Qed.

Lemma cells9_once (r c : Z) :
  in_grid r c ->
  length (List.filter (fun q => (fst q =? r) && (snd q =? c)) cells9) = 1%nat.
Proof. revert r c. apply grid_forall. repeat constructor. Qed.

Lemma count_empty_flip (b : board) (e v : pyval) (r c : Z) :
  wf9 b -> in_grid r c -> pyval_eqb (cellv b r c) e = true ->
  pyval_eqb v e = false ->
  count_empty e b = S (count_empty e (upd b r c v)).
Proof.
  intros Hb H He Hv.
  rewrite !count_empty_cells by (assumption || apply wf9_upd).
  rewrite (filter_flip_one (fun q => (fst q =? r) && (snd q =? c)) _
             (fun p => pyval_eqb (cellv (upd b r c v) (fst p) (snd p)) e)).
  - rewrite cells9_once by assumption. lia.
  - intros [r' c'] Hq Hs. apply in_cells9 in Hq. cbn [fst snd] in *.
    rewrite cellv_upd by assumption. now rewrite Hs.
  - intros [r' c'] Hq Hs. apply in_cells9 in Hq. cbn [fst snd] in *.
    rewrite cellv_upd by assumption. rewrite Hs.
    apply andb_prop in Hs. destruct Hs as [E1 E2].
    apply Z.eqb_eq in E1, E2. subst. auto.
Qed.

(** Filling an empty cell removes one empty cell. *)
Lemma count_empty_fill (b : board) (e v : pyval) (r c : Z) :
  wf9 b -> in_grid r c -> cellv b r c = e -> v <> e ->
  count_empty e b = S (count_empty e (upd b r c v)).
Proof.
  intros Hb H He Hv. apply count_empty_flip; auto.
  - now apply pyval_eqb_eq.
  - now apply pyval_eqb_neq.
Qed.

Lemma count_empty_pos (b : board) (e : pyval) (r c : Z) :
  wf9 b -> in_grid r c -> cellv b r c = e -> (0 < count_empty e b)%nat.
Proof.
  intros Hb H He.
  destruct (pyval_eqb (PInt 0) e) eqn:E.
  - apply pyval_eqb_eq in E.
    rewrite (count_empty_fill b e (PInt 1) r c); auto; [lia|].
    rewrite <- E. discriminate.
  - apply pyval_eqb_neq in E.
    rewrite (count_empty_fill b e (PInt 0) r c); auto. lia.
Qed.

(** Clearing a non-empty cell adds one empty cell. *)
Lemma count_empty_clear (b : board) (e : pyval) (r c : Z) :
  wf9 b -> in_grid r c -> cellv b r c <> e ->
  count_empty e (upd b r c e) = S (count_empty e b).
Proof.
  intros Hb H He.
  rewrite (count_empty_flip (upd b r c e) e (cellv b r c) r c).
  - now rewrite upd_restore.
  - apply wf9_upd.
  - assumption.
  - rewrite cellv_upd_same by assumption. apply pyval_eqb_refl.
  - now apply pyval_eqb_neq.
Qed.

Lemma count_empty_complete (b : board) (e : pyval) :
  wf9 b -> complete e b -> count_empty e b = 0%nat.
Proof.
  intros Hb Hc. rewrite count_empty_cells by assumption.
  rewrite (List.filter_ext_in _ (fun _ => false)).
  - induction cells9; simpl; auto.
  - intros [r c] Hin. apply in_cells9 in Hin. cbn [fst snd].
    apply pyval_eqb_neq. now apply Hc.
Qed.

Lemma count_empty_zero (b : board) (e : pyval) :
  wf9 b -> count_empty e b = 0%nat -> complete e b.
Proof.
  intros Hb H0 r c Hrc Heq.
  rewrite count_empty_cells in H0 by assumption.
  assert (Hin : In (r, c)
            (List.filter (fun p => pyval_eqb (cellv b (fst p) (snd p)) e)
               cells9)).
  { apply List.filter_In. split; [now apply in_cells9|].
    cbn [fst snd]. now apply pyval_eqb_eq. }
  destruct (List.filter _ cells9); [destruct Hin|discriminate].
Qed.

(** ** The board monad *)

Lemma bind_reading {A B} (f : board -> result A) (k : A -> M B) (b : board) :
  bind (reading f) k b =
  match f b with
  | Ok a => k a b
  | Raise x => (Raise x, b)
  | OutOfFuel => (OutOfFuel, b)
  end.
Proof. unfold bind, reading. now destruct (f b). Qed.

Lemma write_cell_wf (b : board) (r c : Z) (v : pyval) :
  wf9 b -> in_grid r c -> write_cell r c v b = (Ok tt, upd b r c v).
Proof. intros Hb H. unfold write_cell. now rewrite set_cell_wf. Qed.

Lemma bind_write_cell {B} (k : unit -> M B) (b : board) (r c : Z) (v : pyval) :
  wf9 b -> in_grid r c ->
  bind (write_cell r c v) k b = k tt (upd b r c v).
Proof. intros Hb H. unfold bind. now rewrite write_cell_wf. Qed.

Lemma approx_refl {A} (m : M A) : approx m m.
Proof. now intros b r b' H _. Qed.

Lemma approx_bind {A B} (m1 m2 : M A) (k1 k2 : A -> M B) :
  approx m1 m2 -> (forall a, approx (k1 a) (k2 a)) ->
  approx (bind m1 k1) (bind m2 k2).
Proof.
  intros Hm Hk b r b' H Hr. unfold bind in *.
  destruct (m1 b) as [[a|x|] b1] eqn:E.
  - rewrite (Hm b (Ok a) b1 E) by discriminate. now apply Hk.
  - rewrite (Hm b (Raise x) b1 E) by discriminate. assumption.
  - inversion H; subst. contradiction.
Qed.

Lemma approx_if {A} (c : bool) (m1 m2 n1 n2 : M A) :
  approx m1 m2 -> approx n1 n2 ->
  approx (if c then m1 else n1) (if c then m2 else n2).
Proof. now destruct c. Qed.

(** ** [fill_board] *)

Lemma py_range_1_10 (v : Z) : In v (py_range 1 10) <-> 1 <= v <= 9.
Proof. change (py_range 1 10) with [1; 2; 3; 4; 5; 6; 7; 8; 9]. simpl. lia. Qed.

Lemma is_digit_spec (v : pyval) :
  is_digit v = true <-> exists d, 1 <= d <= 9 /\ v = PInt d.
Proof.
  destruct v as [d|s]; simpl; split.
  - intro H. exists d. split; [lia|reflexivity].
  - intros [d' [H E]]. inversion E; subst. lia.
  - discriminate.
  - intros [d' [_ E]]. discriminate.
Qed.

Lemma entry_free_not_empty (b : board) (e v : pyval) (r c : Z) :
  in_grid r c -> cellv b r c = e -> entry_free b r c v = true -> v <> e.
Proof.
  intros H He Hf Heq. rewrite entry_free_true in Hf by assumption.
  apply (Hf r c H (related_refl r c)). congruence.
Qed.

(** A completion of [b] that holds [v] at the empty cell [(r, c)] is a
    completion of [b] with [v] placed there. *)
Lemma filled_from_place (b s : board) (e : pyval) (r c : Z) :
  in_grid r c -> cellv b r c = e ->
  filled_from e b s -> filled_from e (upd b r c (cellv s r c)) s.
Proof.
  intros H He (Hs & Hc & Hx & Hp).
  split; [assumption|]. split; [assumption|]. split.
  - intros r' c' H' Hne. rewrite cellv_upd in * by assumption.
    destruct ((r' =? r) && (c' =? c)) eqn:E.
    + apply andb_prop in E. destruct E as [E1 E2].
      apply Z.eqb_eq in E1, E2. now subst.
    + now apply Hx.
  - intros r' c' H' He'. rewrite cellv_upd in He' by assumption.
    destruct ((r' =? r) && (c' =? c)) eqn:E.
    + now destruct (Hc r c H).
    + now apply Hp.
Qed.

(** A completion found after placing a free digit is a completion of the
    board before the placement. *)
Lemma filled_from_unplace (b g : board) (e v : pyval) (r c : Z) :
  wf9 b -> in_grid r c -> cellv b r c = e -> is_digit v = true ->
  entry_free b r c v = true ->
  filled_from e (upd b r c v) g -> filled_from e b g.
Proof.
  intros Hb H He Hd Hf (Hg & Hc & Hx & Hp).
  assert (Hv : v <> e) by (eapply entry_free_not_empty; eauto).
  assert (Hgp : cellv g r c = v).
  { rewrite (Hx r c H); rewrite cellv_upd_same; auto. }
  split; [assumption|]. split; [assumption|]. split.
  - intros r' c' H' Hne.
    assert (Hd' : (r', c') <> (r, c)) by congruence.
    rewrite (Hx r' c' H'); rewrite cellv_upd_other; auto.
  - intros r0 c0 H0 He0.
    destruct (pyval_eqb (cellv (upd b r c v) r0 c0) e) eqn:E0.
    + apply pyval_eqb_eq in E0. now apply (Hp r0 c0).
    + apply pyval_eqb_neq in E0.
      assert (E : (r0, c0) = (r, c)).
      { destruct (Z.eq_dec r0 r) as [->|Hr];
          [destruct (Z.eq_dec c0 c) as [->|Hc0]|]; auto;
          rewrite cellv_upd_other in E0 by (auto; congruence);
          contradiction. }
      inversion E; subst r0 c0. clear E. rewrite Hgp.
      split; [assumption|].
      intros r' c' H' Hne Hrel.
      destruct (pyval_eqb (cellv (upd b r c v) r' c') e) eqn:E1.
      * apply pyval_eqb_eq in E1.
        destruct (Hp r' c' H' E1) as [_ Hq].
        intro Heq. apply (Hq r c H); [congruence| |congruence].
        now rewrite related_sym.
      * apply pyval_eqb_neq in E1.
        rewrite (Hx r' c' H' E1). rewrite cellv_upd_other by assumption.
        rewrite entry_free_true in Hf by assumption. now apply Hf.
Qed.

(** No completion holds, at an empty cell, a value that is not free there. *)
Lemma filled_from_free (b s : board) (e : pyval) (r c : Z) :
  in_grid r c -> cellv b r c = e -> filled_from e b s ->
  entry_free b r c (cellv s r c) = true.
Proof.
  intros H He (Hs & Hc & Hx & Hp). apply entry_free_true; [assumption|].
  intros r' c' H' Hrel Heq.
  destruct (pyval_eqb (cellv b r' c') e) eqn:E.
  - apply pyval_eqb_eq in E. apply (Hc r c H). congruence.
  - apply pyval_eqb_neq in E.
    destruct (Hp r c H He) as [_ Hq].
    apply (Hq r' c' H'); [congruence|assumption|].
    rewrite (Hx r' c' H' E). assumption.
Qed.

Lemma fill_candidates_free (rec : M bool) (e : pyval) (b : board) (r c v : Z)
    (rest : list Z) :
  wf9 b -> in_grid r c -> entry_free b r c (PInt v) = true ->
  fill_candidates rec e r c (v :: rest) b =
  match rec (upd b r c (PInt v)) with
  | (Ok true, g) => (Ok true, g)
  | (Ok false, b') =>
      bind (write_cell r c e) (fun _ => fill_candidates rec e r c rest) b'
  | (Raise x, b') => (Raise x, b')
  | (OutOfFuel, b') => (OutOfFuel, b')
  end.
Proof.
  intros Hb H Hf. cbn [fill_candidates]. rewrite bind_reading.
  rewrite is_valid_entry_wf, Hf by assumption.
  rewrite bind_write_cell by assumption. unfold bind at 1.
  now destruct (rec (upd b r c (PInt v))) as [[[|]| |] b'].
Qed.

Lemma fill_candidates_taken (rec : M bool) (e : pyval) (b : board) (r c v : Z)
    (rest : list Z) :
  wf9 b -> in_grid r c -> entry_free b r c (PInt v) = false ->
  fill_candidates rec e r c (v :: rest) b = fill_candidates rec e r c rest b.
Proof.
  intros Hb H Hf. cbn [fill_candidates]. rewrite bind_reading.
  now rewrite is_valid_entry_wf, Hf by assumption.
Qed.

Section FillCandidates.
Variables (e : pyval) (rec : M bool) (b : board) (r c : Z).
Hypothesis Hb : wf9 b.
Hypothesis Hrc : in_grid r c.
Hypothesis He : cellv b r c = e.
Hypothesis Hrec : forall v, PInt v <> e ->
  fill_outcome e (upd b r c (PInt v)) (rec (upd b r c (PInt v))).

Lemma fill_candidates_spec (values : list Z) :
  (forall v, In v values -> 1 <= v <= 9) ->
  (fill_candidates rec e r c values b = (Ok false, b)
   /\ forall v, In v values ->
        ~ exists s, filled_from e b s /\ cellv s r c = PInt v)
  \/ (exists g, fill_candidates rec e r c values b = (Ok true, g)
                /\ filled_from e b g).
Proof.
  induction values as [|v rest IH]; intro Hdig.
  - left. split; [reflexivity|]. intros v [].
  - assert (IH' := IH (fun x Hx => Hdig x (or_intror Hx))). clear IH.
    destruct (entry_free b r c (PInt v)) eqn:Hfree.
    + assert (Hv : PInt v <> e) by (eapply entry_free_not_empty; eauto).
      assert (Hd : is_digit (PInt v) = true).
      { simpl. specialize (Hdig v (or_introl eq_refl)). lia. }
      rewrite fill_candidates_free by assumption.
      destruct (Hrec v Hv) as [[Hout Hno]|[g [Hout Hg]]]; rewrite Hout.
      * rewrite bind_write_cell by (apply wf9_upd || assumption).
        rewrite (upd_refill b e (PInt v) r c) by assumption.
        destruct IH' as [[IHf IHno]|IHt]; [left|now right].
        split; [assumption|].
        intros v' [<-|Hin]; [|now apply IHno].
        intros [s [Hs Hsv]]. apply Hno. exists s.
        rewrite <- Hsv. now apply filled_from_place.
      * right. exists g. split; [reflexivity|].
        eapply filled_from_unplace; eauto.
    + rewrite fill_candidates_taken by assumption.
      destruct IH' as [[IHf IHno]|IHt]; [left|now right].
      split; [assumption|].
      intros v' [<-|Hin]; [|now apply IHno].
      intros [s [Hs Hsv]].
      pose proof (filled_from_free b s e r c Hrc He Hs) as Hfs.
      congruence.
Qed.
End FillCandidates.

Lemma filled_from_refl (b : board) (e : pyval) :
  wf9 b -> complete e b -> filled_from e b b.
Proof.
  intros Hb Hc. split; [assumption|]. split; [assumption|]. split.
  - now intros r c H _.
  - intros r c H He. now destruct (Hc r c H).
Qed.

Lemma fill_board_rec_spec (e : pyval) (fuel : nat) (b : board) :
  wf9 b -> (count_empty e b < fuel)%nat ->
  fill_outcome e b (fill_board_rec fuel e b).
Proof.
  revert b. induction fuel as [|fuel IH]; intros b Hb Hlt; [lia|].
  cbn [fill_board_rec]. rewrite bind_reading.
  destruct (get_empty_total b e Hb) as [[[r c]|] Hget]; rewrite Hget.
  - destruct (get_empty_some b e r c Hb Hget) as [Hrc He].
    destruct (fill_candidates_spec e (fill_board_rec fuel e) b r c Hb Hrc He)
      with (values := py_range 1 10) as [[Hout Hno]|Ht].
    + intros v Hv. apply IH; [apply wf9_upd|].
      rewrite (count_empty_fill b e (PInt v) r c) in Hlt by assumption. lia.
    + intros v Hv. now apply py_range_1_10.
    + left. split; [assumption|].
      intros [s Hs]. pose proof Hs as (_ & _ & _ & Hp).
      destruct (Hp r c Hrc He) as [Hd _].
      apply is_digit_spec in Hd. destruct Hd as [d [Hd Hsd]].
      apply (Hno d); [now apply py_range_1_10|]. eauto.
    + now right.
  - right. exists b. split; [reflexivity|].
    apply filled_from_refl; [assumption|]. now apply get_empty_none.
Qed.

Lemma fill_board_spec (e : pyval) (b : board) :
  wf9 b -> fill_outcome e b (fill_board e b).
Proof. intro Hb. apply fill_board_rec_spec; [assumption|lia]. Qed.

(** More fuel does not change a run that had enough. *)
Lemma fill_candidates_approx (rec1 rec2 : M bool) (e : pyval) (r c : Z)
    (values : list Z) :
  approx rec1 rec2 ->
  approx (fill_candidates rec1 e r c values) (fill_candidates rec2 e r c values).
Proof.
  intro Hrec. induction values as [|v rest IH]; [apply approx_refl|].
  cbn [fill_candidates]. apply approx_bind; [apply approx_refl|].
  intros ok. apply approx_if; [|assumption].
  apply approx_bind; [apply approx_refl|]. intros _.
  apply approx_bind; [assumption|]. intros filled.
  apply approx_if; [apply approx_refl|].
  apply approx_bind; [apply approx_refl|]. now intros _.
Qed.

Lemma fill_board_rec_mono (e : pyval) (fuel fuel' : nat) :
  (fuel <= fuel')%nat -> approx (fill_board_rec fuel e) (fill_board_rec fuel' e).
Proof.
  revert fuel'. induction fuel as [|fuel IH]; intros fuel' Hle.
  - intros b r b' H Hr. inversion H; subst. contradiction.
  - destruct fuel' as [|fuel']; [lia|]. cbn [fill_board_rec].
    apply approx_bind; [apply approx_refl|].
    intros [[r c]|]; [|apply approx_refl].
    apply fill_candidates_approx. apply IH. lia.
Qed.

(** The fuel chosen by [fill_board] is enough, and any larger amount gives
    the same run. *)
Lemma fill_board_rec_enough (e : pyval) (fuel : nat) (b : board) :
  wf9 b -> (count_empty e b < fuel)%nat ->
  fill_board_rec fuel e b = fill_board e b.
Proof.
  intros Hb Hlt. unfold fill_board.
  destruct (fill_board_rec (S (count_empty e b)) e b) as [r b'] eqn:E.
  apply (fill_board_rec_mono e (S (count_empty e b)) fuel); [lia|assumption|].
  destruct (fill_board_rec_spec e (S (count_empty e b)) b Hb) as
    [[Hout _]|[g [Hout _]]]; [lia| |]; congruence.
Qed.

(** ** [count_solutions] *)

Lemma count_candidates_free (rec : M Z) (limit : Z) (e : pyval) (b : board)
    (r c num count : Z) (rest : list Z) :
  wf9 b -> in_grid r c -> entry_free b r c (PInt num) = true ->
  count_candidates rec limit e r c (num :: rest) count b =
  match rec (upd b r c (PInt num)) with
  | (Ok n, b') =>
      bind (write_cell r c e)
        (fun _ => if limit <=? count + n then ret (count + n)
                  else count_candidates rec limit e r c rest (count + n)) b'
  | (Raise x, b') => (Raise x, b')
  | (OutOfFuel, b') => (OutOfFuel, b')
  end.
Proof.
  intros Hb H Hf. cbn [count_candidates]. rewrite bind_reading.
  rewrite is_valid_entry_wf, Hf by assumption.
  rewrite bind_write_cell by assumption. unfold bind at 1.
  now destruct (rec (upd b r c (PInt num))) as [[n| |] b'].
Qed.

Lemma count_candidates_taken (rec : M Z) (limit : Z) (e : pyval) (b : board)
    (r c num count : Z) (rest : list Z) :
  wf9 b -> in_grid r c -> entry_free b r c (PInt num) = false ->
  count_candidates rec limit e r c (num :: rest) count b =
  count_candidates rec limit e r c rest count b.
Proof.
  intros Hb H Hf. cbn [count_candidates]. rewrite bind_reading.
  now rewrite is_valid_entry_wf, Hf by assumption.
Qed.

Section CountCandidates.
Variables (limit : Z) (e : pyval) (rec : M Z) (b : board) (r c : Z).
Variable bound : Z.
Hypothesis Hb : wf9 b.
Hypothesis Hrc : in_grid r c.
Hypothesis He : cellv b r c = e.
Hypothesis Hrec : forall v, PInt v <> e ->
  exists n, rec (upd b r c (PInt v)) = (Ok n, upd b r c (PInt v))
            /\ 0 <= n <= bound.

(** The loop returns with the board as it found it; the count it returns
    went past [limit - 1] by at most one recursive result. *)
Lemma count_candidates_spec (nums : list Z) (count : Z) :
  0 <= count <= Z.max 0 (limit - 1) -> 0 <= bound ->
  exists n, count_candidates rec limit e r c nums count b = (Ok n, b)
            /\ 0 <= n <= Z.max 0 (limit - 1) + bound.
Proof.
  revert count. induction nums as [|num rest IH]; intros count Hc Hbd.
  - exists count. split; [reflexivity|lia].
  - destruct (entry_free b r c (PInt num)) eqn:Hfree.
    + assert (Hv : PInt num <> e) by (eapply entry_free_not_empty; eauto).
      rewrite count_candidates_free by assumption.
      destruct (Hrec num Hv) as [n [Hout Hn]]. rewrite Hout.
      rewrite bind_write_cell by (apply wf9_upd || assumption).
      rewrite (upd_refill b e (PInt num) r c) by assumption.
      destruct (Z.leb_spec limit (count + n)).
      * exists (count + n). split; [reflexivity|lia].
      * apply IH; lia.
    + rewrite count_candidates_taken by assumption. now apply IH.
Qed.
End CountCandidates.

Lemma count_solutions_rec_spec (limit : Z) (e : pyval) (fuel : nat)
    (b : board) :
  wf9 b -> (count_empty e b < fuel)%nat ->
  exists n, count_solutions_rec fuel limit e b = (Ok n, b)
            /\ 0 <= n <= 1 + Z.of_nat (count_empty e b) * Z.max 0 (limit - 1).
Proof.
  revert b. induction fuel as [|fuel IH]; intros b Hb Hlt; [lia|].
  cbn [count_solutions_rec]. rewrite bind_reading.
  destruct (get_empty_total b e Hb) as [[[r c]|] Hget]; rewrite Hget.
  - destruct (get_empty_some b e r c Hb Hget) as [Hrc He].
    destruct (count_candidates_spec limit e (count_solutions_rec fuel limit e)
                b r c
                (1 + Z.of_nat (Nat.pred (count_empty e b)) * Z.max 0 (limit - 1))
                Hb Hrc He) with (nums := py_range 1 10) (count := 0)
      as [n [Hout Hn]].
    + intros v Hv.
      pose proof (count_empty_fill b e (PInt v) r c Hb Hrc He Hv) as Hk.
      destruct (IH (upd b r c (PInt v))) as [n [Hout Hn]];
        [apply wf9_upd|lia|].
      exists n. split; [assumption|]. rewrite Hk. simpl Nat.pred. lia.
    + lia.
    + nia.
    + exists n. split; [assumption|].
      pose proof (count_empty_pos b e r c Hb Hrc He) as Hk.
      nia.
  - exists 1. split; [reflexivity|]. nia.
Qed.

Lemma count_solutions_spec (limit : Z) (e : pyval) (b : board) :
  wf9 b ->
  exists n, count_solutions limit e b = (Ok n, b)
            /\ 0 <= n <= 1 + Z.of_nat (count_empty e b) * Z.max 0 (limit - 1).
Proof. intro Hb. apply count_solutions_rec_spec; [assumption|lia]. Qed.

Lemma count_candidates_approx (rec1 rec2 : M Z) (limit : Z) (e : pyval)
    (r c : Z) (nums : list Z) (count : Z) :
  approx rec1 rec2 ->
  approx (count_candidates rec1 limit e r c nums count)
         (count_candidates rec2 limit e r c nums count).
Proof.
  intro Hrec. revert count.
  induction nums as [|num rest IH]; intro count; [apply approx_refl|].
  cbn [count_candidates]. apply approx_bind; [apply approx_refl|].
  intros ok. apply approx_if; [|apply IH].
  apply approx_bind; [apply approx_refl|]. intros _.
  apply approx_bind; [assumption|]. intros n.
  apply approx_bind; [apply approx_refl|]. intros _.
  apply approx_if; [apply approx_refl|apply IH].
Qed.

Lemma count_solutions_rec_mono (limit : Z) (e : pyval) (fuel fuel' : nat) :
  (fuel <= fuel')%nat ->
  approx (count_solutions_rec fuel limit e) (count_solutions_rec fuel' limit e).
Proof.
  revert fuel'. induction fuel as [|fuel IH]; intros fuel' Hle.
  - intros b r b' H Hr. inversion H; subst. contradiction.
  - destruct fuel' as [|fuel']; [lia|]. cbn [count_solutions_rec].
    apply approx_bind; [apply approx_refl|].
    intros [[r c]|]; [|apply approx_refl].
    apply count_candidates_approx. apply IH. lia.
Qed.

(** The fuel chosen by [count_solutions] is enough, and any larger amount
    gives the same run. *)
Lemma count_solutions_rec_enough (limit : Z) (e : pyval) (fuel : nat)
    (b : board) :
  wf9 b -> (count_empty e b < fuel)%nat ->
  count_solutions_rec fuel limit e b = count_solutions limit e b.
Proof.
  intros Hb Hlt. unfold count_solutions.
  destruct (count_solutions_rec_spec limit e (S (count_empty e b)) b Hb)
    as [n [Hout _]]; [lia|].
  rewrite Hout.
  apply (count_solutions_rec_mono limit e (S (count_empty e b)) fuel);
    [lia|assumption|discriminate].
Qed.

(** ** [is_valid_board] *)

Lemma wf9_shape_check (b : board) :
  wf9 b ->
  negb (Nat.eqb (length b) 9)
  || existsb (fun row => negb (Nat.eqb (length row) 9)) b = false.
Proof.
  intros [Hl HF]. rewrite Hl. cbn [Nat.eqb negb orb]. clear Hl.
  induction HF as [|row l Hrow HF IH]; cbn [existsb]; [reflexivity|].
  rewrite Hrow, IH. reflexivity.
Qed.

Lemma shape_check_wf9 (b : board) :
  negb (Nat.eqb (length b) 9)
  || existsb (fun row => negb (Nat.eqb (length row) 9)) b = false ->
  wf9 b.
Proof.
  intro H. apply orb_false_elim in H. destruct H as [H1 H2].
  apply negb_false_iff, Nat.eqb_eq in H1. split; [assumption|].
  clear H1. induction b as [|row l IH]; constructor.
  - simpl in H2. apply orb_false_elim in H2. destruct H2 as [H2 _].
    now apply negb_false_iff, Nat.eqb_eq in H2.
  - apply IH. simpl in H2. apply orb_false_elim in H2. tauto.
Qed.

(** The check [is_valid_board] makes at one non-empty cell: the value does
    not occur at any other related cell. *)
Lemma entry_free_cleared (b : board) (e : pyval) (r c : Z) :
  wf9 b -> in_grid r c -> cellv b r c <> e ->
  entry_free (upd b r c e) r c (cellv b r c) = true <->
  forall r' c', in_grid r' c' -> (r', c') <> (r, c) ->
    related r c r' c' = true -> cellv b r c <> cellv b r' c'.
Proof.
  intros Hb H Hne. rewrite entry_free_true by assumption. split.
  - intros Hall r' c' H' Hd Hrel Heq.
    apply (Hall r' c' H' Hrel). rewrite cellv_upd_other by assumption.
    congruence.
  - intros Hall r' c' H' Hrel.
    rewrite cellv_upd by assumption.
    destruct ((r' =? r) && (c' =? c)) eqn:E; [congruence|].
    intro Heq. apply (Hall r' c' H'); [|assumption|congruence].
    intro Hp. inversion Hp; subst. now rewrite !Z.eqb_refl in E.
Qed.

Lemma is_valid_board_scan_legal (e : pyval) (b : board) (cells : list (Z * Z)) :
  wf9 b -> legal e b ->
  (forall p, In p cells -> in_grid (fst p) (snd p)) ->
  is_valid_board_scan e cells b = (Ok true, b).
Proof.
  intros Hb Hlegal. induction cells as [|[r c] rest IH]; intro Hin.
  - reflexivity.
  - assert (Hrc : in_grid r c) by (apply (Hin (r, c)); now left).
    assert (IH' := IH (fun p Hp => Hin p (or_intror Hp))). clear IH.
    cbn [is_valid_board_scan]. rewrite bind_reading.
    rewrite get_cell_wf by assumption.
    destruct (pyval_eqb (cellv b r c) e) eqn:E; [assumption|].
    apply pyval_eqb_neq in E.
    rewrite bind_write_cell by assumption. rewrite bind_reading.
    rewrite is_valid_entry_wf by (apply wf9_upd || assumption).
    assert (Hfree : entry_free (upd b r c e) r c (cellv b r c) = true).
    { apply entry_free_cleared; auto. }
    rewrite Hfree. cbn [negb].
    rewrite bind_write_cell by (apply wf9_upd || assumption).
    now rewrite upd_restore.
Qed.

(** A legal 9x9 grid passes [is_valid_board] and is left as it was. *)
Lemma is_valid_board_legal (e : pyval) (b : board) :
  wf9 b -> legal e b -> is_valid_board e b = (Ok true, b).
Proof.
  intros Hb Hlegal. unfold is_valid_board.
  rewrite wf9_shape_check by assumption.
  apply is_valid_board_scan_legal; auto.
  intros [r c] Hp. now apply in_cells9.
Qed.

(** ** A completion of every seeded grid *)

Lemma transp_inj (a b x y : Z) : transp a b x = transp a b y -> x = y.
Proof.
  unfold transp.
  destruct (Z.eqb_spec x a), (Z.eqb_spec x b), (Z.eqb_spec y a),
    (Z.eqb_spec y b); lia.
Qed.

Lemma transp_range (a b x : Z) :
  1 <= a <= 9 -> 1 <= b <= 9 -> 1 <= x <= 9 -> 1 <= transp a b x <= 9.
Proof.
  unfold transp. destruct (Z.eqb_spec x a), (Z.eqb_spec x b); lia.
Qed.

Lemma relabel_ok (seeds : list (Z * Z)) :
  (forall cv, In cv seeds -> 0 <= fst cv < 9 /\ 1 <= snd cv <= 9) ->
  (forall x y, relabel seeds x = relabel seeds y -> x = y)
  /\ (forall x, 1 <= x <= 9 -> 1 <= relabel seeds x <= 9).
Proof.
  unfold relabel.
  assert (Hgen : forall (sigma : Z -> Z),
    (forall cv, In cv seeds -> 0 <= fst cv < 9 /\ 1 <= snd cv <= 9) ->
    (forall x y, sigma x = sigma y -> x = y) ->
    (forall x, 1 <= x <= 9 -> 1 <= sigma x <= 9) ->
    let tau := fold_left (fun sigma cv =>
                 fun x => transp (sigma (fst cv + 1)) (snd cv) (sigma x))
                 seeds sigma in
    (forall x y, tau x = tau y -> x = y)
    /\ (forall x, 1 <= x <= 9 -> 1 <= tau x <= 9)).
  { induction seeds as [|[c v] rest IH]; intros sigma Hs Hinj Hran.
    - simpl. auto.
    - simpl. destruct (Hs (c, v) (or_introl eq_refl)) as [Hc Hv].
      simpl in Hc, Hv. apply IH.
      + intros cv Hin. apply Hs. now right.
      + intros x y Hxy. apply Hinj. eapply transp_inj; eauto.
      + intros x Hx. apply transp_range; auto. apply Hran. lia. }
  intro Hs. apply Hgen; auto.
Qed.

Lemma base_check_true : base_check = true.
Proof. vm_compute. reflexivity. Qed.

Lemma base_facts :
  (forall r c, in_grid r c -> 1 <= base r c <= 9)
  /\ (forall r c r' c', in_grid r c -> in_grid r' c' -> (r', c') <> (r, c) ->
        related r c r' c' = true -> base r' c' <> base r c)
  /\ (forall c, 0 <= c < 9 -> base 0 c = c + 1).
Proof.
  pose proof base_check_true as H.
  unfold base_check in H. apply andb_prop in H. destruct H as [H1 H2].
  rewrite forallb_forall in H1, H2.
  split; [|split].
  - intros r c Hrc. specialize (H1 (r, c) (proj1 (in_cells9 r c) Hrc)).
    cbn [fst snd] in H1. apply andb_prop in H1. destruct H1 as [H1 _]. lia.
  - intros r c r' c' Hrc Hrc' Hne Hrel Heq.
    specialize (H1 (r, c) (proj1 (in_cells9 r c) Hrc)).
    cbn [fst snd] in H1. apply andb_prop in H1. destruct H1 as [_ H1].
    rewrite forallb_forall in H1.
    specialize (H1 (r', c') (proj1 (in_cells9 r' c') Hrc')).
    cbn [fst snd] in H1. rewrite Hrel, Heq, Z.eqb_refl in H1.
    cbn [negb] in H1. rewrite !orb_false_r in H1.
    apply andb_prop in H1. destruct H1 as [E1 E2].
    apply Z.eqb_eq in E1, E2. congruence.
  - intros c Hc. specialize (H2 c (proj2 (py_range_0_9 c) Hc)).
    now apply Z.eqb_eq in H2.
Qed.

Lemma solved_solution_for (seeds : list (Z * Z)) :
  (forall cv, In cv seeds -> 0 <= fst cv < 9 /\ 1 <= snd cv <= 9) ->
  solved (solution_for seeds).
Proof.
  intro Hs. destruct (relabel_ok seeds Hs) as [Hinj Hran].
  destruct base_facts as (Hb1 & Hb2 & _).
  unfold solved, solution_for. split; [apply wf9_board_of|]. split.
  - intros r c Hrc. rewrite cellv_board_of by assumption. simpl.
    specialize (Hran (base r c) (Hb1 r c Hrc)). lia.
  - intros r c r' c' Hrc Hrc' Hne Hrel.
    rewrite !cellv_board_of by assumption.
    intro Heq. inversion Heq as [Heq']. apply Hinj in Heq'.
    now apply (Hb2 r c r' c').
Qed.

Lemma solved_filled_from (e : pyval) (b s : board) :
  is_digit e = false -> solved s -> extends e b s -> filled_from e b s.
Proof.
  intros He (Hs & Hd & Hu) Hx. split; [assumption|]. split; [|split].
  - intros r c Hrc Heq. specialize (Hd r c Hrc). congruence.
  - assumption.
  - intros r c Hrc _. split; [now apply Hd|].
    intros r' c' Hrc' Hne Hrel. now apply Hu.
Qed.

Lemma solved_legal (e : pyval) (s : board) : solved s -> legal e s.
Proof.
  intros (Hs & Hd & Hu) r c r' c' Hrc Hrc' Hne Hrel _ Heq.
  apply (Hu r c r' c'); auto; congruence.
Qed.

Lemma extends_legal (e : pyval) (b s : board) :
  extends e b s -> legal e s -> complete e s -> legal e b.
Proof.
  intros Hx Hl Hc r c r' c' Hrc Hrc' Hne Hrel Hv Heq.
  assert (Hv' : cellv b r' c' <> e) by congruence.
  apply (Hl r c r' c' Hrc Hrc' Hne Hrel); [now apply Hc|].
  rewrite (Hx r c), (Hx r' c'); auto.
Qed.

(** The cells the search fills keep the grid legal. *)
Lemma filled_from_legal (e : pyval) (b g : board) :
  legal e b -> filled_from e b g -> legal e g.
Proof.
  intros Hl (Hg & Hc & Hx & Hp) r c r' c' Hrc Hrc' Hne Hrel Hv.
  destruct (pyval_eqb (cellv b r c) e) eqn:E.
  - apply pyval_eqb_eq in E. destruct (Hp r c Hrc E) as [_ Hq].
    intro Heq. apply (Hq r' c'); auto; congruence.
  - apply pyval_eqb_neq in E.
    destruct (pyval_eqb (cellv b r' c') e) eqn:E'.
    + apply pyval_eqb_eq in E'. destruct (Hp r' c' Hrc' E') as [_ Hq].
      apply (Hq r c); auto. now rewrite related_sym.
    + apply pyval_eqb_neq in E'.
      rewrite (Hx r c), (Hx r' c'); auto.
Qed.

Lemma sample_ok_3 (lo hi : Z) (l : list Z) :
  sample_ok lo hi 3 l = true ->
  exists a b c, l = [a; b; c] /\ a <> b /\ a <> c /\ b <> c
                /\ lo <= a < hi /\ lo <= b < hi /\ lo <= c < hi.
Proof.
  unfold sample_ok. intro H.
  apply andb_prop in H. destruct H as [H H3].
  apply andb_prop in H. destruct H as [H1 H2].
  destruct l as [|a [|b [|c [|d l]]]]; try discriminate H1.
  exists a, b, c. simpl in H2, H3.
  rewrite !andb_true_r in *.
  apply andb_prop in H2. destruct H2 as [Hab Hbc].
  apply negb_true_iff, orb_false_elim in Hab. destruct Hab as [Hab Hac].
  rewrite orb_false_r in Hac.
  apply negb_true_iff in Hbc. rewrite orb_false_r in Hbc.
  apply andb_prop in H3. destruct H3 as [Ha H3].
  apply andb_prop in H3. destruct H3 as [Hb Hc].
  split; [reflexivity|]. repeat split; lia.
Qed.

(** The renaming sends [col + 1] to the seeded value, for every choice of
    three distinct columns and three distinct values. *)
Lemma all_seeds_checked :
  forallb (fun c1 => forallb (fun c2 => (c1 =? c2) || forallb (fun c3 =>
    (c1 =? c3) || (c2 =? c3) ||
  forallb (fun v1 => forallb (fun v2 => (v1 =? v2) || forallb (fun v3 =>
    (v1 =? v3) || (v2 =? v3) || seed_check c1 c2 c3 v1 v2 v3)
  (py_range 1 10)) (py_range 1 10)) (py_range 1 10))
  (py_range 0 9)) (py_range 0 9)) (py_range 0 9) = true.
Proof. vm_compute. reflexivity. Qed.

Lemma forallb_py_range (P : Z -> bool) (lo hi x : Z) :
  forallb P (py_range lo hi) = true -> lo <= x < hi -> P x = true.
Proof.
  intros H Hx. rewrite forallb_forall in H. apply H.
  unfold py_range. apply in_map_iff. exists (Z.to_nat (x - lo)).
  split; [lia|]. apply in_seq. lia.
Qed.

Lemma seed_check_true (c1 c2 c3 v1 v2 v3 : Z) :
  0 <= c1 < 9 -> 0 <= c2 < 9 -> 0 <= c3 < 9 ->
  1 <= v1 < 10 -> 1 <= v2 < 10 -> 1 <= v3 < 10 ->
  c1 <> c2 -> c1 <> c3 -> c2 <> c3 -> v1 <> v2 -> v1 <> v3 -> v2 <> v3 ->
  seed_check c1 c2 c3 v1 v2 v3 = true.
Proof.
  intros Hc1 Hc2 Hc3 Hv1 Hv2 Hv3 N1 N2 N3 N4 N5 N6.
  pose proof all_seeds_checked as H.
  apply (forallb_py_range _ 0 9 c1) in H; [|assumption].
  apply (forallb_py_range _ 0 9 c2) in H; [|assumption].
  apply orb_prop in H. destruct H as [H|H]; [lia|].
  apply (forallb_py_range _ 0 9 c3) in H; [|assumption].
  apply orb_prop in H. destruct H as [H|H]; [lia|].
  apply (forallb_py_range _ 1 10 v1) in H; [|assumption].
  apply (forallb_py_range _ 1 10 v2) in H; [|assumption].
  apply orb_prop in H. destruct H as [H|H]; [lia|].
  apply (forallb_py_range _ 1 10 v3) in H; [|assumption].
  apply orb_prop in H. destruct H as [H|H]; [lia|].
  exact H.
Qed.

Lemma seeds_agree (g : rng) :
  rng_ok g ->
  let seeds := combine (sample_cells g) (sample_values g) in
  (forall cv, In cv seeds -> 0 <= fst cv < 9 /\ 1 <= snd cv <= 9)
  /\ (forall cv, In cv seeds -> relabel seeds (fst cv + 1) = snd cv).
Proof.
  intros (Hc & Hv & _).
  apply sample_ok_3 in Hc. destruct Hc as (c1 & c2 & c3 & -> & Hc).
  apply sample_ok_3 in Hv. destruct Hv as (v1 & v2 & v3 & -> & Hv).
  cbn [combine]. cbv zeta. split.
  - intros cv [<-|[<-|[<-|[]]]]; simpl; lia.
  - pose proof (seed_check_true c1 c2 c3 v1 v2 v3) as H.
    unfold seed_check in H.
    specialize (H ltac:(lia) ltac:(lia) ltac:(lia) ltac:(lia) ltac:(lia)
                  ltac:(lia) ltac:(lia) ltac:(lia) ltac:(lia) ltac:(lia)
                  ltac:(lia) ltac:(lia)).
    apply andb_prop in H. destruct H as [H H3].
    apply andb_prop in H. destruct H as [H1 H2].
    apply Z.eqb_eq in H1, H2, H3.
    intros cv [<-|[<-|[<-|[]]]]; cbn [fst snd]; [exact H1|exact H2|exact H3].
Qed.

Lemma seed_board_spec (e : pyval) (s : board) (seeds : list (Z * Z))
    (b : board) :
  wf9 b ->
  (forall cv, In cv seeds ->
     0 <= fst cv < 9 /\ cellv s 0 (fst cv) = PInt (snd cv)) ->
  (forall r c, in_grid r c -> cellv b r c = e \/ cellv b r c = cellv s r c) ->
  exists b', seed_board seeds b = Ok b' /\ wf9 b'
    /\ forall r c, in_grid r c ->
         cellv b' r c = e \/ cellv b' r c = cellv s r c.
Proof.
  revert b. induction seeds as [|[col v] rest IH]; intros b Hb Hs Hcells.
  - exists b. auto.
  - destruct (Hs (col, v) (or_introl eq_refl)) as [Hcol Hv].
    cbn [fst snd] in Hcol, Hv.
    assert (H0 : in_grid 0 col) by (unfold in_grid; lia).
    cbn [seed_board]. rewrite set_cell_wf by assumption. cbn [rbind].
    apply IH.
    + apply wf9_upd.
    + intros cv Hin. apply Hs. now right.
    + intros r c Hrc. rewrite cellv_upd by assumption.
      destruct ((r =? 0) && (c =? col)) eqn:E; [|now apply Hcells].
      apply andb_prop in E. destruct E as [E1 E2].
      apply Z.eqb_eq in E1, E2. subst. now right.
Qed.

(** Step 2 of [generate] always succeeds: the seeded grid has a completion,
    so the solver finds one, and what it finds is complete and legal. *)
Lemma generate_filled (g : rng) (e : pyval) :
  rng_ok g -> is_digit e = false ->
  exists seeded filled,
    seed_board (combine (sample_cells g) (sample_values g))
      (repeat (repeat e 9%nat) 9%nat) = Ok seeded
    /\ fill_board e seeded = (Ok true, filled)
    /\ wf9 filled /\ complete e filled /\ legal e filled.
Proof.
  intros Hg He.
  destruct (seeds_agree g Hg) as [Hran Hsig].
  set (seeds := combine (sample_cells g) (sample_values g)) in *.
  pose proof (solved_solution_for seeds Hran) as Hsol.
  destruct base_facts as (_ & _ & Hrow0).
  destruct (seed_board_spec e (solution_for seeds) seeds
              (repeat (repeat e 9%nat) 9%nat)) as (seeded & Hseed & Hwf & Hcells).
  - change (repeat (repeat e 9%nat) 9%nat) with (board_of (fun _ _ => e)).
    apply wf9_board_of.
  - intros cv Hin. destruct (Hran cv Hin) as [Hc _]. split; [assumption|].
    unfold solution_for. rewrite cellv_board_of by (unfold in_grid; lia).
    rewrite Hrow0 by assumption. now rewrite Hsig.
  - intros r c Hrc. left.
    change (repeat (repeat e 9%nat) 9%nat) with (board_of (fun _ _ => e)).
    now rewrite cellv_board_of.
  - assert (Hx : extends e seeded (solution_for seeds)).
    { intros r c Hrc Hne. destruct (Hcells r c Hrc); congruence. }
    pose proof (solved_filled_from e seeded _ He Hsol Hx) as Hff.
    destruct (fill_board_spec e seeded Hwf) as [[_ Hno]|[filled [Hout Hf]]].
    + exfalso. apply Hno. eauto.
    + exists seeded, filled. split; [assumption|]. split; [assumption|].
      pose proof Hf as (Hwf' & Hc & _ & _).
      split; [assumption|]. split; [assumption|].
      apply (filled_from_legal e seeded); [|assumption].
      apply (extends_legal e seeded (solution_for seeds)); auto.
      * now apply solved_legal.
      * now destruct Hff as (_ & Hcs & _).
Qed.

(** ** The carving loops *)

Lemma count_solutions_complete (limit : Z) (e : pyval) (b : board) :
  wf9 b -> complete e b -> count_solutions limit e b = (Ok 1, b).
Proof.
  intros Hb Hc. unfold count_solutions. cbn [count_solutions_rec].
  rewrite bind_reading. now rewrite complete_get_empty.
Qed.

Lemma extends_clear (e : pyval) (b sol : board) (r c : Z) :
  extends e b sol -> extends e (upd b r c e) sol.
Proof.
  intros Hx r' c' Hrc Hne. rewrite cellv_upd in * by assumption.
  destruct ((r' =? r) && (c' =? c)); [congruence|now apply Hx].
Qed.

Section UniqueLoop.
Variables (e : pyval) (rand : nat -> Z) (sol : board).
Hypothesis Hrand : forall i, 0 <= rand i <= 8.

Lemma unique_body_spec (st : carving) :
  carving_inv e sol st ->
  exists st', unique_body e rand st = Ok st'
    /\ carving_inv e sol st'
    /\ cv_attempts st' = cv_attempts st + 1
    /\ (cv_empties st' = cv_empties st
        \/ cv_empties st' = cv_empties st + 1).
Proof.
  intros (Hb & Hx & Hemp & Hatt & Hone).
  assert (Hrc : in_grid (rand (cv_draws st)) (rand (S (cv_draws st)))).
  { pose proof (Hrand (cv_draws st)). pose proof (Hrand (S (cv_draws st))).
    unfold in_grid. lia. }
  set (row := rand (cv_draws st)) in *.
  set (col := rand (S (cv_draws st))) in *.
  unfold unique_body. fold row col. cbv zeta.
  rewrite get_cell_wf by assumption. cbn [rbind].
  destruct (pyval_eqb (cellv (cv_board st) row col) e) eqn:E.
  - eexists. split; [reflexivity|].
    unfold carving_inv. cbn [cv_board cv_empties cv_attempts cv_draws].
    split; [|split; [reflexivity|now left]].
    split; [assumption|]. split; [assumption|]. split; [assumption|].
    split; [lia|assumption].
  - apply pyval_eqb_neq in E.
    rewrite set_cell_wf by assumption. cbn [rbind].
    destruct (count_solutions_spec 2 e (upd (cv_board st) row col e))
      as [n [Hn _]]; [apply wf9_upd|].
    rewrite Hn. cbn [fst rbind].
    destruct (Z.eqb_spec n 1) as [->|Hn1].
    + eexists. split; [reflexivity|].
      unfold carving_inv. cbn [cv_board cv_empties cv_attempts cv_draws].
      split; [|split; [reflexivity|now right]].
      split; [apply wf9_upd|]. split; [now apply extends_clear|].
      split; [|split; [lia|assumption]].
      rewrite count_empty_clear by assumption. lia.
    + rewrite set_cell_wf by (apply wf9_upd || assumption). cbn [rbind].
      rewrite upd_restore by assumption.
      eexists. split; [reflexivity|].
      unfold carving_inv. cbn [cv_board cv_empties cv_attempts cv_draws].
      split; [|split; [reflexivity|now left]].
      split; [assumption|]. split; [assumption|]. split; [assumption|].
      split; [lia|assumption].
Qed.

Lemma unique_iter_inv (n : nat) (st st' : carving) :
  carving_inv e sol st -> unique_iter n e rand st = Ok st' ->
  carving_inv e sol st'.
Proof.
  revert st. induction n as [|n IH]; intros st Hinv Hit.
  - simpl in Hit. congruence.
  - cbn [unique_iter] in Hit.
    destruct (unique_body_spec st Hinv) as (st1 & Hb & Hinv1 & _).
    rewrite Hb in Hit. cbn [rbind] in Hit. eauto.
Qed.

(** The loop leaves after [n] iterations, at the first state where its
    guard fails; [attempts] counts the iterations. *)
Lemma unique_loop_spec (total : Z) (fuel : nat) (st : carving) :
  carving_inv e sol st ->
  max_attempts <= cv_attempts st + Z.of_nat fuel ->
  exists n st',
    unique_loop fuel e rand total st = Ok st'
    /\ unique_iter n e rand st = Ok st'
    /\ carving_inv e sol st'
    /\ unique_guard total st' = false
    /\ cv_attempts st' = cv_attempts st + Z.of_nat n
    /\ (forall k, (k < n)%nat ->
          exists sk, unique_iter k e rand st = Ok sk
                     /\ unique_guard total sk = true)
    /\ (cv_empties st <= Z.max 0 total -> cv_empties st' <= Z.max 0 total)
    /\ (cv_attempts st <= max_attempts -> cv_attempts st' <= max_attempts).
Proof.
  revert st. induction fuel as [|fuel IH]; intros st Hinv Hfuel.
  - exists O, st. cbn [unique_loop unique_iter].
    assert (Hg : unique_guard total st = false).
    { unfold unique_guard. apply andb_false_iff. right. lia. }
    rewrite Hg. split; [reflexivity|]. split; [reflexivity|].
    split; [assumption|]. split; [reflexivity|]. split; [lia|].
    split; [intros k Hk; lia|]. split; intro; assumption.
  - cbn [unique_loop].
    destruct (unique_guard total st) eqn:Hg.
    + destruct (unique_body_spec st Hinv) as (st1 & Hb & Hinv1 & Ha1 & He1).
      rewrite Hb. cbn [rbind].
      destruct (IH st1 Hinv1) as (n & st' & Hl & Hi & Hinv' & Hg' & Ha'
                                  & Hk & Hem & Hat); [lia|].
      exists (S n), st'. cbn [unique_iter]. rewrite Hb. cbn [rbind].
      split; [assumption|]. split; [assumption|]. split; [assumption|].
      split; [assumption|]. split; [lia|].
      unfold unique_guard in Hg. apply andb_prop in Hg.
      split; [|split; intros; [apply Hem|apply Hat]; lia].
      intros [|k] Hlt.
      * exists st. split; [reflexivity|].
        unfold unique_guard. now apply andb_true_iff.
      * cbn [unique_iter]. rewrite Hb. cbn [rbind]. apply Hk. lia.
    + exists O, st. cbn [unique_iter].
      split; [reflexivity|]. split; [reflexivity|].
      split; [assumption|]. split; [assumption|]. split; [lia|].
      split; [intros k Hk; lia|]. split; intro; assumption.
Qed.
End UniqueLoop.

Lemma carve_loop_spec (e : pyval) (rand : nat -> Z) (fuel : nat)
    (draws : nat) (total : Z) (b p : board) :
  (forall i, 0 <= rand i <= 8) -> wf9 b ->
  carve_loop fuel e rand draws total b = Ok p ->
  wf9 p /\ extends e p b
  /\ Z.of_nat (count_empty e p) = Z.of_nat (count_empty e b) + Z.max 0 total.
Proof.
  intro Hrand. revert draws total b.
  induction fuel as [|fuel IH]; intros draws total b Hb Hrun.
  - cbn [carve_loop] in Hrun.
    destruct (Z.ltb_spec 0 total); [discriminate|].
    inversion Hrun; subst. split; [assumption|]. split; [|lia].
    now intros r c _ _.
  - cbn [carve_loop] in Hrun.
    destruct (Z.ltb_spec 0 total).
    + assert (Hrc : in_grid (rand draws) (rand (S draws))).
      { pose proof (Hrand draws). pose proof (Hrand (S draws)).
        unfold in_grid. lia. }
      cbv zeta in Hrun. rewrite get_cell_wf in Hrun by assumption.
      cbn [rbind] in Hrun.
      destruct (pyval_eqb (cellv b (rand draws) (rand (S draws))) e) eqn:E.
      * now apply IH in Hrun.
      * apply pyval_eqb_neq in E.
        rewrite set_cell_wf in Hrun by assumption. cbn [rbind] in Hrun.
        apply IH in Hrun; [|apply wf9_upd].
        destruct Hrun as (Hp & Hx & Hcount).
        split; [assumption|]. split.
        -- intros r c Hg Hne. pose proof (Hx r c Hg Hne) as E1.
           rewrite cellv_upd in E1 by assumption.
           destruct ((r =? rand draws) && (c =? rand (S draws)));
             [congruence|assumption].
        -- rewrite count_empty_clear in Hcount by assumption. lia.
    + inversion Hrun; subst. split; [assumption|]. split; [|lia].
      now intros r c _ _.
Qed.

(** * The solution counter *)

Lemma wf9_int_board_9 (b : board) :
  (Nat.eqb (length b) 9 && forallb (fun row => Nat.eqb (length row) 9) b) = true ->
  wf9 b.
Proof.
  intro H. apply andb_prop in H. destruct H as [H1 H2].
  apply Nat.eqb_eq in H1. split; [assumption|].
  apply List.Forall_forall. intros row Hin.
  rewrite forallb_forall in H2. apply Nat.eqb_eq. now apply H2.
Qed.

(** C6.  For every 9x9 grid, limit and sentinel, [count_solutions] returns
    a count and leaves the grid exactly as it was passed in. *)
Theorem count_solutions_restores_grid (limit : Z) (e : pyval) (b : board) :
  wf9 b ->
  exists n, count_solutions limit e b = (Ok n, b).
Proof.
  intro Hb. destruct (count_solutions_spec limit e b Hb) as [n [Hn _]]. eauto.
Qed.

Lemma count_solutions_restores_grid_witness :
  exists n, count_solutions 2 (PInt 0) three_way_board = (Ok n, three_way_board).
Proof.
  apply (count_solutions_restores_grid 2 (PInt 0) three_way_board).
  apply wf9_int_board_9. vm_compute. reflexivity.
Defined.

(** C10.  On a 9x9 grid with no cell equal to the sentinel,
    [count_solutions] returns 1 without looking at the cells: neither the
    limit nor the legality of the grid matters. *)
Theorem count_solutions_full_grid (limit : Z) (e : pyval) (b : board) :
  wf9 b -> count_empty e b = 0%nat ->
  count_solutions limit e b = (Ok 1, b).
Proof.
  intros Hb H0. apply count_solutions_complete; [assumption|].
  now apply count_empty_zero.
Qed.

Lemma count_solutions_full_grid_witness :
  fst (is_valid_board (PInt 0) duplicate_row_board) = Ok false
  /\ count_solutions 2 (PInt 0) duplicate_row_board
     = (Ok 1, duplicate_row_board).
Proof.
  split; [vm_compute; reflexivity|].
  apply (count_solutions_full_grid 2 (PInt 0) duplicate_row_board).
  - apply wf9_int_board_9. vm_compute. reflexivity.
  - vm_compute. reflexivity.
Defined.

(** C1, as stated, fails: on [three_way_board] the first candidate of the
    first empty cell contributes 1 and the second contributes 2, so the
    call with [limit = 2] returns 3. *)
Lemma count_solutions_exceeds_limit :
  wf9 three_way_board
  /\ exists n, count_solutions 2 (PInt 0) three_way_board
               = (Ok n, three_way_board) /\ 2 < n.
Proof.
  split.
  - apply wf9_int_board_9. vm_compute. reflexivity.
  - exists 3. split; [vm_compute; reflexivity|lia].
Qed.

(** C1, amended.  For every 9x9 grid and [limit = 2], [count_solutions]
    returns an integer between 0 and 1 plus the number of empty cells: the
    cap is tested only after a whole recursive count has been added. *)
Theorem count_solutions_limit2_bound (e : pyval) (b : board) :
  wf9 b ->
  exists n, count_solutions 2 e b = (Ok n, b)
            /\ 0 <= n <= 1 + Z.of_nat (count_empty e b).
Proof.
  intro Hb. destruct (count_solutions_spec 2 e b Hb) as [n [Hn Hbound]].
  exists n. split; [assumption|]. simpl Z.max in Hbound. lia.
Qed.

Lemma count_solutions_limit2_bound_witness :
  exists n, count_solutions 2 (PInt 0) three_way_board
            = (Ok n, three_way_board)
            /\ 0 <= n <= 1 + Z.of_nat (count_empty (PInt 0) three_way_board).
Proof.
  apply (count_solutions_limit2_bound (PInt 0) three_way_board).
  apply wf9_int_board_9. vm_compute. reflexivity.
Defined.

(** * The validator *)

(** [is_valid_board] either answers true and leaves the grid as it was, or
    answers false at the first non-empty cell whose value occurs again in
    its row, column or box, and returns with that cell still cleared: the
    [return False] comes before the cell is reset. *)
Lemma is_valid_board_scan_outcome (e : pyval) (b : board)
    (cells : list (Z * Z)) :
  wf9 b -> (forall p, In p cells -> in_grid (fst p) (snd p)) ->
  is_valid_board_scan e cells b = (Ok true, b)
  \/ exists r c, In (r, c) cells /\ cellv b r c <> e
       /\ is_valid_board_scan e cells b = (Ok false, upd b r c e).
Proof.
  intros Hb. induction cells as [|[r c] rest IH]; intro Hin.
  - now left.
  - assert (Hrc : in_grid r c) by (apply (Hin (r, c)); now left).
    assert (IH' := IH (fun p Hp => Hin p (or_intror Hp))). clear IH.
    assert (Hrest : is_valid_board_scan e rest b = (Ok true, b)
              \/ exists r' c', In (r', c') ((r, c) :: rest)
                   /\ cellv b r' c' <> e
                   /\ is_valid_board_scan e rest b = (Ok false, upd b r' c' e)).
    { destruct IH' as [IH'|(r' & c' & H1 & H2 & H3)]; [now left|right].
      exists r', c'. split; [now right|auto]. }
    cbn [is_valid_board_scan]. rewrite bind_reading.
    rewrite get_cell_wf by assumption.
    destruct (pyval_eqb (cellv b r c) e) eqn:E; [assumption|].
    apply pyval_eqb_neq in E.
    rewrite bind_write_cell by assumption. rewrite bind_reading.
    rewrite is_valid_entry_wf by (apply wf9_upd || assumption).
    destruct (entry_free (upd b r c e) r c (cellv b r c)); cbn [negb].
    + rewrite bind_write_cell by (apply wf9_upd || assumption).
      now rewrite upd_restore.
    + right. exists r, c. split; [now left|]. split; [assumption|reflexivity].
Qed.

Lemma is_valid_board_outcome (e : pyval) (b : board) :
  wf9 b ->
  is_valid_board e b = (Ok true, b)
  \/ exists r c, in_grid r c /\ cellv b r c <> e
       /\ is_valid_board e b = (Ok false, upd b r c e).
Proof.
  intro Hb. unfold is_valid_board. rewrite wf9_shape_check by assumption.
  destruct (is_valid_board_scan_outcome e b cells9 Hb) as
    [H|(r & c & Hin & Hne & H)].
  - intros [r c] Hp. now apply in_cells9.
  - now left.
  - right. exists r, c. split; [now apply in_cells9|auto].
Qed.

(** Every false answer on a 9x9 grid leaves the grid changed. *)
Lemma is_valid_board_false_changes (e : pyval) (b b' : board) :
  wf9 b -> is_valid_board e b = (Ok false, b') -> b' <> b.
Proof.
  intros Hb H Heq. subst b'.
  destruct (is_valid_board_outcome e b Hb) as [H'|(r & c & Hrc & Hne & H')];
    [congruence|].
  rewrite H in H'. inversion H' as [Hupd].
  apply Hne. rewrite Hupd at 1. now apply cellv_upd_same.
Qed.

(** A grid that is not 9x9 is refused before any cell is touched. *)
Lemma is_valid_board_shape_error (e : pyval) (b : board) :
  ~ wf9 b -> is_valid_board e b = (Raise ValueError, b).
Proof.
  intro Hn. unfold is_valid_board.
  destruct (negb (Nat.eqb (length b) 9)
            || existsb (fun row => negb (Nat.eqb (length row) 9)) b) eqn:E;
    [reflexivity|].
  destruct Hn. now apply shape_check_wf9.
Qed.

(** C4 fails on the code.  On the grid of [test_invalid_row] (two 5s in
    row 0) [is_valid_board] answers false and returns with cell (0, 0)
    holding the empty indicator instead of its 5: the cell it cleared for
    the test is not reset on the [return False] path. *)
Theorem is_valid_board_leaves_cell_cleared :
  cellv duplicate_row_board 0 0 = PInt 5
  /\ is_valid_board (PInt 0) duplicate_row_board
     = (Ok false, upd duplicate_row_board 0 0 (PInt 0))
  /\ cellv (snd (is_valid_board (PInt 0) duplicate_row_board)) 0 0 = PInt 0
  /\ snd (is_valid_board (PInt 0) duplicate_row_board) <> duplicate_row_board.
Proof.
  split; [reflexivity|]. split; [vm_compute; reflexivity|].
  split; [vm_compute; reflexivity|]. vm_compute. discriminate.
Qed.

Lemma py_index_out {A} (l : list A) (i : Z) :
  ~ (- Z.of_nat (length l) <= i < Z.of_nat (length l)) ->
  py_index l i = Raise IndexError.
Proof.
  intro H. unfold py_index.
  destruct (Z.ltb_spec i 0);
    destruct (Z.leb_spec 0 (i + Z.of_nat (length l)));
    destruct (Z.leb_spec 0 i);
    destruct (Z.ltb_spec (i + Z.of_nat (length l)) (Z.of_nat (length l)));
    destruct (Z.ltb_spec i (Z.of_nat (length l)));
    cbn [andb]; try reflexivity; lia.
Qed.

Lemma py_index_in {A} (l : list A) (i : Z) :
  - Z.of_nat (length l) <= i < Z.of_nat (length l) ->
  exists x, py_index l i = Ok x.
Proof.
  intro H. unfold py_index.
  set (j := if i <? 0 then i + Z.of_nat (length l) else i).
  assert (Hj : 0 <= j < Z.of_nat (length l)).
  { subst j. destruct (Z.ltb_spec i 0); lia. }
  destruct (Z.leb_spec 0 j); [|lia].
  destruct (Z.ltb_spec j (Z.of_nat (length l))); [|lia]. cbn [andb].
  destruct (l !! Z.to_nat j) as [x|] eqn:E; [eauto|].
  apply lookup_ge_None in E. lia.
Qed.

Lemma column_ok (b : board) (col : Z) :
  Forall (fun row => length row = 9%nat) b -> -9 <= col < 9 ->
  exists column, result_map (fun row => py_index row col) b = Ok column.
Proof.
  intros HF Hc. induction HF as [|row rest Hrow HF IH].
  - exists []. reflexivity.
  - destruct IH as [column IH].
    destruct (py_index_in row col) as [x Hx]; [rewrite Hrow; lia|].
    exists (x :: column). cbn [result_map]. rewrite Hx. cbn [rbind].
    rewrite IH. reflexivity.
Qed.

Lemma range18_cases (i : Z) :
  -9 <= i < 9 -> 0 <= i < 9 \/ 0 <= i + 9 < 9.
Proof. lia. Qed.

Lemma entry_values_wrapped (f : Z -> Z -> pyval) (row col : Z) :
  -9 <= row < 9 -> -9 <= col < 9 ->
  exists l, entry_values (board_of f) row col = Ok l.
Proof.
  intros Hr Hc.
  apply range18_cases in Hr. apply range18_cases in Hc.
  destruct Hr as [Hr|Hr], Hc as [Hc|Hc];
    apply range9_cases in Hr; apply range9_cases in Hc;
    repeat (destruct Hr as [Hr|Hr]); repeat (destruct Hc as [Hc|Hc]);
    try (replace row with (row + 9 - 9) by lia; rewrite Hr);
    try (replace col with (col + 9 - 9) by lia; rewrite Hc);
    subst; eexists; vm_compute; reflexivity.
Qed.

(** C7, as stated, fails: negative indices down to -9 are ordinary Python
    indices.  The call with [row = col = -1] on a grid of zeros raises
    nothing and answers true. *)
Lemma is_valid_entry_accepts_negative_index :
  wf9 empty_board
  /\ ~ (0 <= -1 <= 8)
  /\ is_valid_entry empty_board (-1) (-1) (PInt 3) = Ok true.
Proof.
  split; [apply wf9_int_board_9; vm_compute; reflexivity|].
  split; [lia|vm_compute; reflexivity].
Qed.

(** C7, amended.  On a 9x9 grid [is_valid_entry] raises [IndexError]
    exactly when [row] or [col] is outside -9..8; it never raises
    [ValueError], whatever the value; with both indices in -9..8 it returns
    a boolean, and with both in 0..8 that boolean is the membership test of
    the value in the column, the row and the box. *)
Theorem is_valid_entry_index_errors (b : board) (row col : Z) (value : pyval) :
  wf9 b ->
  (~ (-9 <= row < 9 /\ -9 <= col < 9) ->
     is_valid_entry b row col value = Raise IndexError)
  /\ (-9 <= row < 9 -> -9 <= col < 9 ->
        exists ok, is_valid_entry b row col value = Ok ok)
  /\ is_valid_entry b row col value <> Raise ValueError
  /\ (in_grid row col ->
        is_valid_entry b row col value = Ok (entry_free b row col value)).
Proof.
  intro Hb.
  assert (Hin : -9 <= row < 9 -> -9 <= col < 9 ->
                exists ok, is_valid_entry b row col value = Ok ok).
  { intros Hr Hc. rewrite is_valid_entry_values.
    rewrite <- (board_of_cellv b Hb).
    destruct (entry_values_wrapped (cellv b) row col Hr Hc) as [l Hl].
    rewrite Hl. cbn [rbind]. eauto. }
  assert (Hout : ~ (-9 <= row < 9 /\ -9 <= col < 9) ->
                 is_valid_entry b row col value = Raise IndexError).
  { intro Hn. destruct Hb as [Hl HF]. unfold is_valid_entry.
    destruct (Z_le_dec (-9) col) as [Hc1|Hc1];
      [destruct (Z_lt_dec col 9) as [Hc2|Hc2]|].
    - destruct (column_ok b col HF) as [column Hcol]; [lia|].
      rewrite Hcol. cbn [rbind].
      rewrite py_index_out by (rewrite Hl; lia). reflexivity.
    - destruct HF as [|r0 rest Hr0 HF]; [discriminate Hl|].
      cbn [result_map]. rewrite py_index_out by (rewrite Hr0; lia).
      reflexivity.
    - destruct HF as [|r0 rest Hr0 HF]; [discriminate Hl|].
      cbn [result_map]. rewrite py_index_out by (rewrite Hr0; lia).
      reflexivity. }
  split; [assumption|]. split; [assumption|]. split.
  - destruct (Z_le_dec (-9) row) as [H1|H1];
      [destruct (Z_lt_dec row 9) as [H2|H2];
       [destruct (Z_le_dec (-9) col) as [H3|H3];
        [destruct (Z_lt_dec col 9) as [H4|H4]|]|]|].
    + destruct Hin as [ok Hok]; [lia|lia|]. rewrite Hok. discriminate.
    + rewrite Hout by lia. discriminate.
    + rewrite Hout by lia. discriminate.
    + rewrite Hout by lia. discriminate.
    + rewrite Hout by lia. discriminate.
  - intro Hrc. now apply is_valid_entry_wf.
Qed.

Lemma is_valid_entry_index_errors_witness :
  is_valid_entry complete_board 9 0 (PInt 1) = Raise IndexError
  /\ is_valid_entry complete_board 0 2 (PInt 10) = Ok true.
Proof.
  assert (Hb : wf9 complete_board)
    by (apply wf9_int_board_9; vm_compute; reflexivity).
  split.
  - apply (is_valid_entry_index_errors complete_board 9 0 (PInt 1) Hb). lia.
  - vm_compute. reflexivity.
Defined.

(** * The generator *)

Lemma extends_refl (e : pyval) (b : board) : extends e b b.
Proof. now intros r c _ _. Qed.

Lemma carving_inv_init (e : pyval) (b : board) (draws : nat) :
  wf9 b -> complete e b ->
  carving_inv e b {| cv_board := b; cv_empties := 0; cv_attempts := 0;
                     cv_draws := draws |}.
Proof.
  intros Hb Hc. unfold carving_inv. cbn [cv_board cv_empties cv_attempts].
  split; [assumption|]. split; [apply extends_refl|].
  split; [now rewrite count_empty_complete|].
  split; [lia|]. now apply count_solutions_complete.
Qed.

Lemma create_unique_board_spec (e : pyval) (rand : nat -> Z) (draws : nat)
    (total : Z) (b : board) :
  (forall i, 0 <= rand i <= 8) -> wf9 b -> complete e b ->
  let init := {| cv_board := b; cv_empties := 0; cv_attempts := 0;
                 cv_draws := draws |} in
  exists n st,
    create_unique_board e rand draws total b = Ok st
    /\ unique_iter n e rand init = Ok st
    /\ carving_inv e b st
    /\ unique_guard total st = false
    /\ cv_attempts st = Z.of_nat n
    /\ (forall k, (k < n)%nat ->
          exists sk, unique_iter k e rand init = Ok sk
                     /\ unique_guard total sk = true)
    /\ cv_empties st <= Z.max 0 total
    /\ cv_attempts st <= max_attempts.
Proof.
  intros Hrand Hb Hc init.
  destruct (unique_loop_spec e rand b Hrand total (Z.to_nat max_attempts) init)
    as (n & st & Hl & Hi & Hinv & Hg & Ha & Hk & Hem & Hat).
  - now apply carving_inv_init.
  - cbn [cv_attempts init]. lia.
  - exists n, st. unfold create_unique_board. fold init.
    cbn [cv_attempts cv_empties init] in *.
    split; [assumption|]. split; [assumption|]. split; [assumption|].
    split; [assumption|]. split; [lia|]. split; [assumption|].
    split; [apply Hem; lia|apply Hat; unfold max_attempts; lia].
Qed.

(** The first two steps of [generate] do not depend on the carving policy:
    they yield one solved grid, from which either loop starts. *)
Lemma generate_steps (g : rng) (e : pyval) :
  rng_ok g -> is_digit e = false ->
  exists filled,
    wf9 filled /\ complete e filled /\ legal e filled
    /\ forall fuel total unique, 0 < total <= 81 ->
         generate fuel g total unique e =
         if unique then
           let* st := create_unique_board e (randint g) 0 total filled in
           Ok (cv_board st, filled)
         else
           let* puzzle := carve_loop fuel e (randint g) 0 total filled in
           Ok (puzzle, filled).
Proof.
  intros Hg He.
  destruct (generate_filled g e Hg He) as
    (seeded & filled & Hseed & Hfill & Hwf & Hc & Hl).
  exists filled. split; [assumption|]. split; [assumption|].
  split; [assumption|].
  intros fuel total unique Ht. unfold generate.
  destruct (Z.ltb_spec 0 total); [|lia].
  destruct (Z.leb_spec total 81); [|lia]. cbn [andb negb].
  rewrite Hseed. cbn [rbind]. rewrite Hfill. reflexivity.
Qed.

Lemma generate_range_error (fuel : nat) (g : rng) (total : Z) (unique : bool)
    (e : pyval) :
  ~ 0 < total <= 81 -> generate fuel g total unique e = Raise ValueError.
Proof.
  intro H. unfold generate.
  destruct (Z.ltb_spec 0 total); destruct (Z.leb_spec total 81);
    cbn [andb negb]; try reflexivity; lia.
Qed.

Lemma generate_ok_range (fuel : nat) (g : rng) (total : Z) (unique : bool)
    (e : pyval) (out : board * board) :
  generate fuel g total unique e = Ok out -> 0 < total <= 81.
Proof.
  intro H. destruct (Z_lt_dec 0 total); [destruct (Z_le_dec total 81)|];
    try lia; rewrite generate_range_error in H by lia; discriminate.
Qed.

(** C3.  Whatever the requested count, the policy and the random stream,
    the pair returned by [generate] consists of two 9x9 grids; the solution
    has no empty cell and passes [is_valid_board]; every non-empty cell of
    the puzzle equals the cell of the solution at the same place. *)
Theorem generate_pair_contract (fuel : nat) (g : rng) (total : Z)
    (unique : bool) (e : pyval) (puzzle solution : board) :
  rng_ok g -> is_digit e = false ->
  generate fuel g total unique e = Ok (puzzle, solution) ->
  wf9 puzzle /\ wf9 solution
  /\ complete e solution
  /\ is_valid_board e solution = (Ok true, solution)
  /\ extends e puzzle solution.
Proof.
  intros Hg He Hrun.
  pose proof (generate_ok_range _ _ _ _ _ _ Hrun) as Ht.
  destruct Hg as (Hg1 & Hg2 & Hrand).
  destruct (generate_steps g e (conj Hg1 (conj Hg2 Hrand)) He) as
    (filled & Hwf & Hc & Hl & Hgen).
  rewrite (Hgen fuel total unique Ht) in Hrun.
  assert (Hsol : solution = filled /\ wf9 puzzle /\ extends e puzzle filled).
  { destruct unique.
    - destruct (create_unique_board_spec e (randint g) 0 total filled
                  Hrand Hwf Hc) as (n & st & Hst & _ & Hinv & _).
      rewrite Hst in Hrun. cbn [rbind] in Hrun.
      injection Hrun as Hp Hs. subst puzzle solution.
      destruct Hinv as (H1 & H2 & _). auto.
    - destruct (carve_loop fuel e (randint g) 0 total filled) as [p| |] eqn:E;
        try discriminate.
      cbn [rbind] in Hrun. injection Hrun as Hp Hs. subst p solution.
      destruct (carve_loop_spec e (randint g) fuel 0 total filled puzzle
                  Hrand Hwf E) as (H1 & H2 & _). auto. }
  destruct Hsol as (-> & Hp & Hx).
  split; [assumption|]. split; [assumption|]. split; [assumption|].
  split; [now apply is_valid_board_legal|assumption].
Qed.

Lemma stuck_rng_ok : rng_ok stuck_rng.
Proof.
  split; [reflexivity|]. split; [reflexivity|]. intro i. simpl. lia.
Qed.

Lemma sweep_rng_ok : rng_ok sweep_rng.
Proof.
  split; [reflexivity|]. split; [reflexivity|]. intro i.
  cbn [randint sweep_rng].
  destruct (Nat.even i);
    match goal with
    | |- _ <= ?x mod 9 <= _ => pose proof (Z.mod_pos_bound x 9 eq_refl)
    end; lia.
Qed.

Lemma generate_pair_contract_witness :
  exists puzzle solution,
    generate 45 sweep_rng 45 false (PInt 0) = Ok (puzzle, solution)
    /\ wf9 puzzle /\ wf9 solution
    /\ complete (PInt 0) solution
    /\ is_valid_board (PInt 0) solution = (Ok true, solution)
    /\ extends (PInt 0) puzzle solution.
Proof.
  eexists. eexists. split; [vm_compute; reflexivity|].
  apply (generate_pair_contract 45 sweep_rng 45 false (PInt 0)).
  - exact sweep_rng_ok.
  - reflexivity.
  - vm_compute. reflexivity.
Defined.

(** C8.  With the non-unique policy and a sentinel that is not a digit,
    whenever [generate] returns, the puzzle has exactly [total_empties]
    cells equal to the sentinel and the solution has none. *)
Theorem generate_non_unique_empties (fuel : nat) (g : rng) (total : Z)
    (e : pyval) (puzzle solution : board) :
  rng_ok g -> is_digit e = false ->
  generate fuel g total false e = Ok (puzzle, solution) ->
  Z.of_nat (count_empty e puzzle) = total
  /\ count_empty e solution = 0%nat.
Proof.
  intros Hg He Hrun.
  pose proof (generate_ok_range _ _ _ _ _ _ Hrun) as Ht.
  pose proof Hg as (_ & _ & Hrand).
  destruct (generate_steps g e Hg He) as (filled & Hwf & Hc & Hl & Hgen).
  rewrite (Hgen fuel total false Ht) in Hrun.
  destruct (carve_loop fuel e (randint g) 0 total filled) as [p| |] eqn:E;
    try discriminate.
  cbn [rbind] in Hrun. injection Hrun as Hp Hs. subst p solution.
  destruct (carve_loop_spec e (randint g) fuel 0 total filled puzzle
              Hrand Hwf E) as (_ & _ & Hcount).
  rewrite (count_empty_complete filled e Hwf Hc) in *.
  split; [lia|reflexivity].
Qed.

(** The scenario of the unit test: 45 requested, default sentinel 0. *)
Lemma generate_non_unique_empties_witness :
  exists puzzle solution,
    generate 45 sweep_rng 45 false (PInt 0) = Ok (puzzle, solution)
    /\ Z.of_nat (count_empty (PInt 0) puzzle) = 45
    /\ count_empty (PInt 0) solution = 0%nat.
Proof.
  eexists. eexists. split; [vm_compute; reflexivity|].
  apply (generate_non_unique_empties 45 sweep_rng 45 (PInt 0)).
  - exact sweep_rng_ok.
  - reflexivity.
  - vm_compute. reflexivity.
Defined.

(** C2.  With the unique policy, a sentinel that is not a digit and a
    count in 1..81, [generate] returns for every random stream, and the
    solution counter with limit 2 answers 1 on the puzzle it returns;
    during carving the counter answers 1 on the board after every
    iteration of the loop, so after every accepted removal. *)
Theorem generate_unique_puzzle (g : rng) (total : Z) (e : pyval) :
  rng_ok g -> is_digit e = false -> 0 < total <= 81 ->
  exists puzzle solution,
    (forall fuel, generate fuel g total true e = Ok (puzzle, solution))
    /\ count_solutions 2 e puzzle = (Ok 1, puzzle)
    /\ forall k sk,
         unique_iter k e (randint g)
           {| cv_board := solution; cv_empties := 0; cv_attempts := 0;
              cv_draws := 0 |} = Ok sk ->
         count_solutions 2 e (cv_board sk) = (Ok 1, cv_board sk).
Proof.
  intros Hg He Ht. pose proof Hg as (_ & _ & Hrand).
  destruct (generate_steps g e Hg He) as (filled & Hwf & Hc & Hl & Hgen).
  destruct (create_unique_board_spec e (randint g) 0 total filled
              Hrand Hwf Hc) as (n & st & Hst & _ & Hinv & _).
  exists (cv_board st), filled. split; [|split].
  - intro fuel. rewrite (Hgen fuel total true Ht). now rewrite Hst.
  - now destruct Hinv as (_ & _ & _ & _ & H1).
  - intros k sk Hk.
    pose proof (unique_iter_inv e (randint g) filled Hrand k _ sk
                  (carving_inv_init e filled 0 Hwf Hc) Hk) as Hinvk.
    now destruct Hinvk as (_ & _ & _ & _ & H1).
Qed.

Lemma generate_unique_puzzle_witness :
  exists puzzle solution,
    (forall fuel, generate fuel stuck_rng 45 true (PInt 0)
                  = Ok (puzzle, solution))
    /\ count_solutions 2 (PInt 0) puzzle = (Ok 1, puzzle)
    /\ forall k sk,
         unique_iter k (PInt 0) (randint stuck_rng)
           {| cv_board := solution; cv_empties := 0; cv_attempts := 0;
              cv_draws := 0 |} = Ok sk ->
         count_solutions 2 (PInt 0) (cv_board sk) = (Ok 1, cv_board sk).
Proof.
  apply (generate_unique_puzzle stuck_rng 45 (PInt 0)).
  - exact stuck_rng_ok.
  - reflexivity.
  - lia.
Defined.

(** C9.  On a solved 9x9 grid the carving loop of the unique policy always
    returns, without raising: it runs [n <= 243] iterations, [attempts]
    counts them, the guard [empties < total_empties and attempts < 243]
    holds before each of them and fails after the last, so the loop stops
    the first time [total_empties] cells are empty or 243 attempts have
    been made; the board it leaves has [empties <= total_empties] empty
    cells. *)
Theorem create_unique_board_stops (e : pyval) (rand : nat -> Z) (draws : nat)
    (total : Z) (b : board) :
  (forall i, 0 <= rand i <= 8) -> wf9 b -> complete e b -> 0 <= total ->
  let init := {| cv_board := b; cv_empties := 0; cv_attempts := 0;
                 cv_draws := draws |} in
  exists n st,
    create_unique_board e rand draws total b = Ok st
    /\ unique_iter n e rand init = Ok st
    /\ cv_attempts st = Z.of_nat n
    /\ (forall k, (k < n)%nat ->
          exists sk, unique_iter k e rand init = Ok sk
                     /\ cv_empties sk < total /\ cv_attempts sk < 243)
    /\ (cv_empties st = total \/ cv_attempts st = 243)
    /\ cv_empties st = Z.of_nat (count_empty e (cv_board st))
    /\ cv_empties st <= total /\ cv_attempts st <= 243.
Proof.
  intros Hrand Hb Hc Ht init.
  destruct (create_unique_board_spec e rand draws total b Hrand Hb Hc)
    as (n & st & Hst & Hi & Hinv & Hg & Ha & Hk & Hem & Hat).
  fold init in Hi, Hk.
  exists n, st. split; [assumption|]. split; [assumption|].
  split; [assumption|].
  unfold max_attempts in *. change (81 * 3) with 243 in *.
  split.
  - intros k Hlt. destruct (Hk k Hlt) as (sk & Hsk & Hgk).
    exists sk. split; [assumption|].
    unfold unique_guard, max_attempts in Hgk.
    apply andb_prop in Hgk. destruct Hgk as [H1 H2].
    change (81 * 3) with 243 in H2. lia.
  - unfold unique_guard, max_attempts in Hg.
    change (81 * 3) with 243 in Hg.
    apply andb_false_iff in Hg.
    destruct Hinv as (_ & _ & Hcount & _).
    split; [|split; [assumption|lia]].
    destruct Hg as [Hg|Hg]; [left|right]; lia.
Qed.

(** The run of [test_create_unique_board_max_attempts]: the stream keeps
    picking cell (0, 0), the budget of 243 attempts runs out, and the call
    returns normally with 1 empty cell where 20 were requested. *)
Lemma create_unique_board_stops_witness :
  exists st,
    create_unique_board (PInt 0) (fun _ => 0) 0 20 complete_board = Ok st
    /\ cv_attempts st = 243
    /\ count_empty (PInt 0) (cv_board st) = 1%nat
    /\ (cv_empties st = 20 \/ cv_attempts st = 243).
Proof.
  destruct (create_unique_board_stops (PInt 0) (fun _ => 0) 0 20
              complete_board) as (n & st & Hst & _ & _ & _ & Hstop & _).
  - intro i. lia.
  - apply wf9_int_board_9. vm_compute. reflexivity.
  - apply count_empty_zero.
    + apply wf9_int_board_9. vm_compute. reflexivity.
    + vm_compute. reflexivity.
  - lia.
  - exists st. split; [assumption|].
    assert (E : create_unique_board (PInt 0) (fun _ => 0) 0 20 complete_board
                = Ok {| cv_board := upd complete_board 0 0 (PInt 0);
                        cv_empties := 1; cv_attempts := 243;
                        cv_draws := 486 |})
      by (vm_compute; reflexivity).
    rewrite E in Hst. injection Hst as <-.
    split; [reflexivity|]. split; [vm_compute; reflexivity|assumption].
Defined.

(** The same exhaustion through [generate]: with the stream that keeps
    picking cell (0, 0), 45 empty cells are requested and the puzzle comes
    back, without an error, with a single one. *)
Lemma generate_unique_budget_exhausted :
  exists puzzle solution,
    generate 0 stuck_rng 45 true (PInt 0) = Ok (puzzle, solution)
    /\ count_empty (PInt 0) puzzle = 1%nat
    /\ count_solutions 2 (PInt 0) puzzle = (Ok 1, puzzle).
Proof.
  eexists. eexists. split; [vm_compute; reflexivity|].
  split; vm_compute; reflexivity.
Qed.

(** * The solver on grids with a repeated value *)

Lemma all_cells_spec (P : Z -> Z -> bool) :
  all_cells P = true -> forall r c, in_grid r c -> P r c = true.
Proof.
  unfold all_cells. intros H r c Hrc. rewrite forallb_forall in H.
  apply (H (r, c)). now apply in_cells9.
Qed.

Lemma distinct_NoDup (l : list Z) : distinct l = true -> List.NoDup l.
Proof.
  induction l as [|x l IH]; intro H; constructor.
  - simpl in H. apply andb_prop in H. destruct H as [H _].
    apply negb_true_iff in H. intro Hin.
    assert (existsb (Z.eqb x) l = true); [|congruence].
    apply existsb_exists. exists x. split; [assumption|apply Z.eqb_refl].
  - apply IH. simpl in H. apply andb_prop in H. tauto.
Qed.

Section RowDuplicate.
Variables (e : pyval) (b g : board) (r0 c1 c2 : Z).
Hypothesis Hb : wf9 b.
Hypothesis Hg : filled_from e b g.
Hypothesis Hdigits : given_digits e b = true.
Hypothesis Hcols : columns_distinct e b = true.
Hypothesis Hrows : other_rows_distinct e b r0 = true.
Hypothesis H1 : in_grid r0 c1.
Hypothesis H2 : in_grid r0 c2.
Hypothesis Hc12 : c1 <> c2.
Hypothesis Hgiven : cellv b r0 c1 <> e.
Hypothesis Hsame : cellv b r0 c1 = cellv b r0 c2.

Lemma filled_all_digits (r c : Z) :
  in_grid r c -> is_digit (cellv g r c) = true.
Proof.
  intro Hrc. destruct Hg as (_ & _ & Hx & Hp).
  destruct (pyval_eqb (cellv b r c) e) eqn:E.
  - apply pyval_eqb_eq in E. now destruct (Hp r c Hrc E).
  - pose proof Hdigits as Hd. unfold given_digits in Hd.
    apply all_cells_spec with (r := r) (c := c) in Hd; [|assumption].
    cbn beta in Hd. rewrite E in Hd. cbn [orb] in Hd.
    apply pyval_eqb_neq in E. now rewrite (Hx r c Hrc E).
Qed.

Lemma filled_columns_distinct (r r' c : Z) :
  in_grid r c -> in_grid r' c -> r <> r' ->
  cellv g r c <> cellv g r' c.
Proof.
  intros Hrc Hrc' Hne. destruct Hg as (_ & _ & Hx & Hp).
  assert (Hrel : related r c r' c = true).
  { unfold related. rewrite (Z.eqb_refl c). now rewrite orb_true_r. }
  destruct (pyval_eqb (cellv b r c) e) eqn:E.
  - apply pyval_eqb_eq in E. destruct (Hp r c Hrc E) as [_ Hq].
    intro Heq. apply (Hq r' c Hrc'); [congruence|assumption|congruence].
  - destruct (pyval_eqb (cellv b r' c) e) eqn:E'.
    + apply pyval_eqb_eq in E'. destruct (Hp r' c Hrc' E') as [_ Hq].
      apply (Hq r c Hrc); [congruence|].
      now rewrite related_sym.
    + pose proof Hcols as Hd. unfold columns_distinct in Hd.
      apply all_cells_spec with (r := r) (c := c) in Hd; [|assumption].
      cbn beta in Hd. rewrite E in Hd. cbn [orb] in Hd.
      apply (forallb_py_range _ 0 9 r') in Hd; [|apply Hrc'].
      cbn beta in Hd.
      apply pyval_eqb_neq in E, E'.
      rewrite (Hx r c Hrc E), (Hx r' c Hrc' E').
      assert (Er : (r' =? r) = false) by (apply Z.eqb_neq; congruence).
      rewrite Er in Hd. cbn [orb] in Hd.
      apply negb_true_iff, pyval_eqb_neq in Hd. congruence.
Qed.

Lemma filled_rows_distinct (r c c' : Z) :
  in_grid r c -> in_grid r c' -> r <> r0 -> c <> c' ->
  cellv g r c <> cellv g r c'.
Proof.
  intros Hrc Hrc' Hr Hne. destruct Hg as (_ & _ & Hx & Hp).
  assert (Hrel : related r c r c' = true).
  { unfold related. now rewrite (Z.eqb_refl r). }
  destruct (pyval_eqb (cellv b r c) e) eqn:E.
  - apply pyval_eqb_eq in E. destruct (Hp r c Hrc E) as [_ Hq].
    intro Heq. apply (Hq r c' Hrc'); [congruence|assumption|congruence].
  - destruct (pyval_eqb (cellv b r c') e) eqn:E'.
    + apply pyval_eqb_eq in E'. destruct (Hp r c' Hrc' E') as [_ Hq].
      apply (Hq r c Hrc); [congruence|].
      now rewrite related_sym.
    + pose proof Hrows as Hd. unfold other_rows_distinct in Hd.
      apply all_cells_spec with (r := r) (c := c) in Hd; [|assumption].
      cbn beta in Hd. rewrite E in Hd.
      assert (Er : (r =? r0) = false) by (now apply Z.eqb_neq).
      rewrite Er in Hd. cbn [orb] in Hd.
      apply (forallb_py_range _ 0 9 c') in Hd; [|apply Hrc'].
      cbn beta in Hd.
      apply pyval_eqb_neq in E, E'.
      rewrite (Hx r c Hrc E), (Hx r c' Hrc' E').
      assert (Ec : (c' =? c) = false) by (apply Z.eqb_neq; congruence).
      rewrite Ec in Hd. cbn [orb] in Hd.
      apply negb_true_iff, pyval_eqb_neq in Hd. congruence.
Qed.

Lemma filled_duplicate :
  cellv g r0 c1 = cellv b r0 c1 /\ cellv g r0 c2 = cellv b r0 c1
/\ is_digit (cellv b r0 c1) = true.
Proof.
  destruct Hg as (_ & _ & Hx & _).
  assert (E1 : cellv g r0 c1 = cellv b r0 c1) by (now apply Hx).
  assert (E2 : cellv g r0 c2 = cellv b r0 c1).
  { rewrite Hsame. apply Hx; [assumption|congruence]. }
  split; [assumption|]. split; [assumption|].
  rewrite <- E1. now apply filled_all_digits.
Qed.

(** A row of nine distinct digits holds every digit. *)
Lemma filled_row_has_value (r : Z) :
  0 <= r < 9 -> r <> r0 ->
  exists c, 0 <= c < 9 /\ cellv g r c = cellv b r0 c1.
Proof.
  intros Hr Hne. destruct filled_duplicate as (_ & _ & Hv).
  set (row := map (fun c => cellv g r c) (py_range 0 9)).
  assert (Hnd : List.NoDup row).
  { apply List.NoDup_map_NoDup_ForallPairs.
    - intros c c' Hc Hc' Heq. apply py_range_0_9 in Hc, Hc'.
      destruct (Z.eq_dec c c') as [|Hcc]; [assumption|].
      exfalso. apply (filled_rows_distinct r c c'); auto;
        unfold in_grid; lia.
    - apply distinct_NoDup. vm_compute. reflexivity. }
  assert (Hincl : incl row (map PInt (py_range 1 10))).
  { intros x Hx. apply in_map_iff in Hx. destruct Hx as (c & <- & Hc).
    apply py_range_0_9 in Hc.
    pose proof (filled_all_digits r c (conj Hr Hc)) as Hd.
    apply is_digit_spec in Hd. destruct Hd as (d & Hd & ->).
    apply in_map. now apply py_range_1_10. }
  assert (Hin : In (cellv b r0 c1) row).
  { apply (List.NoDup_length_incl Hnd (l' := map PInt (py_range 1 10)));
      [reflexivity|assumption|].
    apply is_digit_spec in Hv. destruct Hv as (d & Hd & ->).
    apply in_map. now apply py_range_1_10. }
  apply in_map_iff in Hin. destruct Hin as (c & Hc & Hin).
  apply py_range_0_9 in Hin. eauto.
Qed.

Lemma column_of_spec (r : Z) :
  0 <= r < 9 -> r <> r0 ->
  0 <= column_of g (cellv b r0 c1) r < 9
/\ cellv g r (column_of g (cellv b r0 c1) r) = cellv b r0 c1.
Proof.
  intros Hr Hne. unfold column_of.
  destruct (List.find _ (py_range 0 9)) as [c|] eqn:E.
  - apply List.find_some in E. destruct E as [Hin Heq].
    apply py_range_0_9 in Hin. apply pyval_eqb_eq in Heq. auto.
  - destruct (filled_row_has_value r Hr Hne) as (c & Hc & Hv).
    pose proof (List.find_none _ _ E c (proj2 (py_range_0_9 c) Hc)) as Hn.
    cbn beta in Hn. apply pyval_eqb_neq in Hn. contradiction.
Qed.

(** Eight rows would need eight different columns among the seven that
    do not already hold the repeated value. *)
Lemma row_duplicate_has_no_completion : False.
Proof.
  destruct filled_duplicate as (Hv1 & Hv2 & _).
  set (rows := List.filter (fun r => negb (r =? r0)) (py_range 0 9)).
  set (cols := List.filter (fun c => negb (c =? c1) && negb (c =? c2))
                 (py_range 0 9)).
  assert (Hrows_in : forall r, In r rows <-> 0 <= r < 9 /\ r <> r0).
  { intro r. unfold rows. rewrite List.filter_In, py_range_0_9.
    destruct (Z.eqb_spec r r0); cbn [negb]; intuition congruence. }
  assert (Hnd : List.NoDup (map (column_of g (cellv b r0 c1)) rows)).
  { apply List.NoDup_map_NoDup_ForallPairs.
    - intros r r' Hr Hr' Heq. apply Hrows_in in Hr, Hr'.
      destruct Hr as [Hr Hn], Hr' as [Hr' Hn'].
      destruct (column_of_spec r Hr Hn) as [Hc Hv].
      destruct (column_of_spec r' Hr' Hn') as [Hc' Hv'].
      destruct (Z.eq_dec r r') as [|Hrr]; [assumption|].
      exfalso.
      apply (filled_columns_distinct r r' (column_of g (cellv b r0 c1) r));
        [split; assumption|rewrite Heq; split; assumption|assumption|].
      rewrite Hv. rewrite Heq. now rewrite Hv'.
    - apply List.NoDup_filter. apply distinct_NoDup.
      vm_compute. reflexivity. }
  assert (Hincl : incl (map (column_of g (cellv b r0 c1)) rows) cols).
  { intros c Hc. apply in_map_iff in Hc. destruct Hc as (r & <- & Hr).
    apply Hrows_in in Hr. destruct Hr as [Hr Hn].
    destruct (column_of_spec r Hr Hn) as [Hc Hv].
    unfold cols. rewrite List.filter_In, py_range_0_9.
    split; [assumption|].
    destruct (Z.eqb_spec (column_of g (cellv b r0 c1) r) c1) as [Ec|_].
    - exfalso. apply (filled_columns_distinct r r0 c1);
        [split; [assumption|apply H1]|assumption|assumption|].
      rewrite <- Ec at 1. congruence.
    - destruct (Z.eqb_spec (column_of g (cellv b r0 c1) r) c2) as [Ec|_];
        [|reflexivity].
      exfalso. apply (filled_columns_distinct r r0 c2);
        [split; [assumption|apply H2]|assumption|assumption|].
      rewrite <- Ec at 1. congruence. }
  pose proof (List.NoDup_incl_length Hnd Hincl) as Hlen.
  rewrite length_map in Hlen.
  assert (Hr8 : length rows = 8%nat).
  { unfold rows. destruct H1 as [Hr _]. apply range9_cases in Hr.
    repeat (destruct Hr as [Hr|Hr]); subst r0; reflexivity. }
  assert (Hc7 : length cols = 7%nat).
  { unfold cols. destruct H1 as [_ Hc1], H2 as [_ Hc2].
    apply range9_cases in Hc1. apply range9_cases in Hc2.
    repeat (destruct Hc1 as [Hc1|Hc1]);
      repeat (destruct Hc2 as [Hc2|Hc2]); subst c1 c2;
      try reflexivity; contradiction. }
  lia.
Qed.
End RowDuplicate.

(** C5, as stated, fails: the solver never checks the given cells.  On
    [duplicate_row_open_board], with two 5s in row 0 and one empty cell, it
    places a 9 in the empty cell and answers true. *)
Lemma fill_board_accepts_row_duplicate :
  wf9 duplicate_row_open_board
  /\ cellv duplicate_row_open_board 0 0 = PInt 5
  /\ cellv duplicate_row_open_board 0 1 = PInt 5
  /\ fill_board (PInt 0) duplicate_row_open_board
     = (Ok true, upd duplicate_row_open_board 8 8 (PInt 9)).
Proof.
  split; [apply wf9_int_board_9; vm_compute; reflexivity|].
  split; [reflexivity|]. split; [reflexivity|]. vm_compute. reflexivity.
Qed.

(** C5, amended.  On a 9x9 grid whose given cells are digits, with two
    identical given values in row [r0] and no repeated given value in any
    other row or in any column, [fill_board] returns false, and the grid
    on return is the grid that was passed in: every cell the search filled
    holds the sentinel again. *)
Theorem fill_board_row_duplicate (e : pyval) (b : board) (r0 c1 c2 : Z) :
  wf9 b ->
  in_grid r0 c1 -> in_grid r0 c2 -> c1 <> c2 ->
  cellv b r0 c1 <> e -> cellv b r0 c1 = cellv b r0 c2 ->
  given_digits e b = true ->
  columns_distinct e b = true ->
  other_rows_distinct e b r0 = true ->
  fill_board e b = (Ok false, b).
Proof.
  intros Hb H1 H2 Hc12 Hgiven Hsame Hdigits Hcols Hrows.
  destruct (fill_board_spec e b Hb) as [[Hout _]|[g [_ Hg]]];
    [assumption|].
  exfalso.
  exact (row_duplicate_has_no_completion e b g r0 c1 c2 Hg Hdigits Hcols
           Hrows H1 H2 Hc12 Hgiven Hsame).
Qed.

(** The unsolvable grid of [test_fill_board_fails_on_unsolvable]. *)
Lemma fill_board_row_duplicate_witness :
  fill_board (PInt 0) unsolvable_board = (Ok false, unsolvable_board).
Proof.
  apply (fill_board_row_duplicate (PInt 0) unsolvable_board 0 0 1).
  - apply wf9_int_board_9. vm_compute. reflexivity.
  - unfold in_grid. lia.
  - unfold in_grid. lia.
  - lia.
  - vm_compute. discriminate.
  - vm_compute. reflexivity.
  - vm_compute. reflexivity.
  - vm_compute. reflexivity.
  - vm_compute. reflexivity.
Defined.

(** Whenever the solver answers false, the grid is as it was passed in. *)
Lemma fill_board_false_restores (e : pyval) (b b' : board) :
  wf9 b -> fill_board e b = (Ok false, b') -> b' = b.
Proof.
  intros Hb H.
  destruct (fill_board_spec e b Hb) as [[Hout _]|[g [Hout _]]]; congruence.
Qed.

(** The solver always returns on a 9x9 grid, with an answer and a grid. *)
Lemma fill_board_total (e : pyval) (b : board) :
  wf9 b -> exists ok b', fill_board e b = (Ok ok, b') /\ wf9 b'.
Proof.
  intro Hb.
  destruct (fill_board_spec e b Hb) as [[Hout _]|[g [Hout Hg]]].
  - exists false, b. auto.
  - exists true, g. split; [assumption|]. now destruct Hg.
Qed.

(** * Further properties of the validator *)

Lemma wf9_compute (b : board) :
  (Nat.eqb (length b) 9 && forallb (fun row => Nat.eqb (length row) 9) b) = true ->
  wf9 b.
Proof. apply wf9_int_board_9. Qed.

Lemma square_board_of (f : Z -> Z -> pyval) (r c : Z) :
  in_grid r c ->
  get_values_in_square (board_of f) r c
  = Ok (map (fun p => f (fst p) (snd p)) (box_cells r c)).
Proof.
  revert r c. apply grid_forall. repeat constructor.
Qed.

Lemma in_box_cells (r c r' c' : Z) :
  in_grid r c ->
  In (r', c') (box_cells r c)
  <-> in_grid r' c' /\ r' / 3 = r / 3 /\ c' / 3 = c / 3.
Proof.
  intro H. split.
  - assert (HF : forallb (fun q => (0 <=? fst q) && (fst q <? 9)
                            && (0 <=? snd q) && (snd q <? 9)
                            && (fst q / 3 =? r / 3) && (snd q / 3 =? c / 3))
                   (box_cells r c) = true).
    { grid_cases H; vm_compute; reflexivity. }
    intro Hin. rewrite forallb_forall in HF.
    specialize (HF _ Hin). cbn [fst snd] in HF. unfold in_grid.
    repeat (apply andb_prop in HF; destruct HF as [HF ?]). lia.
  - intros (H' & Hr & Hc).
    assert (HF : forallb (fun p => forallb (fun q =>
                   implb ((fst q / 3 =? fst p / 3) && (snd q / 3 =? snd p / 3))
                     (existsb (fun u => (fst u =? fst q) && (snd u =? snd q))
                        (box_cells (fst p) (snd p)))) cells9) cells9 = true)
      by (vm_compute; reflexivity).
    rewrite forallb_forall in HF.
    specialize (HF (r, c) (proj1 (in_cells9 r c) H)).
    rewrite forallb_forall in HF.
    specialize (HF (r', c') (proj1 (in_cells9 r' c') H')).
    cbn [fst snd] in HF. rewrite Hr, Hc, !Z.eqb_refl in HF. cbn [andb implb] in HF.
    apply existsb_exists in HF. destruct HF as [[r2 c2] [Hin Heq]].
    simpl in Heq. apply andb_prop in Heq. destruct Heq as [E1 E2].
    apply Z.eqb_eq in E1, E2. now subst.
Qed.

(** X1.  For a cell of a 9x9 grid, [get_values_in_square] returns nine
    values, and they are the values of the cells of the 3x3 box that
    contains the cell. *)
Theorem get_values_in_square_box (b : board) (r c : Z) :
  wf9 b -> in_grid r c ->
  exists square,
    get_values_in_square b r c = Ok square
    /\ length square = 9%nat
    /\ forall x, In x square <->
         exists r' c', in_grid r' c' /\ r' / 3 = r / 3 /\ c' / 3 = c / 3
                       /\ cellv b r' c' = x.
Proof.
  intros Hb H.
  assert (E : get_values_in_square b r c
              = Ok (map (fun p => cellv b (fst p) (snd p)) (box_cells r c))).
  { rewrite <- (board_of_cellv b Hb) at 1. now apply square_board_of. }
  rewrite E. eexists. split; [reflexivity|]. split.
  - rewrite length_map. grid_cases H; reflexivity.
  - intro x. rewrite in_map_iff. split.
    + intros [[r' c'] [Hx Hin]]. apply in_box_cells in Hin; [|assumption].
      exists r', c'. cbn [fst snd] in Hx. tauto.
    + intros (r' & c' & H' & Hr & Hc & Hx). exists (r', c').
      split; [assumption|]. apply in_box_cells; auto.
Qed.

Lemma get_values_in_square_box_witness :
  get_values_in_square complete_board 4 4
  = Ok (map PInt [7; 6; 1; 8; 5; 3; 9; 2; 4])
  /\ exists square,
       get_values_in_square complete_board 4 4 = Ok square
       /\ length square = 9%nat
       /\ forall x, In x square <->
            exists r' c', in_grid r' c' /\ r' / 3 = 4 / 3 /\ c' / 3 = 4 / 3
                          /\ cellv complete_board r' c' = x.
Proof.
  split; [vm_compute; reflexivity|].
  apply (get_values_in_square_box complete_board 4 4).
  - apply wf9_compute. vm_compute. reflexivity.
  - unfold in_grid. lia.
Defined.

(** X2.  On a 9x9 grid and a cell of it, [is_valid_entry] answers true
    exactly when no cell of the row, the column or the box - the cell
    itself included - holds the value; otherwise it answers false. *)
Theorem is_valid_entry_true_iff (b : board) (r c : Z) (v : pyval) :
  wf9 b -> in_grid r c ->
  (is_valid_entry b r c v = Ok true \/ is_valid_entry b r c v = Ok false)
  /\ (is_valid_entry b r c v = Ok true <->
      forall r' c', in_grid r' c' ->
        (r' = r \/ c' = c \/ (r' / 3 = r / 3 /\ c' / 3 = c / 3)) ->
        cellv b r' c' <> v).
Proof.
  intros Hb H. rewrite is_valid_entry_wf by assumption. split.
  - destruct (entry_free b r c v); auto.
  - split.
    + intros E r' c' H' Hrel. injection E as E.
      rewrite entry_free_true in E by assumption. apply E; [assumption|].
      unfold related.
      destruct Hrel as [->|[->|[E1 E2]]].
      * now rewrite Z.eqb_refl.
      * rewrite (Z.eqb_refl c). now rewrite orb_true_r.
      * rewrite <- E1, <- E2, !Z.eqb_refl. now rewrite orb_true_r.
    + intro Hall. f_equal. apply entry_free_true; [assumption|].
      intros r' c' H' Hrel. apply Hall; [assumption|].
      unfold related in Hrel.
      apply orb_prop in Hrel. destruct Hrel as [Hrel|Hrel].
      * apply orb_prop in Hrel. destruct Hrel as [E|E];
          apply Z.eqb_eq in E; auto.
      * apply andb_prop in Hrel. destruct Hrel as [E1 E2].
        apply Z.eqb_eq in E1, E2. auto.
Qed.

Lemma is_valid_entry_true_iff_witness :
  is_valid_entry partial_board 0 2 (PInt 5) = Ok false
  /\ (is_valid_entry partial_board 0 2 (PInt 4) = Ok true <->
      forall r' c', in_grid r' c' ->
        (r' = 0 \/ c' = 2 \/ (r' / 3 = 0 / 3 /\ c' / 3 = 2 / 3)) ->
        cellv partial_board r' c' <> PInt 4).
Proof.
  split; [vm_compute; reflexivity|].
  apply (is_valid_entry_true_iff partial_board 0 2 (PInt 4)).
  - apply wf9_compute. vm_compute. reflexivity.
  - unfold in_grid. lia.
Defined.

(** X3.  Writing into a cell of a legal 9x9 grid a value that
    [is_valid_entry] accepts there gives a legal grid again. *)
Theorem is_valid_entry_keeps_legal (e : pyval) (b b' : board) (r c : Z)
    (v : pyval) :
  wf9 b -> in_grid r c -> legal e b ->
  is_valid_entry b r c v = Ok true -> set_cell b r c v = Ok b' ->
  wf9 b' /\ legal e b'.
Proof.
  intros Hb H Hl Hok Hset.
  rewrite set_cell_wf in Hset by assumption. injection Hset as <-.
  split; [apply wf9_upd|].
  rewrite is_valid_entry_wf in Hok by assumption. injection Hok as Hfree.
  rewrite entry_free_true in Hfree by assumption.
  intros r1 c1 r2 c2 H1 H2 Hne Hrel Hv.
  rewrite cellv_upd in Hv by assumption. rewrite !cellv_upd by assumption.
  destruct ((r1 =? r) && (c1 =? c)) eqn:E1;
    destruct ((r2 =? r) && (c2 =? c)) eqn:E2.
  - apply andb_prop in E1, E2. destruct E1 as [A1 A2], E2 as [B1 B2].
    apply Z.eqb_eq in A1, A2, B1, B2. subst. congruence.
  - apply andb_prop in E1. destruct E1 as [A1 A2].
    apply Z.eqb_eq in A1, A2. subst r1 c1.
    intro Heq. apply (Hfree r2 c2 H2 Hrel). congruence.
  - apply andb_prop in E2. destruct E2 as [B1 B2].
    apply Z.eqb_eq in B1, B2. subst r2 c2.
    apply (Hfree r1 c1 H1). now rewrite related_sym.
  - now apply Hl.
Qed.

Lemma legal_compute (e : pyval) (b : board) :
  wf9 b -> fst (is_valid_board e b) = Ok true -> legal e b.
Proof.
  intros Hb Hv.
  assert (Hscan : forall cells b',
            (forall p, In p cells -> in_grid (fst p) (snd p)) ->
            is_valid_board_scan e cells b = (Ok true, b') ->
            forall r c, In (r, c) cells -> cellv b r c <> e ->
              entry_free (upd b r c e) r c (cellv b r c) = true).
  { induction cells as [|[r0 c0] rest IH]; intros b' Hin Hrun r c Hrc Hne.
    - destruct Hrc.
    - assert (H0 : in_grid r0 c0) by (apply (Hin (r0, c0)); now left).
      cbn [is_valid_board_scan] in Hrun. rewrite bind_reading in Hrun.
      rewrite get_cell_wf in Hrun by assumption.
      destruct (pyval_eqb (cellv b r0 c0) e) eqn:E.
      + destruct Hrc as [Hrc|Hrc].
        * injection Hrc as <- <-. apply pyval_eqb_eq in E. contradiction.
        * apply (IH b'); auto. intros p Hp. apply Hin. now right.
      + rewrite bind_write_cell in Hrun by assumption.
        rewrite bind_reading in Hrun.
        rewrite is_valid_entry_wf in Hrun by (apply wf9_upd || assumption).
        destruct (entry_free (upd b r0 c0 e) r0 c0 (cellv b r0 c0)) eqn:F;
          cbn [negb] in Hrun; [|discriminate].
        rewrite bind_write_cell in Hrun by (apply wf9_upd || assumption).
        rewrite upd_restore in Hrun by assumption.
        destruct Hrc as [Hrc|Hrc].
        * injection Hrc as <- <-. assumption.
        * apply (IH b'); auto. intros p Hp. apply Hin. now right. }
  unfold is_valid_board in Hv. rewrite wf9_shape_check in Hv by assumption.
  destruct (is_valid_board_scan e cells9 b) as [res b'] eqn:Hrun.
  cbn [fst] in Hv. subst res.
  intros r c r' c' Hrc Hrc' Hne Hrel Hval.
  assert (Hf := Hscan cells9 b'
                  (fun p Hp => proj2 (in_cells9 (fst p) (snd p))
                                 ltac:(now destruct p))
                  Hrun r c (proj1 (in_cells9 r c) Hrc) Hval).
  rewrite entry_free_cleared in Hf by assumption.
  apply Hf; auto.
Qed.

Lemma is_valid_entry_keeps_legal_witness :
  exists b',
    set_cell partial_board 0 2 (PInt 4) = Ok b'
    /\ wf9 b' /\ legal (PInt 0) b'.
Proof.
  assert (Hb : wf9 partial_board) by (apply wf9_compute; vm_compute; reflexivity).
  eexists. split; [vm_compute; reflexivity|].
  apply (is_valid_entry_keeps_legal (PInt 0) partial_board _ 0 2 (PInt 4)).
  - exact Hb.
  - unfold in_grid. lia.
  - apply legal_compute; [exact Hb|vm_compute; reflexivity].
  - vm_compute. reflexivity.
  - vm_compute. reflexivity.
Defined.

(** X4.  [is_valid_entry] does not set the cell itself apart: asked about
    the value a cell of a 9x9 grid already holds, it answers false. *)
Theorem is_valid_entry_rejects_own_value (b : board) (r c : Z) (v : pyval) :
  wf9 b -> in_grid r c -> get_cell b r c = Ok v ->
  is_valid_entry b r c v = Ok false.
Proof.
  intros Hb H Hget. rewrite get_cell_wf in Hget by assumption.
  injection Hget as <-. rewrite is_valid_entry_wf by assumption. f_equal.
  destruct (entry_free b r c (cellv b r c)) eqn:E; [|reflexivity].
  rewrite entry_free_true in E by assumption.
  now destruct (E r c H (related_refl r c)).
Qed.

Lemma is_valid_entry_rejects_own_value_witness :
  is_valid_entry complete_board 3 7 (PInt 2) = Ok false.
Proof.
  apply (is_valid_entry_rejects_own_value complete_board 3 7 (PInt 2)).
  - apply wf9_compute. vm_compute. reflexivity.
  - unfold in_grid. lia.
  - vm_compute. reflexivity.
Defined.

(** X5.  On a 9x9 grid [is_valid_board] answers true or false, and it
    answers true exactly when no two distinct cells that share a row, a
    column or a box hold the same non-empty value. *)
Theorem is_valid_board_iff_legal (e : pyval) (b : board) :
  wf9 b ->
  (fst (is_valid_board e b) = Ok true \/ fst (is_valid_board e b) = Ok false)
  /\ (fst (is_valid_board e b) = Ok true <-> legal e b).
Proof.
  intro Hb. split.
  - destruct (is_valid_board_outcome e b Hb) as [H|(r & c & _ & _ & H)];
      rewrite H; auto.
  - split; [now apply legal_compute|].
    intro Hl. now rewrite is_valid_board_legal.
Qed.

Lemma is_valid_board_iff_legal_witness :
  fst (is_valid_board (PInt 0) duplicate_row_board) = Ok false
  /\ (fst (is_valid_board (PInt 0) partial_board) = Ok true
      <-> legal (PInt 0) partial_board).
Proof.
  split; [vm_compute; reflexivity|].
  apply (is_valid_board_iff_legal (PInt 0) partial_board).
  apply wf9_compute. vm_compute. reflexivity.
Defined.

(** X6.  [is_valid_board] raises [ValueError] exactly on the grids that
    are not 9x9 (nine rows of nine cells), and then it has not touched the
    grid. *)
Theorem is_valid_board_shape_check (e : pyval) (b : board) :
  (fst (is_valid_board e b) = Raise ValueError <-> ~ wf9 b)
  /\ (~ wf9 b -> snd (is_valid_board e b) = b).
Proof.
  split; [split|].
  - intros Hr Hb.
    destruct (is_valid_board_outcome e b Hb) as [H|(r & c & _ & _ & H)];
      rewrite H in Hr; discriminate.
  - intro Hn. now rewrite is_valid_board_shape_error.
  - intro Hn. now rewrite is_valid_board_shape_error.
Qed.

(** * Further properties of the solver *)

Lemma cells9_nth (i : nat) :
  (i < 81)%nat ->
  nth_error cells9 i = Some (Z.of_nat (i / 9), Z.of_nat (i mod 9)).
Proof.
  intro Hi.
  assert (H : forallb (fun i =>
                match nth_error cells9 i with
                | Some (r, c) => (r =? Z.of_nat (i / 9)) && (c =? Z.of_nat (i mod 9))
                | None => false
                end) (seq 0 81) = true) by (vm_compute; reflexivity).
  rewrite forallb_forall in H. specialize (H i).
  destruct (nth_error cells9 i) as [[r c]|].
  - assert (Hin : In i (seq 0 81)) by (apply in_seq; lia).
    apply H in Hin. apply andb_prop in Hin. destruct Hin as [E1 E2].
    apply Z.eqb_eq in E1, E2. now subst.
  - assert (Hin : In i (seq 0 81)) by (apply in_seq; lia).
    apply H in Hin. discriminate.
Qed.

Lemma find_least {A} (f : A -> bool) (l : list A) (x : A) :
  List.find f l = Some x ->
  exists i, nth_error l i = Some x
    /\ forall j y, (j < i)%nat -> nth_error l j = Some y -> f y = false.
Proof.
  induction l as [|a l IH]; intro H; [discriminate|].
  simpl in H. destruct (f a) eqn:E.
  - injection H as <-. exists O. split; [reflexivity|]. intros j y Hj. lia.
  - destruct (IH H) as (i & Hi & Hless). exists (S i).
    split; [assumption|]. intros [|j] y Hj Hy.
    + simpl in Hy. now injection Hy as <-.
    + simpl in Hy. apply (Hless j); [lia|assumption].
Qed.

Lemma cells9_index (r c : Z) (i : nat) :
  nth_error cells9 i = Some (r, c) ->
  (i < 81)%nat /\ r = Z.of_nat (i / 9) /\ c = Z.of_nat (i mod 9).
Proof.
  intro H.
  assert (Hi : (i < 81)%nat).
  { assert (Hs : nth_error cells9 i <> None) by congruence.
    apply List.nth_error_Some in Hs. exact Hs. }
  rewrite cells9_nth in H by assumption. injection H as <- <-. auto.
Qed.

(** X7.  On a 9x9 grid [get_empty] returns [()] exactly when no cell is
    empty; otherwise it returns an empty cell, and every cell before it in
    row-major order is non-empty. *)
Theorem get_empty_first (b : board) (e : pyval) :
  wf9 b ->
  (get_empty b e = Ok None /\ complete e b)
  \/ exists r c,
       get_empty b e = Ok (Some (r, c))
       /\ in_grid r c /\ cellv b r c = e
       /\ forall r' c', in_grid r' c' -> before r' c' r c ->
            cellv b r' c' <> e.
Proof.
  intro Hb.
  destruct (get_empty_total b e Hb) as [[[r c]|] Hget].
  - right. exists r, c. split; [assumption|].
    destruct (get_empty_some b e r c Hb Hget) as [Hrc He].
    split; [assumption|]. split; [assumption|].
    rewrite get_empty_wf in Hget by assumption.
    assert (Hf : List.find (fun p => pyval_eqb (cellv b (fst p) (snd p)) e)
                   cells9 = Some (r, c)) by congruence.
    apply find_least in Hf. destruct Hf as (i & Hi & Hless).
    apply cells9_index in Hi. destruct Hi as (Hi & Er & Ec).
    intros r' c' Hrc' Hbefore.
    apply in_cells9 in Hrc'. apply In_nth_error in Hrc'.
    destruct Hrc' as [j Hj]. pose proof (cells9_index _ _ _ Hj) as (Hj81 & Er' & Ec').
    assert (Hlt : (j < i)%nat).
    { pose proof (Nat.div_mod_eq i 9). pose proof (Nat.div_mod_eq j 9).
      pose proof (Nat.mod_upper_bound i 9). pose proof (Nat.mod_upper_bound j 9).
      unfold before in Hbefore. lia. }
    specialize (Hless j (r', c') Hlt Hj). cbn [fst snd] in Hless.
    now apply pyval_eqb_neq.
  - left. split; [assumption|]. now apply get_empty_none.
Qed.

Lemma get_empty_first_witness :
  get_empty partial_board (PInt 0) = Ok (Some (0, 2))
  /\ ((get_empty partial_board (PInt 0) = Ok None
       /\ complete (PInt 0) partial_board)
      \/ exists r c,
           get_empty partial_board (PInt 0) = Ok (Some (r, c))
           /\ in_grid r c /\ cellv partial_board r c = PInt 0
           /\ forall r' c', in_grid r' c' -> before r' c' r c ->
                cellv partial_board r' c' <> PInt 0).
Proof.
  split; [vm_compute; reflexivity|].
  apply (get_empty_first partial_board (PInt 0)).
  apply wf9_compute. vm_compute. reflexivity.
Defined.

Lemma possible_scan_wf (b : board) (r c : Z) (values : list Z) :
  wf9 b -> in_grid r c ->
  possible_scan b r c values
  = Ok (List.filter (fun v => entry_free b r c (PInt v)) values).
Proof.
  intros Hb H. induction values as [|v rest IH]; [reflexivity|].
  cbn [possible_scan List.filter]. rewrite is_valid_entry_wf by assumption.
  cbn [rbind]. rewrite IH. cbn [rbind]. reflexivity.
Qed.

Lemma StronglySorted_filter_lt (f : Z -> bool) (l : list Z) :
  StronglySorted Z.lt l -> StronglySorted Z.lt (List.filter f l).
Proof.
  induction 1 as [|a l Hs IH Ha]; simpl; [constructor|].
  destruct (f a); [|assumption]. constructor; [assumption|].
  rewrite List.Forall_forall in *. intros x Hx.
  apply List.filter_In in Hx. now apply Ha.
Qed.

(** X8.  For a cell of a 9x9 grid [get_possible_values] returns, in
    strictly ascending order, the values 1..9 that [is_valid_entry]
    accepts at that cell. *)
Theorem get_possible_values_spec (b : board) (r c : Z) :
  wf9 b -> in_grid r c ->
  exists values,
    get_possible_values b r c = Ok values
    /\ StronglySorted Z.lt values
    /\ forall v, In v values <->
         1 <= v <= 9 /\ is_valid_entry b r c (PInt v) = Ok true.
Proof.
  intros Hb H. unfold get_possible_values.
  rewrite possible_scan_wf by assumption.
  eexists. split; [reflexivity|]. split.
  - apply StronglySorted_filter_lt.
    change (py_range 1 10) with [1; 2; 3; 4; 5; 6; 7; 8; 9].
    repeat (constructor; [|repeat (constructor; [lia|]); constructor]).
    constructor.
  - intro v. rewrite List.filter_In, py_range_1_10.
    rewrite is_valid_entry_wf by assumption.
    split; intros [H1 H2]; split; congruence.
Qed.

Lemma get_possible_values_spec_witness :
  get_possible_values partial_board 0 2 = Ok [1; 2; 4]
  /\ exists values,
       get_possible_values partial_board 0 2 = Ok values
       /\ StronglySorted Z.lt values
       /\ forall v, In v values <->
            1 <= v <= 9 /\ is_valid_entry partial_board 0 2 (PInt v) = Ok true.
Proof.
  split; [vm_compute; reflexivity|].
  apply (get_possible_values_spec partial_board 0 2).
  - apply wf9_compute. vm_compute. reflexivity.
  - unfold in_grid. lia.
Defined.

(** X9.  At an empty cell of a 9x9 grid, the value that any completion of
    the grid holds there is one of [get_possible_values]; so when that list
    is empty for some empty cell, [fill_board] answers false and leaves the
    grid as it was. *)
Theorem get_possible_values_complete (e : pyval) (b : board) (r c : Z)
    (values : list Z) :
  wf9 b -> in_grid r c -> cellv b r c = e ->
  get_possible_values b r c = Ok values ->
  (forall s, filled_from e b s ->
     exists v, In v values /\ cellv s r c = PInt v)
  /\ (values = [] -> fill_board e b = (Ok false, b)).
Proof.
  intros Hb H He Hvals. unfold get_possible_values in Hvals.
  rewrite possible_scan_wf in Hvals by assumption.
  assert (Ev : values = List.filter (fun v => entry_free b r c (PInt v))
                          (py_range 1 10)) by congruence.
  clear Hvals.
  assert (Hsol : forall s, filled_from e b s ->
            exists v, In v values /\ cellv s r c = PInt v).
  { intros s Hs. pose proof (filled_from_free b s e r c H He Hs) as Hfree.
    destruct Hs as (_ & _ & _ & Hp). destruct (Hp r c H He) as [Hd _].
    apply is_digit_spec in Hd. destruct Hd as (d & Hd & Hsd).
    exists d. split; [|assumption]. rewrite Ev.
    apply List.filter_In. split; [now apply py_range_1_10|]. now rewrite <- Hsd. }
  split; [assumption|].
  intro Hnil. destruct (fill_board_spec e b Hb) as [[Hout _]|[g [_ Hg]]];
    [assumption|].
  destruct (Hsol g Hg) as (v & Hin & _). rewrite Hnil in Hin. destruct Hin.
Qed.

Lemma get_possible_values_complete_witness :
  get_possible_values dead_cell_board 0 8 = Ok []
  /\ fill_board (PInt 0) dead_cell_board = (Ok false, dead_cell_board).
Proof.
  split; [vm_compute; reflexivity|].
  apply (get_possible_values_complete (PInt 0) dead_cell_board 0 8 []).
  - apply wf9_compute. vm_compute. reflexivity.
  - unfold in_grid. lia.
  - reflexivity.
  - vm_compute. reflexivity.
  - reflexivity.
Defined.

(** X10.  When [fill_board] answers true on a 9x9 grid that passes
    [is_valid_board], the grid it leaves is 9x9, has no empty cell, passes
    [is_valid_board], and agrees with the given grid on every cell that
    was not empty. *)
Theorem fill_board_sound (e : pyval) (b g : board) :
  wf9 b -> fst (is_valid_board e b) = Ok true ->
  fill_board e b = (Ok true, g) ->
  wf9 g /\ complete e g /\ extends e b g
  /\ is_valid_board e g = (Ok true, g).
Proof.
  intros Hb Hv Hrun. apply legal_compute in Hv; [|assumption].
  destruct (fill_board_spec e b Hb) as [[Hout _]|[g' [Hout Hg]]];
    [congruence|].
  assert (g' = g) by congruence. subst g'.
  pose proof Hg as (Hwf & Hc & Hx & _).
  split; [assumption|]. split; [assumption|]. split; [assumption|].
  apply is_valid_board_legal; [assumption|].
  now apply (filled_from_legal e b).
Qed.

Lemma fill_board_sound_witness :
  exists g,
    fill_board (PInt 0) partial_board = (Ok true, g)
    /\ wf9 g /\ complete (PInt 0) g /\ extends (PInt 0) partial_board g
    /\ is_valid_board (PInt 0) g = (Ok true, g).
Proof.
  eexists. split; [vm_compute; reflexivity|].
  apply (fill_board_sound (PInt 0) partial_board).
  - apply wf9_compute. vm_compute. reflexivity.
  - vm_compute. reflexivity.
  - vm_compute. reflexivity.
Defined.

Lemma given_digits_spec (e : pyval) (b : board) (r c : Z) :
  given_digits e b = true -> in_grid r c -> cellv b r c <> e ->
  is_digit (cellv b r c) = true.
Proof.
  intros Hd Hrc Hne. unfold given_digits in Hd.
  apply all_cells_spec with (r := r) (c := c) in Hd; [|assumption].
  cbn beta in Hd. apply pyval_eqb_neq in Hne. rewrite Hne in Hd. exact Hd.
Qed.

(** The completions the search can reach from a legal grid whose given
    cells are digits are the solved grids that agree with its given
    cells. *)
Lemma filled_from_iff_solved (e : pyval) (b s : board) :
  wf9 b -> legal e b -> given_digits e b = true -> is_digit e = false ->
  filled_from e b s <-> solved s /\ extends e b s.
Proof.
  intros Hb Hl Hd He. split.
  - intro Hs. pose proof Hs as (Hwf & Hc & Hx & Hp).
    split; [|assumption]. split; [assumption|]. split.
    + intros r c Hrc. destruct (pyval_eqb (cellv b r c) e) eqn:E.
      * apply pyval_eqb_eq in E. now destruct (Hp r c Hrc E).
      * apply pyval_eqb_neq in E. rewrite (Hx r c Hrc E).
        now apply (given_digits_spec e).
    + intros r c r' c' Hrc Hrc' Hne Hrel.
      pose proof (filled_from_legal e b s Hl Hs) as Hls.
      apply (Hls r' c' r c); auto.
      now rewrite related_sym.
  - intros [Hs Hx]. now apply solved_filled_from.
Qed.

(** X11.  On a 9x9 grid that passes [is_valid_board] and whose given
    cells are digits (the sentinel not being one), [fill_board] answers
    true exactly when some solved grid agrees with the given cells; when it
    answers false the grid is left as it was. *)
Theorem fill_board_true_iff_solvable (e : pyval) (b : board) :
  wf9 b -> fst (is_valid_board e b) = Ok true ->
  given_digits e b = true -> is_digit e = false ->
  (fst (fill_board e b) = Ok true <-> exists s, solved s /\ extends e b s)
  /\ (fst (fill_board e b) = Ok true \/ fill_board e b = (Ok false, b)).
Proof.
  intros Hb Hv Hd He. apply legal_compute in Hv; [|assumption].
  destruct (fill_board_spec e b Hb) as [[Hout Hno]|[g [Hout Hg]]];
    rewrite Hout; cbn [fst].
  - split; [|now right]. split; [discriminate|].
    intros [s Hs]. exfalso. apply Hno. exists s.
    now apply filled_from_iff_solved.
  - split; [|now left]. split; [|reflexivity].
    intros _. exists g. now apply filled_from_iff_solved.
Qed.

Lemma fill_board_true_iff_solvable_witness :
  (fst (fill_board (PInt 0) dead_cell_board) = Ok true
   <-> exists s, solved s /\ extends (PInt 0) dead_cell_board s)
  /\ (fst (fill_board (PInt 0) dead_cell_board) = Ok true
      \/ fill_board (PInt 0) dead_cell_board = (Ok false, dead_cell_board)).
Proof.
  apply (fill_board_true_iff_solvable (PInt 0) dead_cell_board).
  - apply wf9_compute. vm_compute. reflexivity.
  - vm_compute. reflexivity.
  - vm_compute. reflexivity.
  - reflexivity.
Defined.

(** X12.  The recursion of [fill_board] and of [count_solutions] on a 9x9
    grid is never deeper than the number of empty cells plus one: any
    amount of fuel above the number of empty cells gives the run of the
    function, which ends with an answer. *)
Theorem search_depth_bound (e : pyval) (limit : Z) (fuel : nat) (b : board) :
  wf9 b -> (count_empty e b < fuel)%nat ->
  fill_board_rec fuel e b = fill_board e b
  /\ count_solutions_rec fuel limit e b = count_solutions limit e b
  /\ (exists ok g, fill_board e b = (Ok ok, g))
  /\ (exists n, count_solutions limit e b = (Ok n, b)).
Proof.
  intros Hb Hlt.
  split; [now apply fill_board_rec_enough|].
  split; [now apply count_solutions_rec_enough|]. split.
  - destruct (fill_board_total e b Hb) as (ok & g & H & _). eauto.
  - destruct (count_solutions_spec limit e b Hb) as (n & H & _). eauto.
Qed.

Lemma search_depth_bound_witness :
  fill_board_rec 82 (PInt 0) partial_board = fill_board (PInt 0) partial_board
  /\ count_solutions_rec 82 2 (PInt 0) partial_board
     = count_solutions 2 (PInt 0) partial_board
  /\ (exists ok g, fill_board (PInt 0) partial_board = (Ok ok, g))
  /\ (exists n, count_solutions 2 (PInt 0) partial_board
                = (Ok n, partial_board)).
Proof.
  apply (search_depth_bound (PInt 0) 2 82 partial_board).
  - apply wf9_compute. vm_compute. reflexivity.
  - vm_compute. lia.
Defined.

(** * What the solution counter counts *)

Lemma count_of_ext (Q Q' : board -> Prop) (n : Z) :
  (forall s, Q s <-> Q' s) -> count_of Q n -> count_of Q' n.
Proof.
  intros Hext [[Hn Hno]|[[Hn (s & Hs & Hu)]|[Hn (s1 & s2 & H1 & H2 & Hd)]]].
  - left. split; [assumption|]. intros [s Hs]. apply Hno. exists s.
    now apply Hext.
  - right. left. split; [assumption|]. exists s. split; [now apply Hext|].
    intros s' Hs'. apply Hu. now apply Hext.
  - right. right. split; [assumption|]. exists s1, s2.
    split; [now apply Hext|]. split; [now apply Hext|assumption].
Qed.

Lemma count_of_nonneg (Q : board -> Prop) (n : Z) : count_of Q n -> 0 <= n.
Proof. intros [[-> _]|[[-> _]|[Hn _]]]; lia. Qed.

Lemma count_of_two_more (Q Q' : board -> Prop) (n n' : Z) :
  (forall s, Q s -> Q' s) -> 2 <= n -> 2 <= n' ->
  count_of Q n -> count_of Q' n'.
Proof.
  intros Hsub Hn Hn' [[-> _]|[[-> _]|[_ (s1 & s2 & H1 & H2 & Hd)]]];
    try lia.
  right. right. split; [assumption|]. exists s1, s2. auto.
Qed.

Lemma count_of_add (Q1 Q2 : board -> Prop) (n1 n2 : Z) :
  (forall s, Q1 s -> Q2 s -> False) ->
  count_of Q1 n1 -> count_of Q2 n2 ->
  count_of (fun s => Q1 s \/ Q2 s) (n1 + n2).
Proof.
  intros Hdis
    [[-> Hno1]|[[-> (s1 & Hs1 & Hu1)]|[Hn1 (a1 & a2 & Ha1 & Ha2 & Had)]]]
    [[-> Hno2]|[[-> (s2 & Hs2 & Hu2)]|[Hn2 (b1 & b2 & Hb1 & Hb2 & Hbd)]]].
  - left. split; [reflexivity|]. intros [s [Hs|Hs]]; eauto.
  - right. left. split; [reflexivity|]. exists s2. split; [now right|].
    intros s' [Hs'|Hs']; [exfalso; eauto|now apply Hu2].
  - right. right. split; [lia|]. exists b1, b2. auto.
  - right. left. split; [reflexivity|]. exists s1. split; [now left|].
    intros s' [Hs'|Hs']; [now apply Hu1|exfalso; eauto].
  - right. right. split; [lia|]. exists s1, s2.
    split; [now left|]. split; [now right|].
    intros ->. eauto.
  - right. right. split; [lia|]. exists b1, b2. auto.
  - right. right. split; [lia|]. exists a1, a2. auto.
  - right. right. split; [lia|]. exists a1, a2. auto.
  - right. right. split; [lia|]. exists a1, a2. auto.
Qed.

(** The completions of a grid with [v] placed at an empty cell are the
    completions of the grid that hold [v] there. *)
Lemma filled_from_placed_iff (b s : board) (e : pyval) (r c v : Z) :
  wf9 b -> in_grid r c -> cellv b r c = e -> 1 <= v <= 9 ->
  entry_free b r c (PInt v) = true ->
  filled_from e (upd b r c (PInt v)) s
  <-> filled_from e b s /\ cellv s r c = PInt v.
Proof.
  intros Hb H He Hv Hfree. split.
  - intro Hs. split.
    + apply (filled_from_unplace b s e (PInt v) r c); auto. simpl. lia.
    + destruct Hs as (_ & _ & Hx & _). rewrite (Hx r c H).
      * now apply cellv_upd_same.
      * rewrite cellv_upd_same by assumption.
        eapply entry_free_not_empty; eauto.
  - intros [Hs Hsv]. rewrite <- Hsv. now apply filled_from_place.
Qed.

Section CountMeaning.
Variables (limit : Z) (e : pyval) (rec : M Z) (b : board) (r c : Z).
Hypothesis Hb : wf9 b.
Hypothesis Hrc : in_grid r c.
Hypothesis He : cellv b r c = e.
Hypothesis Hlimit : 2 <= limit.
Hypothesis Hrec : forall v, entry_free b r c (PInt v) = true ->
  exists n, rec (upd b r c (PInt v)) = (Ok n, upd b r c (PInt v))
            /\ count_of (filled_from e (upd b r c (PInt v))) n.

Lemma count_candidates_meaning (nums done : list Z) (count : Z) :
  List.NoDup (done ++ nums) ->
  (forall v, In v nums -> 1 <= v <= 9) ->
  count_of (fun s => filled_from e b s
                     /\ exists v, In v done /\ cellv s r c = PInt v) count ->
  exists n,
    count_candidates rec limit e r c nums count b = (Ok n, b)
    /\ count_of (fun s => filled_from e b s
                          /\ exists v, In v (done ++ nums)
                                       /\ cellv s r c = PInt v) n.
Proof.
  revert done count.
  induction nums as [|num rest IH]; intros done count Hnd Hdig Hcount.
  - exists count. split; [reflexivity|]. now rewrite app_nil_r.
  - assert (Hnum : ~ In num done).
    { intro Hin. apply List.NoDup_remove_2 in Hnd. apply Hnd.
      apply in_or_app. now left. }
    assert (Hnd' : List.NoDup ((done ++ [num]) ++ rest))
      by (now rewrite <- app_assoc).
    assert (Hdig' : forall v, In v rest -> 1 <= v <= 9)
      by (intros v Hv; apply Hdig; now right).
    assert (Hstep : forall m,
              count_of (fun s => filled_from e b s /\ cellv s r c = PInt num) m ->
              count_of (fun s => filled_from e b s
                          /\ exists v, In v (done ++ [num])
                                       /\ cellv s r c = PInt v) (count + m)).
    { intros m Hm.
      apply (count_of_ext
               (fun s => (filled_from e b s
                          /\ exists v, In v done /\ cellv s r c = PInt v)
                         \/ (filled_from e b s /\ cellv s r c = PInt num))).
      - intro s. split.
        + intros [[Hs (v & Hv & Hsv)]|[Hs Hsv]]; split; try assumption.
          * exists v. split; [apply in_or_app; now left|assumption].
          * exists num. split; [apply in_or_app; right; now left|assumption].
        + intros [Hs (v & Hv & Hsv)]. apply in_app_or in Hv.
          destruct Hv as [Hv|[<-|[]]]; [left|right]; eauto.
      - apply count_of_add; [|assumption|assumption].
        intros s [_ (v & Hv & Hsv)] [_ Hsn].
        assert (v = num) by congruence. subst v. contradiction. }
    replace (done ++ num :: rest) with ((done ++ [num]) ++ rest)
      by (now rewrite <- app_assoc).
    destruct (entry_free b r c (PInt num)) eqn:Hfree.
    + rewrite count_candidates_free by assumption.
      destruct (Hrec num Hfree) as (m & Hout & Hm). rewrite Hout.
      rewrite bind_write_cell by (apply wf9_upd || assumption).
      rewrite (upd_refill b e (PInt num) r c) by assumption.
      assert (Hm' : count_of (fun s => filled_from e b s
                                       /\ cellv s r c = PInt num) m).
      { apply (count_of_ext (filled_from e (upd b r c (PInt num))));
          [|assumption].
        intro s. apply filled_from_placed_iff; auto.
        apply Hdig. now left. }
      specialize (Hstep m Hm').
      destruct (Z.leb_spec limit (count + m)).
      * exists (count + m). split; [reflexivity|].
        apply (count_of_two_more
                 (fun s => filled_from e b s
                    /\ exists v, In v (done ++ [num]) /\ cellv s r c = PInt v)
                 _ (count + m) (count + m)); try lia; [|assumption].
        intros s [Hs (v & Hv & Hsv)]. split; [assumption|].
        exists v. split; [apply in_or_app; now left|assumption].
      * now apply IH.
    + rewrite count_candidates_taken by assumption.
      apply IH; try assumption.
      replace count with (count + 0) by lia. apply Hstep.
      left. split; [reflexivity|].
      intros [s [Hs Hsv]].
      pose proof (filled_from_free b s e r c Hrc He Hs) as Hfs.
      congruence.
Qed.
End CountMeaning.

Lemma count_solutions_rec_meaning (limit : Z) (e : pyval) (fuel : nat)
    (b : board) :
  2 <= limit -> wf9 b -> (count_empty e b < fuel)%nat ->
  exists n, count_solutions_rec fuel limit e b = (Ok n, b)
            /\ count_of (filled_from e b) n.
Proof.
  intro Hlimit. revert b.
  induction fuel as [|fuel IH]; intros b Hb Hlt; [lia|].
  cbn [count_solutions_rec]. rewrite bind_reading.
  destruct (get_empty_total b e Hb) as [[[r c]|] Hget]; rewrite Hget.
  - destruct (get_empty_some b e r c Hb Hget) as [Hrc He].
    destruct (count_candidates_meaning limit e
                (count_solutions_rec fuel limit e) b r c Hb Hrc He Hlimit)
      with (nums := py_range 1 10) (done := @nil Z) (count := 0)
      as (n & Hout & Hn).
    + intros v Hfree. apply IH; [apply wf9_upd|].
      assert (Hv : PInt v <> e) by (eapply entry_free_not_empty; eauto).
      rewrite (count_empty_fill b e (PInt v) r c) in Hlt by assumption. lia.
    + apply distinct_NoDup. vm_compute. reflexivity.
    + intros v Hv. now apply py_range_1_10.
    + left. split; [reflexivity|]. intros (s & _ & v & [] & _).
    + exists n. split; [assumption|].
      eapply count_of_ext; [|exact Hn].
      intro s. cbn [app]. split; [tauto|].
      intro Hs. split; [assumption|].
      pose proof Hs as (_ & _ & _ & Hp). destruct (Hp r c Hrc He) as [Hd _].
      apply is_digit_spec in Hd. destruct Hd as (d & Hd & Hsd).
      exists d. split; [now apply py_range_1_10|assumption].
  - exists 1. split; [reflexivity|]. right. left. split; [reflexivity|].
    pose proof (get_empty_none b e Hb Hget) as Hc.
    exists b. split; [now apply filled_from_refl|].
    intros s' (Hwf & _ & Hx & _). apply board_ext; auto.
Qed.

Lemma count_of_cases (Q : board -> Prop) (n : Z) :
  count_of Q n ->
  (n = 0 <-> ~ exists s, Q s)
  /\ (n = 1 <-> exists s, Q s /\ forall s', Q s' -> s' = s)
  /\ (2 <= n <-> exists s1 s2, Q s1 /\ Q s2 /\ s1 <> s2).
Proof.
  intros [[-> Hno]|[[-> (s & Hs & Hu)]|[Hn (s1 & s2 & H1 & H2 & Hd)]]].
  - split; [tauto|]. split; split; try lia.
    + intros (s & Hs & _). exfalso. eauto.
    + intros (s1 & s2 & H1 & _). exfalso. eauto.
  - split; [|split].
    + split; [lia|]. intro Hno. exfalso. eauto.
    + split; [eauto|reflexivity].
    + split; [lia|]. intros (s1 & s2 & H1 & H2 & Hd). exfalso.
      apply Hd. rewrite (Hu s1 H1), (Hu s2 H2). reflexivity.
  - split; [|split].
    + split; [lia|]. intro Hno. exfalso. eauto.
    + split; [lia|]. intros (s & Hs & Hu). exfalso.
      apply Hd. rewrite (Hu s1 H1), (Hu s2 H2). reflexivity.
    + split; eauto.
Qed.

(** X13.  On a 9x9 grid that passes [is_valid_board] and whose given
    cells are digits (the sentinel not being one), [count_solutions] with
    a limit of 2 or more tells the solved grids that agree with the given
    cells apart: it returns 0 exactly when there is none, 1 exactly when
    there is exactly one, and 2 or more exactly when there are at least
    two. *)
Theorem count_solutions_meaning (limit : Z) (e : pyval) (b : board) :
  2 <= limit -> wf9 b -> fst (is_valid_board e b) = Ok true ->
  given_digits e b = true -> is_digit e = false ->
  exists n,
    count_solutions limit e b = (Ok n, b)
    /\ (n = 0 <-> ~ exists s, solved s /\ extends e b s)
    /\ (n = 1 <-> exists s, (solved s /\ extends e b s)
                            /\ forall s', solved s' /\ extends e b s' -> s' = s)
    /\ (2 <= n <-> exists s1 s2, (solved s1 /\ extends e b s1)
                                 /\ (solved s2 /\ extends e b s2) /\ s1 <> s2).
Proof.
  intros Hlimit Hb Hv Hd He. apply legal_compute in Hv; [|assumption].
  destruct (count_solutions_rec_meaning limit e (S (count_empty e b)) b
              Hlimit Hb) as (n & Hout & Hn); [lia|].
  exists n. split; [exact Hout|].
  apply count_of_cases.
  eapply count_of_ext; [|exact Hn].
  intro s. now apply filled_from_iff_solved.
Qed.

Lemma count_solutions_meaning_witness :
  exists n,
    count_solutions 2 (PInt 0) three_way_board = (Ok n, three_way_board)
    /\ (n = 0 <-> ~ exists s, solved s /\ extends (PInt 0) three_way_board s)
    /\ (n = 1 <-> exists s, (solved s /\ extends (PInt 0) three_way_board s)
                            /\ forall s', solved s'
                                 /\ extends (PInt 0) three_way_board s'
                                 -> s' = s)
    /\ (2 <= n <-> exists s1 s2,
                     (solved s1 /\ extends (PInt 0) three_way_board s1)
                     /\ (solved s2 /\ extends (PInt 0) three_way_board s2)
                     /\ s1 <> s2).
Proof.
  apply (count_solutions_meaning 2 (PInt 0) three_way_board).
  - lia.
  - apply wf9_compute. vm_compute. reflexivity.
  - vm_compute. reflexivity.
  - vm_compute. reflexivity.
  - reflexivity.
Defined.

(** * Further properties of the generator *)

Lemma all_cells_intro (P : Z -> Z -> bool) :
  (forall r c, in_grid r c -> P r c = true) -> all_cells P = true.
Proof.
  intro H. unfold all_cells. apply forallb_forall.
  intros [r c] Hin. apply in_cells9 in Hin. now apply H.
Qed.

Lemma seed_board_keeps (s : board) (seeds : list (Z * Z)) (b b' : board) :
  wf9 b ->
  (forall cv, In cv seeds ->
     0 <= fst cv < 9 /\ cellv s 0 (fst cv) = PInt (snd cv)) ->
  seed_board seeds b = Ok b' ->
  (forall r c, in_grid r c -> cellv b r c = cellv s r c ->
     cellv b' r c = cellv s r c)
  /\ (forall cv, In cv seeds -> cellv b' 0 (fst cv) = PInt (snd cv)).
Proof.
  revert b. induction seeds as [|[col v] rest IH]; intros b Hb Hs Hrun.
  - simpl in Hrun. injection Hrun as <-. split; [auto|]. intros cv [].
  - destruct (Hs (col, v) (or_introl eq_refl)) as [Hcol Hv].
    cbn [fst snd] in Hcol, Hv.
    assert (H0 : in_grid 0 col) by (unfold in_grid; lia).
    cbn [seed_board] in Hrun. rewrite set_cell_wf in Hrun by assumption.
    cbn [rbind] in Hrun.
    destruct (IH (upd b 0 col (PInt v)) (wf9_upd _ _ _ _)
                (fun cv Hin => Hs cv (or_intror Hin)) Hrun) as [Hkeep Hset].
    assert (Hkeep' : forall r c, in_grid r c -> cellv b r c = cellv s r c ->
                       cellv b' r c = cellv s r c).
    { intros r c Hrc Heq. apply Hkeep; [assumption|].
      rewrite cellv_upd by assumption.
      destruct ((r =? 0) && (c =? col)) eqn:E; [|assumption].
      apply andb_prop in E. destruct E as [E1 E2].
      apply Z.eqb_eq in E1, E2. subst. now rewrite Hv. }
    split; [assumption|].
    intros cv [<-|Hin]; [|now apply Hset]. cbn [fst snd].
    rewrite <- Hv. apply Hkeep; [assumption|].
    rewrite cellv_upd_same by assumption. now rewrite Hv.
Qed.

(** What every returned pair of [generate] satisfies, for both policies. *)
Lemma generate_output (fuel : nat) (g : rng) (total : Z) (unique : bool)
    (e : pyval) (puzzle solution : board) :
  rng_ok g -> is_digit e = false ->
  generate fuel g total unique e = Ok (puzzle, solution) ->
  wf9 puzzle /\ solved solution /\ extends e puzzle solution
  /\ legal e puzzle /\ given_digits e puzzle = true
  /\ (forall cv, In cv (combine (sample_cells g) (sample_values g)) ->
        cellv solution 0 (fst cv) = PInt (snd cv))
  /\ (unique = true -> count_solutions 2 e puzzle = (Ok 1, puzzle)).
Proof.
  intros Hg He Hrun.
  pose proof (generate_ok_range _ _ _ _ _ _ Hrun) as Ht.
  pose proof Hg as (_ & _ & Hrand).
  destruct (seeds_agree g Hg) as [Hran Hsig].
  set (seeds := combine (sample_cells g) (sample_values g)) in *.
  pose proof (solved_solution_for seeds Hran) as Hsol.
  destruct base_facts as (_ & _ & Hrow0).
  assert (Hseeds : forall cv, In cv seeds ->
            0 <= fst cv < 9
            /\ cellv (solution_for seeds) 0 (fst cv) = PInt (snd cv)).
  { intros cv Hin. destruct (Hran cv Hin) as [Hc _]. split; [assumption|].
    unfold solution_for. rewrite cellv_board_of by (unfold in_grid; lia).
    rewrite Hrow0 by assumption. now rewrite Hsig. }
  assert (Hb0 : wf9 (repeat (repeat e 9%nat) 9%nat)).
  { change (repeat (repeat e 9%nat) 9%nat) with (board_of (fun _ _ => e)).
    apply wf9_board_of. }
  destruct (seed_board_spec e (solution_for seeds) seeds
              (repeat (repeat e 9%nat) 9%nat) Hb0 Hseeds)
    as (seeded & Hseed & Hwf & Hcells).
  { intros r c Hrc. left.
    change (repeat (repeat e 9%nat) 9%nat) with (board_of (fun _ _ => e)).
    now rewrite cellv_board_of. }
  destruct (seed_board_keeps (solution_for seeds) seeds _ seeded Hb0 Hseeds
              Hseed) as [_ Hset].
  assert (Hx : extends e seeded (solution_for seeds)).
  { intros r c Hrc Hne. destruct (Hcells r c Hrc); congruence. }
  assert (Hcs : complete e (solution_for seeds)).
  { intros r c Hrc Heq. destruct Hsol as (_ & Hd & _).
    specialize (Hd r c Hrc). congruence. }
  assert (Hls : legal e seeded).
  { apply (extends_legal e seeded (solution_for seeds)); auto.
    now apply solved_legal. }
  assert (Hds : given_digits e seeded = true).
  { apply all_cells_intro. intros r c Hrc.
    destruct (Hcells r c Hrc) as [E|E]; rewrite E.
    - now rewrite pyval_eqb_refl.
    - destruct Hsol as (_ & Hd & _). rewrite (Hd r c Hrc).
      now rewrite orb_true_r. }
  destruct (generate_filled g e Hg He) as
    (seeded' & filled & Hseed' & Hfill & Hwff & Hcf & Hlf).
  fold seeds in Hseed'.
  assert (seeded' = seeded) by congruence. subst seeded'.
  assert (Hff : filled_from e seeded filled).
  { destruct (fill_board_spec e seeded Hwf) as [[Hout _]|[g' [Hout Hg']]];
      congruence. }
  destruct (proj1 (filled_from_iff_solved e seeded filled Hwf Hls Hds He) Hff)
    as [Hsf Hxf].
  unfold generate in Hrun.
  destruct (Z.ltb_spec 0 total); [|lia].
  destruct (Z.leb_spec total 81); [|lia]. cbn [andb negb] in Hrun.
  fold seeds in Hrun. rewrite Hseed in Hrun. cbn [rbind] in Hrun.
  rewrite Hfill in Hrun.
  assert (Hrow : forall cv, In cv seeds ->
            cellv filled 0 (fst cv) = PInt (snd cv)).
  { intros cv Hin. destruct (Hseeds cv Hin) as [Hc _].
    rewrite <- (Hset cv Hin). apply Hxf; [unfold in_grid; lia|].
    rewrite (Hset cv Hin). intro E.
    assert (Hd : is_digit (PInt (snd cv)) = true).
    { apply is_digit_spec. exists (snd cv). split; [|reflexivity].
      now destruct (Hran cv Hin). }
    congruence. }
  assert (Hpz : forall p, wf9 p -> extends e p filled ->
            legal e p /\ given_digits e p = true).
  { intros p Hp Hxp. split.
    - apply (extends_legal e p filled); auto.
    - apply all_cells_intro. intros r c Hrc.
      destruct (pyval_eqb (cellv p r c) e) eqn:E; [reflexivity|].
      apply pyval_eqb_neq in E. rewrite <- (Hxp r c Hrc E).
      destruct Hsf as (_ & Hd & _). now rewrite (Hd r c Hrc). }
  destruct unique.
  - destruct (create_unique_board_spec e (randint g) 0 total filled
                Hrand Hwff Hcf) as (n & st & Hst & _ & Hinv & _).
    rewrite Hst in Hrun. cbn [rbind] in Hrun.
    assert (E1 : cv_board st = puzzle) by congruence.
    assert (E2 : filled = solution) by congruence. subst.
    destruct Hinv as (Hp & Hxp & _ & _ & Hcount).
    destruct (Hpz _ Hp Hxp). repeat (split; [assumption|]).
    intros _. exact Hcount.
  - destruct (carve_loop fuel e (randint g) 0 total filled) as [p| |] eqn:Hc;
      try discriminate.
    cbn [rbind] in Hrun.
    assert (E1 : p = puzzle) by congruence.
    assert (E2 : filled = solution) by congruence. subst.
    destruct (carve_loop_spec _ _ _ _ _ _ _ Hrand Hwff Hc) as (Hp & Hxp & _).
    destruct (Hpz _ Hp Hxp). repeat (split; [assumption|]).
    intro; discriminate.
Qed.

Lemma carve_loop_no_raise (e : pyval) (rand : nat -> Z) (fuel : nat)
    (draws : nat) (total : Z) (b : board) (x : exn) :
  (forall i, 0 <= rand i <= 8) -> wf9 b ->
  carve_loop fuel e rand draws total b <> Raise x.
Proof.
  intro Hrand. revert draws total b.
  induction fuel as [|fuel IH]; intros draws total b Hb;
    cbn [carve_loop]; destruct (0 <? total); try discriminate.
  assert (Hrc : in_grid (rand draws) (rand (S draws))).
  { pose proof (Hrand draws). pose proof (Hrand (S draws)).
    unfold in_grid. lia. }
  rewrite get_cell_wf by assumption. cbn [rbind].
  destruct (pyval_eqb _ e); [now apply IH|].
  rewrite set_cell_wf by assumption. cbn [rbind].
  apply IH. apply wf9_upd.
Qed.

(** X14.  The pair returned by [generate] with [unique=True] is a puzzle
    with one solution: the returned solution is the only solved grid that
    agrees with the given cells of the puzzle, and [fill_board] run on the
    puzzle returns True having turned it into that solution. *)
Theorem generate_unique_solution (fuel : nat) (g : rng) (total : Z)
    (e : pyval) (puzzle solution : board) :
  rng_ok g -> is_digit e = false ->
  generate fuel g total true e = Ok (puzzle, solution) ->
  (forall s, solved s -> extends e puzzle s -> s = solution)
  /\ fill_board e puzzle = (Ok true, solution).
Proof.
  intros Hg He Hrun.
  destruct (generate_output _ _ _ _ _ _ _ Hg He Hrun)
    as (Hp & Hs & Hx & Hl & Hd & _ & Hone).
  specialize (Hone eq_refl).
  destruct (count_solutions_rec_meaning 2 e (S (count_empty e puzzle)) puzzle
              ltac:(lia) Hp ltac:(lia)) as (n & Hout & Hn).
  assert (En : n = 1).
  { unfold count_solutions in Hone. congruence. }
  subst n.
  assert (Huniq : forall s, filled_from e puzzle s -> s = solution).
  { destruct Hn as [[Hn _]|[(_ & s0 & _ & Hu)|[Hn _]]]; try lia.
    intros s Hfs. rewrite (Hu s Hfs). symmetry. apply Hu.
    now apply solved_filled_from. }
  split.
  - intros s Hss Hxs. apply Huniq. now apply solved_filled_from.
  - destruct (fill_board_spec e puzzle Hp) as [[_ Hno]|[s [Hout' Hfs]]].
    + exfalso. apply Hno. exists solution. now apply solved_filled_from.
    + rewrite Hout'. now rewrite (Huniq s Hfs).
Qed.

Lemma generate_unique_solution_witness :
  exists puzzle solution,
    generate 0 stuck_rng 45 true (PInt 0) = Ok (puzzle, solution)
    /\ (forall s, solved s -> extends (PInt 0) puzzle s -> s = solution)
    /\ fill_board (PInt 0) puzzle = (Ok true, solution).
Proof.
  eexists. eexists. split; [vm_compute; reflexivity|].
  apply (generate_unique_solution 0 stuck_rng 45 (PInt 0)).
  - exact stuck_rng_ok.
  - reflexivity.
  - vm_compute. reflexivity.
Defined.

(** X15.  [generate] raises ValueError exactly when the requested number
    of empty cells is outside 1..81, and it never fails with an index
    error: every cell it reads or writes is inside the grid. *)
Theorem generate_value_error (fuel : nat) (g : rng) (total : Z)
    (unique : bool) (e : pyval) :
  rng_ok g -> is_digit e = false ->
  (generate fuel g total unique e = Raise ValueError <-> ~ 0 < total <= 81)
  /\ generate fuel g total unique e <> Raise IndexError.
Proof.
  intros Hg He. pose proof Hg as (_ & _ & Hrand).
  destruct (Z_lt_dec 0 total) as [H0|H0];
    [destruct (Z_le_dec total 81) as [H1|H1]|];
    try (rewrite generate_range_error by lia;
         split; [split; [lia|reflexivity]|discriminate]).
  destruct (generate_steps g e Hg He) as (filled & Hwf & Hc & _ & Hgen).
  rewrite (Hgen fuel total unique) by lia.
  assert (Hno : forall x,
            (if unique
             then let* st := create_unique_board e (randint g) 0 total filled
                  in Ok (cv_board st, filled)
             else let* puzzle := carve_loop fuel e (randint g) 0 total filled
                  in Ok (puzzle, filled)) <> Raise x).
  { intro x. destruct unique.
    - destruct (create_unique_board_spec e (randint g) 0 total filled
                  Hrand Hwf Hc) as (n & st & Hst & _).
      rewrite Hst. discriminate.
    - pose proof (carve_loop_no_raise e (randint g) fuel 0 total filled x
                    Hrand Hwf) as Hcl.
      destruct (carve_loop fuel e (randint g) 0 total filled);
        cbn [rbind]; congruence. }
  split; [|apply Hno]. split; [|lia]. intro H. now apply Hno in H.
Qed.

Lemma generate_value_error_witness :
  (generate 45 sweep_rng 82 false (PInt 0) = Raise ValueError
   <-> ~ 0 < 82 <= 81)
  /\ generate 45 sweep_rng 82 false (PInt 0) <> Raise IndexError.
Proof.
  apply (generate_value_error 45 sweep_rng 82 false (PInt 0)).
  - exact sweep_rng_ok.
  - reflexivity.
Defined.

(** X16.  Every puzzle returned by [generate], under either policy, is a
    playable grid: [is_valid_board] accepts it (and leaves it unchanged),
    and [fill_board] solves it, ending with a solved grid that agrees with
    the given cells of the puzzle. *)
Theorem generate_puzzle_solvable (fuel : nat) (g : rng) (total : Z)
    (unique : bool) (e : pyval) (puzzle solution : board) :
  rng_ok g -> is_digit e = false ->
  generate fuel g total unique e = Ok (puzzle, solution) ->
  is_valid_board e puzzle = (Ok true, puzzle)
  /\ exists s, fill_board e puzzle = (Ok true, s)
               /\ solved s /\ extends e puzzle s.
Proof.
  intros Hg He Hrun.
  destruct (generate_output _ _ _ _ _ _ _ Hg He Hrun)
    as (Hp & Hs & Hx & Hl & Hd & _).
  split; [now apply is_valid_board_legal|].
  destruct (fill_board_spec e puzzle Hp) as [[_ Hno]|[s [Hout Hfs]]].
  - exfalso. apply Hno. exists solution. now apply solved_filled_from.
  - exists s. split; [assumption|].
    now apply (filled_from_iff_solved e puzzle s).
Qed.

Lemma generate_puzzle_solvable_witness :
  exists puzzle,
    (exists solution,
       generate 45 sweep_rng 45 false (PInt 0) = Ok (puzzle, solution))
    /\ is_valid_board (PInt 0) puzzle = (Ok true, puzzle)
    /\ exists s, fill_board (PInt 0) puzzle = (Ok true, s)
                 /\ solved s /\ extends (PInt 0) puzzle s.
Proof.
  eexists. split; [eexists; vm_compute; reflexivity|].
  eapply (generate_puzzle_solvable 45 sweep_rng 45 false (PInt 0)).
  - exact sweep_rng_ok.
  - reflexivity.
  - vm_compute. reflexivity.
Defined.

(** X17.  The three values sampled at the start of [generate] end up in
    the top row of the returned solution, each in the column sampled with
    it; and every given cell of the puzzle is a digit 1..9. *)
Theorem generate_seeded_row (fuel : nat) (g : rng) (total : Z)
    (unique : bool) (e : pyval) (puzzle solution : board) :
  rng_ok g -> is_digit e = false ->
  generate fuel g total unique e = Ok (puzzle, solution) ->
  (forall col value,
     In (col, value) (combine (sample_cells g) (sample_values g)) ->
     get_cell solution 0 col = Ok (PInt value))
  /\ (forall r c, in_grid r c -> cellv puzzle r c <> e ->
        is_digit (cellv puzzle r c) = true).
Proof.
  intros Hg He Hrun.
  destruct (generate_output _ _ _ _ _ _ _ Hg He Hrun)
    as (Hp & Hs & Hx & Hl & Hd & Hrow & _).
  destruct (seeds_agree g Hg) as [Hran _].
  split.
  - intros col value Hin. destruct (Hran _ Hin) as [Hc _].
    cbn [fst] in Hc.
    assert (Hrc : in_grid 0 col) by (unfold in_grid; lia).
    rewrite get_cell_wf by (destruct Hs; assumption).
    f_equal. exact (Hrow _ Hin).
  - intros r c Hrc Hne. now apply (given_digits_spec e).
Qed.

Lemma generate_seeded_row_witness :
  exists puzzle solution,
    generate 45 sweep_rng 45 false (PInt 0) = Ok (puzzle, solution)
    /\ (forall col value, In (col, value) [(4, 9); (0, 2); (7, 5)] ->
          get_cell solution 0 col = Ok (PInt value))
    /\ (forall r c, in_grid r c -> cellv puzzle r c <> PInt 0 ->
          is_digit (cellv puzzle r c) = true).
Proof.
  eexists. eexists. split; [vm_compute; reflexivity|].
  apply (generate_seeded_row 45 sweep_rng 45 false (PInt 0)).
  - exact sweep_rng_ok.
  - reflexivity.
  - vm_compute. reflexivity.
Defined.

(** * The session object *)

Lemma in_range_grid (r c : Z) :
  sudoku_board.in_range r c = true <-> in_grid r c.
Proof. unfold sudoku_board.in_range, in_grid. lia. Qed.

Lemma in_range_false (r c : Z) :
  sudoku_board.in_range r c = false <-> ~ in_grid r c.
Proof. rewrite <- in_range_grid. now destruct (sudoku_board.in_range r c). Qed.

Lemma square_eqb_eq (p q : Z * Z) :
  sudoku_board.square_eqb p q = true <-> p = q.
Proof.
  destruct p, q. unfold sudoku_board.square_eqb. cbn [fst snd].
  rewrite andb_true_iff, !Z.eqb_eq. split; [intros []|intro E; inversion E];
    subst; auto.
Qed.

Lemma square_in_In (p : Z * Z) (l : list (Z * Z)) :
  sudoku_board.square_in p l = true <-> In p l.
Proof.
  unfold sudoku_board.square_in. rewrite existsb_exists. split.
  - intros [q [Hin E]]. apply square_eqb_eq in E. now subst.
  - intro Hin. exists p. split; [assumption|now apply square_eqb_eq].
Qed.

Lemma square_in_false (p : Z * Z) (l : list (Z * Z)) :
  sudoku_board.square_in p l = false <-> ~ In p l.
Proof.
  rewrite <- square_in_In. now destruct (sudoku_board.square_in p l).
Qed.

Lemma total_empty_squares_count (e : pyval) (b : board) :
  sudoku_board.total_empty_squares e b = Z.of_nat (count_empty e b).
Proof.
  unfold sudoku_board.total_empty_squares, count_empty.
  induction b as [|row b IH]; [reflexivity|].
  cbn [map fold_right concat]. rewrite IH, List.filter_app, length_app. lia.
Qed.

Lemma total_empty_squares_zero (e : pyval) (b : board) :
  wf9 b -> (sudoku_board.total_empty_squares e b = 0 <-> complete e b).
Proof.
  intro Hb. rewrite total_empty_squares_count. split.
  - intro H. apply count_empty_zero; [assumption|lia].
  - intro H. now rewrite count_empty_complete.
Qed.

Lemma in_squares_where (b : board) (keep : pyval -> bool) (r c : Z) :
  In (r, c) (squares_where b keep) <-> in_grid r c /\ keep (cellv b r c) = true.
Proof.
  unfold squares_where. rewrite List.filter_In, <- in_cells9. reflexivity.
Qed.

Lemma select_squares_wf (b : board) (keep : pyval -> bool)
    (cells : list (Z * Z)) :
  wf9 b -> (forall p, In p cells -> in_grid (fst p) (snd p)) ->
  sudoku_board.select_squares b keep cells
  = Ok (List.filter (fun p => keep (cellv b (fst p) (snd p))) cells).
Proof.
  intros Hb. induction cells as [|[r c] rest IH]; intro Hin; [reflexivity|].
  cbn [sudoku_board.select_squares List.filter fst snd].
  rewrite get_cell_wf by (assumption || apply (Hin (r, c)); now left).
  cbn [rbind]. rewrite IH by (intros p Hp; apply Hin; now right).
  reflexivity.
Qed.

Lemma select_squares_where (b : board) (keep : pyval -> bool) :
  wf9 b -> sudoku_board.select_squares b keep cells9 = Ok (squares_where b keep).
Proof.
  intro Hb. apply select_squares_wf; [assumption|].
  intros [r c] Hp. now apply in_cells9.
Qed.

Lemma validate_values_spec (e : pyval) (b : board) :
  wf9 b ->
  (sudoku_board.validate_values e b cells9 = Ok tt
   /\ given_digits e b = true)
  \/ (sudoku_board.validate_values e b cells9 = Raise ValueError
      /\ given_digits e b = false).
Proof.
  intro Hb. unfold given_digits, all_cells.
  assert (Hin : forall p, In p cells9 -> in_grid (fst p) (snd p)).
  { intros [r c] Hp. now apply in_cells9. }
  induction cells9 as [|[r c] rest IH]; [now left|].
  cbn [sudoku_board.validate_values forallb fst snd].
  rewrite get_cell_wf by (assumption || apply (Hin (r, c)); now left).
  cbn [rbind].
  destruct (pyval_eqb (cellv b r c) e); cbn [negb andb orb].
  - apply IH. intros p Hp. apply Hin. now right.
  - destruct (is_digit (cellv b r c)); cbn [negb andb].
    + apply IH. intros p Hp. apply Hin. now right.
    + now right.
Qed.

Lemma is_solved_version_spec (e : pyval) (u s : board) :
  wf9 u -> wf9 s ->
  (sudoku_board._is_solved_version e u s cells9 = Ok tt /\ extends e u s)
  \/ (sudoku_board._is_solved_version e u s cells9 = Raise ValueError
      /\ ~ extends e u s).
Proof.
  intros Hu Hs.
  assert (H : (sudoku_board._is_solved_version e u s cells9 = Ok tt
               /\ forall r c, In (r, c) cells9 -> cellv u r c <> e ->
                    cellv s r c = cellv u r c)
              \/ (sudoku_board._is_solved_version e u s cells9
                  = Raise ValueError
                  /\ exists r c, In (r, c) cells9 /\ cellv u r c <> e
                                 /\ cellv s r c <> cellv u r c)).
  { assert (Hin : forall p, In p cells9 -> in_grid (fst p) (snd p)).
    { intros [r c] Hp. now apply in_cells9. }
    induction cells9 as [|[r c] rest IH]; [left; split; [reflexivity|]|].
    - intros r c [].
    - assert (Hrc : in_grid r c) by (apply (Hin (r, c)); now left).
      cbn [sudoku_board._is_solved_version].
      rewrite !get_cell_wf by assumption. cbn [rbind].
      destruct (pyval_eqb (cellv u r c) e) eqn:E1; cbn [negb andb].
      + apply pyval_eqb_eq in E1.
        destruct IH as [[H1 H2]|[H1 (r' & c' & H2)]];
          [intros p Hp; apply Hin; now right| |].
        * left. split; [assumption|]. intros r' c' [E|Hp] Hne.
          -- inversion E; subst. congruence.
          -- now apply H2.
        * right. split; [assumption|]. exists r', c'.
          split; [now right|tauto].
      + apply pyval_eqb_neq in E1.
        destruct (pyval_eqb (cellv u r c) (cellv s r c)) eqn:E2;
          cbn [negb].
        * apply pyval_eqb_eq in E2.
          destruct IH as [[H1 H2]|[H1 (r' & c' & H2)]];
            [intros p Hp; apply Hin; now right| |].
          -- left. split; [assumption|]. intros r' c' [E|Hp] Hne.
             ++ inversion E; subst. congruence.
             ++ now apply H2.
          -- right. split; [assumption|]. exists r', c'.
             split; [now right|tauto].
        * apply pyval_eqb_neq in E2. right. split; [reflexivity|].
          exists r, c. split; [now left|]. split; congruence. }
  destruct H as [[H1 H2]|[H1 (r & c & Hp & Hne & Hd)]].
  - left. split; [assumption|]. intros r c Hrc. apply H2.
    now apply in_cells9.
  - right. split; [assumption|]. intro Hx. apply Hd. apply Hx; [|assumption].
    now apply in_cells9.
Qed.

(** In a solved grid every row holds every digit. *)
Lemma solved_row_has_digit (s : board) (r v : Z) :
  solved s -> 0 <= r < 9 -> 1 <= v <= 9 ->
  exists c, 0 <= c < 9 /\ cellv s r c = PInt v.
Proof.
  intros (Hs & Hd & Hu) Hr Hv.
  set (vals := map (fun c => cellv s r c) (py_range 0 9)).
  assert (Hnd : List.NoDup vals).
  { apply List.NoDup_map_NoDup_ForallPairs.
    - intros a b Ha Hb Heq. apply py_range_0_9 in Ha, Hb.
      destruct (Z.eq_dec a b) as [|Hne]; [assumption|]. exfalso.
      apply (Hu r b r a); unfold in_grid; try lia.
      + intro E. inversion E. congruence.
      + unfold related. now rewrite Z.eqb_refl.
      + assumption.
    - apply distinct_NoDup. reflexivity. }
  assert (Hincl : List.incl vals (map PInt (py_range 1 10))).
  { intros x Hx. apply in_map_iff in Hx. destruct Hx as (c & <- & Hc).
    apply py_range_0_9 in Hc.
    destruct (proj1 (is_digit_spec (cellv s r c))
                (Hd r c ltac:(unfold in_grid; lia))) as (d & Hd1 & ->).
    apply in_map. now apply py_range_1_10. }
  assert (Hin : In (PInt v) vals).
  { assert (Hle : (length (map PInt (py_range 1 10)) <= length vals)%nat).
    { unfold vals. rewrite !length_map. reflexivity. }
    apply (List.NoDup_length_incl Hnd Hle Hincl).
    apply in_map. now apply py_range_1_10. }
  apply in_map_iff in Hin. destruct Hin as (c & Hc & Hin).
  exists c. split; [now apply py_range_0_9|assumption].
Qed.

Lemma solved_legal_complete (e : pyval) (s : board) :
  wf9 s -> legal e s -> complete e s -> given_digits e s = true -> solved s.
Proof.
  intros Hs Hl Hc Hd. split; [assumption|]. split.
  - intros r c Hrc. apply (given_digits_spec e); auto.
  - intros r c r' c' Hrc Hrc' Hne Hrel Heq.
    apply (Hl r c r' c'); auto.
Qed.

(** The empty indicator of a complete solved grid is not a digit. *)
Lemma solved_complete_indicator (e : pyval) (s : board) :
  solved s -> complete e s -> is_digit e = false.
Proof.
  intros Hs Hc. destruct (is_digit e) eqn:E; [|reflexivity]. exfalso.
  apply is_digit_spec in E. destruct E as (v & Hv & ->).
  destruct (solved_row_has_digit s 0 v Hs ltac:(lia) Hv) as (c & Hcr & Hcell).
  apply (Hc 0 c); [unfold in_grid; lia|assumption].
Qed.

Lemma class_is_valid_board_outcome (e : pyval) (expected : option Z)
    (b : board) :
  wf9 b ->
  (legal e b
   /\ sudoku_board.is_valid_board e expected b
      = (Ok match expected with
            | Some n => sudoku_board.total_empty_squares e b =? n
            | None => true
            end, b))
  \/ (~ legal e b
      /\ exists r c, in_grid r c /\ cellv b r c <> e
           /\ sudoku_board.is_valid_board e expected b
              = (Ok false, upd b r c e)).
Proof.
  intro Hb. unfold sudoku_board.is_valid_board. rewrite bind_reading.
  unfold bind.
  destruct (is_valid_board_outcome e b Hb) as [H|(r & c & Hrc & Hne & H)].
  - left. split; [apply legal_compute; [assumption|now rewrite H]|].
    rewrite H. reflexivity.
  - right. split.
    + intro Hl. rewrite is_valid_board_legal in H by assumption. discriminate.
    + exists r, c. split; [assumption|]. split; [assumption|].
      rewrite H. reflexivity.
Qed.

Lemma validate_input_boards_wf (e : pyval) (is_solved : bool) (b : board) :
  wf9 b ->
  sudoku_board._validate_input_boards e is_solved b =
  match sudoku_board.is_valid_board e None b with
  | (Ok ok, b') =>
      if negb ok then (Raise ValueError, b')
      else if is_solved && negb (sudoku_board.total_empty_squares e b' =? 0)
           then (Raise ValueError, b')
           else (sudoku_board.validate_values e b' cells9, b')
  | (Raise x, b') => (Raise x, b')
  | (OutOfFuel, b') => (OutOfFuel, b')
  end.
Proof.
  intro Hb. unfold sudoku_board._validate_input_boards.
  rewrite wf9_shape_check by assumption.
  unfold bind at 1.
  destruct (sudoku_board.is_valid_board e None b) as [[ok| |] b'];
    try reflexivity.
  destruct ok; cbn [negb]; [|reflexivity].
  rewrite bind_reading.
  now destruct (is_solved && negb (sudoku_board.total_empty_squares e b' =? 0)).
Qed.

(** What [_validate_input_boards] accepts. *)
Lemma validate_input_boards_outcome (e : pyval) (is_solved : bool)
    (b : board) :
  (~ wf9 b
   /\ sudoku_board._validate_input_boards e is_solved b = (Raise IndexError, b))
  \/ (wf9 b /\ ~ legal e b
      /\ exists r c, in_grid r c /\ cellv b r c <> e
           /\ sudoku_board._validate_input_boards e is_solved b
              = (Raise ValueError, upd b r c e))
  \/ (wf9 b /\ legal e b
      /\ ~ ((is_solved = true -> complete e b) /\ given_digits e b = true)
      /\ sudoku_board._validate_input_boards e is_solved b
         = (Raise ValueError, b))
  \/ (wf9 b /\ legal e b /\ (is_solved = true -> complete e b)
      /\ given_digits e b = true
      /\ sudoku_board._validate_input_boards e is_solved b = (Ok tt, b)).
Proof.
  destruct (negb (Nat.eqb (length b) 9)
            || existsb (fun row => negb (Nat.eqb (length row) 9)) b) eqn:Hshape.
  - left. split.
    + intro Hb. rewrite wf9_shape_check in Hshape by assumption. discriminate.
    + unfold sudoku_board._validate_input_boards. now rewrite Hshape.
  - right. apply shape_check_wf9 in Hshape. rename Hshape into Hb.
    rewrite validate_input_boards_wf by assumption.
    destruct (class_is_valid_board_outcome e None b Hb)
      as [[Hl H]|(Hl & r & c & Hrc & Hne & H)]; rewrite H; cbn [negb].
    + right.
      destruct (is_solved && negb (sudoku_board.total_empty_squares e b =? 0))
        eqn:Hsol.
      * left. split; [assumption|]. split; [assumption|].
        split; [|reflexivity]. intros [Hc _].
        apply andb_prop in Hsol. destruct Hsol as [-> Hn].
        apply negb_true_iff, Z.eqb_neq in Hn. apply Hn.
        apply total_empty_squares_zero; [assumption|now apply Hc].
      * assert (Hc : is_solved = true -> complete e b).
        { intros ->. cbn [andb] in Hsol.
          apply negb_false_iff, Z.eqb_eq in Hsol.
          now apply total_empty_squares_zero. }
        destruct (validate_values_spec e b Hb) as [[Hv Hd]|[Hv Hd]];
          rewrite Hv.
        -- right. tauto.
        -- left. split; [assumption|]. split; [assumption|].
           split; [|reflexivity]. intros [_ Hd']. congruence.
    + left. split; [assumption|]. split; [assumption|].
      exists r, c. split; [assumption|]. split; [assumption|]. reflexivity.
Qed.

(** Every way a call of the constructor can end. *)
Lemma init_outcome (u s : board) (e : pyval) :
  (~ wf9 u /\ sudoku_board.init u s e = (Raise IndexError, (u, s)))
  \/ (wf9 u /\ ~ legal e u
      /\ exists r c, in_grid r c /\ cellv u r c <> e
           /\ sudoku_board.init u s e = (Raise ValueError, (upd u r c e, s)))
  \/ (wf9 u /\ legal e u /\ given_digits e u <> true
      /\ sudoku_board.init u s e = (Raise ValueError, (u, s)))
  \/ (wf9 u /\ legal e u /\ given_digits e u = true
      /\ ((~ wf9 s /\ sudoku_board.init u s e = (Raise IndexError, (u, s)))
          \/ (wf9 s /\ ~ legal e s
              /\ exists r c, in_grid r c /\ cellv s r c <> e
                   /\ sudoku_board.init u s e
                      = (Raise ValueError, (u, upd s r c e)))
          \/ (wf9 s /\ legal e s
              /\ ~ (complete e s /\ given_digits e s = true /\ extends e u s)
              /\ sudoku_board.init u s e = (Raise ValueError, (u, s)))
          \/ (wf9 s /\ legal e s /\ complete e s /\ given_digits e s = true
              /\ extends e u s
              /\ sudoku_board.init u s e
                 = (Ok {| sudoku_board.empty_indicator := e;
                          sudoku_board._board := u;
                          sudoku_board._unsolved_board := u;
                          sudoku_board._solved_board := s;
                          sudoku_board.prefilled_squares :=
                            squares_where u (fun v => negb (pyval_eqb v e));
                          sudoku_board.player_fillable_squares :=
                            squares_where u (fun v => pyval_eqb v e);
                          sudoku_board.edited_squares := [] |}, (u, s))))).
Proof.
  unfold sudoku_board.init.
  destruct (validate_input_boards_outcome e false u)
    as [[Hu H]|[(Hu & Hl & r & c & Hrc & Hne & H)
       |[(Hu & Hl & Hno & H)|(Hu & Hl & _ & Hd & H)]]]; rewrite H.
  - now left.
  - right. left. split; [assumption|]. split; [assumption|]. now exists r, c.
  - right. right. left. split; [assumption|]. split; [assumption|].
    split; [|reflexivity]. intro Hd. apply Hno. split; [discriminate|assumption].
  - right. right. right. split; [assumption|]. split; [assumption|].
    split; [assumption|].
    destruct (validate_input_boards_outcome e true s)
      as [[Hs H']|[(Hs & Hls & r & c & Hrc & Hne & H')
         |[(Hs & Hls & Hno & H')|(Hs & Hls & Hc & Hds & H')]]]; rewrite H'.
    + now left.
    + right. left. split; [assumption|]. split; [assumption|].
      now exists r, c.
    + right. right. left. split; [assumption|]. split; [assumption|].
      split; [|reflexivity]. intros (Hc & Hds & _). apply Hno. tauto.
    + right. right.
      destruct (is_solved_version_spec e u s Hu Hs) as [[Hv Hx]|[Hv Hx]];
        rewrite Hv; cbn [rbind].
      * right. rewrite !select_squares_where by assumption. cbn [rbind].
        specialize (Hc eq_refl). tauto.
      * left. split; [assumption|]. split; [assumption|].
        split; [|reflexivity]. tauto.
Qed.

Lemma legal_upd (e : pyval) (b : board) (r c : Z) (v : pyval) :
  in_grid r c -> legal e b -> entry_free b r c v = true ->
  legal e (upd b r c v).
Proof.
  intros H Hl Hfree. rewrite entry_free_true in Hfree by assumption.
  intros r1 c1 r2 c2 H1 H2 Hne Hrel Hv.
  rewrite cellv_upd in Hv by assumption. rewrite !cellv_upd by assumption.
  destruct ((r1 =? r) && (c1 =? c)) eqn:E1;
    destruct ((r2 =? r) && (c2 =? c)) eqn:E2.
  - apply andb_prop in E1, E2. destruct E1 as [A1 A2], E2 as [B1 B2].
    apply Z.eqb_eq in A1, A2, B1, B2. subst. congruence.
  - apply andb_prop in E1. destruct E1 as [A1 A2].
    apply Z.eqb_eq in A1, A2. subst r1 c1.
    intro Heq. apply (Hfree r2 c2 H2 Hrel). congruence.
  - apply andb_prop in E2. destruct E2 as [B1 B2].
    apply Z.eqb_eq in B1, B2. subst r2 c2.
    apply (Hfree r1 c1 H1). now rewrite related_sym.
  - now apply Hl.
Qed.

Lemma legal_clear (e : pyval) (b : board) (r c : Z) :
  legal e b -> legal e (upd b r c e).
Proof.
  intros Hl r1 c1 r2 c2 H1 H2 Hne Hrel Hv.
  rewrite cellv_upd in Hv by assumption. rewrite !cellv_upd by assumption.
  destruct ((r1 =? r) && (c1 =? c)); [congruence|].
  destruct ((r2 =? r) && (c2 =? c)); [assumption|now apply Hl].
Qed.

Lemma given_digits_upd (e : pyval) (b : board) (r c : Z) (v : pyval) :
  given_digits e b = true -> pyval_eqb v e || is_digit v = true ->
  given_digits e (upd b r c v) = true.
Proof.
  intros Hd Hv. apply all_cells_intro. intros r' c' Hrc.
  rewrite cellv_upd by assumption.
  destruct ((r' =? r) && (c' =? c)); [assumption|].
  unfold given_digits in Hd.
  apply all_cells_spec with (r := r') (c := c') in Hd; assumption.
Qed.

Lemma digit_not_indicator (e : pyval) (v : Z) :
  is_digit e = false -> 1 <= v <= 9 -> pyval_eqb (PInt v) e = false.
Proof.
  intros He Hv. apply pyval_eqb_neq. intros <-.
  cbn [is_digit] in He. lia.
Qed.

Lemma solved_complete (e : pyval) (s : board) :
  is_digit e = false -> solved s -> complete e s.
Proof.
  intros He (_ & Hd & _) r c Hrc Heq. specialize (Hd r c Hrc). congruence.
Qed.

Lemma solved_given_digits (e : pyval) (s : board) :
  solved s -> given_digits e s = true.
Proof.
  intros (_ & Hd & _). apply all_cells_intro. intros r c Hrc.
  rewrite (Hd r c Hrc). apply orb_true_r.
Qed.

Lemma extends_given_digits (e : pyval) (u s : board) :
  solved s -> extends e u s -> given_digits e u = true.
Proof.
  intros (_ & Hd & _) Hx. apply all_cells_intro. intros r c Hrc.
  destruct (pyval_eqb (cellv u r c) e) eqn:E; [reflexivity|].
  apply pyval_eqb_neq in E. rewrite <- (Hx r c Hrc E).
  now rewrite (Hd r c Hrc).
Qed.

Lemma square_in_where (b : board) (keep : pyval -> bool) (r c : Z) :
  in_grid r c ->
  sudoku_board.square_in (r, c) (squares_where b keep) = keep (cellv b r c).
Proof.
  intro Hrc. destruct (keep (cellv b r c)) eqn:E.
  - apply square_in_In, in_squares_where. tauto.
  - apply square_in_false. rewrite in_squares_where. intros [_ H]. congruence.
Qed.

Lemma list_remove_spec (p : Z * Z) (l : list (Z * Z)) :
  In p l -> List.NoDup l ->
  exists l', sudoku_board.list_remove p l = Ok l'
             /\ List.NoDup l' /\ forall q, In q l' <-> In q l /\ q <> p.
Proof.
  induction l as [|q l IH]; intros Hin Hnd; [destruct Hin|].
  inversion Hnd as [|? ? Hq Hnd']; subst.
  cbn [sudoku_board.list_remove].
  destruct (sudoku_board.square_eqb q p) eqn:E.
  - apply square_eqb_eq in E. subst q. exists l.
    split; [reflexivity|]. split; [assumption|].
    intro q. split.
    + intro H. split; [now right|]. intros ->. contradiction.
    + intros [[<-|H] Hne]; [congruence|assumption].
  - assert (Hne : q <> p).
    { intro Heq. apply square_eqb_eq in Heq. congruence. }
    destruct Hin as [Heq|Hin]; [contradiction|].
    destruct (IH Hin Hnd') as (l' & Hrm & Hnd'' & Hmem).
    rewrite Hrm. cbn [rbind]. exists (q :: l').
    split; [reflexivity|]. split.
    + constructor; [|assumption]. rewrite Hmem. tauto.
    + intro x. cbn [In]. rewrite Hmem. split.
      * intros [<-|[H1 H2]]; auto.
      * intros [[<-|H1] H2]; auto.
Qed.

Lemma list_remove_last (p : Z * Z) (l : list (Z * Z)) :
  ~ In p l -> sudoku_board.list_remove p (l ++ [p]) = Ok l.
Proof.
  induction l as [|q l IH]; intro Hnot.
  - cbn [app sudoku_board.list_remove].
    now rewrite (proj2 (square_eqb_eq p p) eq_refl).
  - cbn [app sudoku_board.list_remove].
    destruct (sudoku_board.square_eqb q p) eqn:E.
    + apply square_eqb_eq in E. subst q. exfalso. apply Hnot. now left.
    + rewrite IH by (intro H; apply Hnot; now right). reflexivity.
Qed.

Ltac session_simpl :=
  cbn [sudoku_board.set_board sudoku_board.set_edited
       sudoku_board.edited_squares sudoku_board._board
       sudoku_board._unsolved_board sudoku_board._solved_board
       sudoku_board.prefilled_squares sudoku_board.player_fillable_squares
       sudoku_board.empty_indicator] in *.

Lemma set_board_same (self : sudoku_board.SudokuBoard) :
  sudoku_board.set_board self (sudoku_board._board self) = self.
Proof. now destruct self. Qed.

Lemma set_edited_same (self : sudoku_board.SudokuBoard) :
  sudoku_board.set_edited self (sudoku_board.edited_squares self) = self.
Proof. now destruct self. Qed.

Section Session.
Variable self : sudoku_board.SudokuBoard.
Hypothesis Hinv : session_inv self.

Lemma session_entry (row col value : Z) :
  in_grid row col -> 1 <= value <= 9 ->
  sudoku_board.is_valid_entry self row col value
  = Ok (pyval_eqb (cellv (sudoku_board._unsolved_board self) row col)
          (sudoku_board.empty_indicator self)
        && entry_free (sudoku_board._board self) row col (PInt value)).
Proof.
  intros Hrc Hv.
  destruct Hinv as (He & Hu & Hs & Hx & Hpre & Hfill & Hb & _).
  unfold sudoku_board.is_valid_entry.
  rewrite (proj2 (in_range_grid row col) Hrc). cbn [negb].
  replace ((1 <=? value) && (value <=? 9)) with true by lia. cbn [negb].
  rewrite Hpre, square_in_where by assumption.
  destruct (pyval_eqb (cellv (sudoku_board._unsolved_board self) row col)
              (sudoku_board.empty_indicator self)); cbn [negb andb];
    [|reflexivity].
  rewrite digit_not_indicator by assumption. cbn [rbind].
  now apply is_valid_entry_wf.
Qed.

Lemma session_set_value (row col value : Z) :
  in_grid row col -> 1 <= value <= 9 ->
  sudoku_board.set_value self row col value
  = if pyval_eqb (cellv (sudoku_board._unsolved_board self) row col)
         (sudoku_board.empty_indicator self)
       && entry_free (sudoku_board._board self) row col (PInt value)
    then
      let self1 :=
        sudoku_board.set_board self
          (upd (sudoku_board._board self) row col (PInt value)) in
      (Ok true,
       if sudoku_board.square_in (row, col) (sudoku_board.edited_squares self)
       then self1
       else sudoku_board.set_edited self1
              (sudoku_board.edited_squares self ++ [(row, col)]))
    else (Ok false, self).
Proof.
  intros Hrc Hv. pose proof (session_entry row col value Hrc Hv) as Hentry.
  destruct Hinv as (He & Hu & Hs & Hx & Hpre & Hfill & Hb & _).
  unfold sudoku_board.set_value.
  rewrite (proj2 (in_range_grid row col) Hrc). cbn [negb].
  replace ((1 <=? value) && (value <=? 9)) with true by lia. cbn [negb].
  rewrite Hentry.
  destruct (pyval_eqb (cellv (sudoku_board._unsolved_board self) row col)
              (sudoku_board.empty_indicator self)) eqn:E; cbn [andb];
    [|reflexivity].
  destruct (entry_free _ row col (PInt value)); [|reflexivity].
  rewrite set_cell_wf by assumption. cbn zeta.
  destruct self; cbn [sudoku_board.set_board sudoku_board.set_edited
    sudoku_board.edited_squares sudoku_board._unsolved_board
    sudoku_board.empty_indicator sudoku_board._board] in *.
  destruct (sudoku_board.square_in (row, col) edited_squares);
    cbn [negb]; [reflexivity|].
  rewrite get_cell_wf by assumption. rewrite E.
  rewrite digit_not_indicator by assumption. reflexivity.
Qed.

End Session.

Lemma session_set_empty (self : sudoku_board.SudokuBoard) (row col : Z) :
  session_inv self -> in_grid row col ->
  (~ In (row, col) (sudoku_board.edited_squares self)
   /\ sudoku_board.set_empty self row col = (Ok false, self))
  \/ (In (row, col) (sudoku_board.edited_squares self)
      /\ exists l,
           sudoku_board.list_remove (row, col)
             (sudoku_board.edited_squares self) = Ok l
           /\ sudoku_board.set_empty self row col
              = (Ok true,
                 sudoku_board.set_edited
                   (sudoku_board.set_board self
                      (upd (sudoku_board._board self) row col
                         (sudoku_board.empty_indicator self))) l)).
Proof.
  intros (He & Hu & Hs & Hx & Hpre & Hfill & Hb & Hl & Hd & Hxu & Hnd & Hed)
    Hrc.
  unfold sudoku_board.set_empty.
  rewrite (proj2 (in_range_grid row col) Hrc). cbn [negb]. cbn zeta.
  destruct (sudoku_board.square_in (row, col)
              (sudoku_board.edited_squares self)) eqn:E.
  - right. apply square_in_In in E. split; [assumption|].
    destruct (list_remove_spec _ _ E Hnd) as (l & Hrm & _).
    exists l. split; [assumption|].
    rewrite set_cell_wf by assumption.
    destruct self; cbn [sudoku_board.set_board sudoku_board.set_edited
      sudoku_board.edited_squares sudoku_board._board
      sudoku_board.empty_indicator] in *.
    now rewrite Hrm.
  - left. apply square_in_false in E. now split.
Qed.

Lemma set_value_inv (self : sudoku_board.SudokuBoard) (row col value : Z) :
  session_inv self ->
  session_inv (snd (sudoku_board.set_value self row col value)).
Proof.
  intro Hinv.
  destruct (sudoku_board.in_range row col) eqn:Hrange;
    [|unfold sudoku_board.set_value; now rewrite Hrange].
  apply in_range_grid in Hrange.
  destruct ((1 <=? value) && (value <=? 9)) eqn:Hv.
  2:{ unfold sudoku_board.set_value.
      rewrite (proj2 (in_range_grid row col) Hrange), Hv. exact Hinv. }
  assert (Hv' : 1 <= value <= 9) by lia.
  rewrite (session_set_value self Hinv row col value Hrange Hv').
  destruct (pyval_eqb _ _) eqn:Eu; cbn [andb]; [|exact Hinv].
  destruct (entry_free _ row col (PInt value)) eqn:Efree; [|exact Hinv].
  apply pyval_eqb_eq in Eu. cbn zeta. cbn [snd].
  destruct Hinv as
    (He & Hu & Hs & Hx & Hpre & Hfill & Hb & Hl & Hd & Hxu & Hnd & Hed).
  assert (Hcase : forall r c,
            In (r, c) (sudoku_board.edited_squares self)
            <-> in_grid r c
                /\ cellv (sudoku_board._unsolved_board self) r c
                   = sudoku_board.empty_indicator self
                /\ cellv (sudoku_board._board self) r c
                   <> sudoku_board.empty_indicator self).
  { destruct Hed as [[Hcur _]|Hed]; [exfalso|assumption].
    destruct (solved_row_has_digit _ row value Hs
                ltac:(unfold in_grid in Hrange; lia) Hv') as (c0 & Hc0 & Hcell).
    rewrite entry_free_true in Efree by assumption.
    apply (Efree row c0); [unfold in_grid in *; lia| |congruence].
    unfold related. now rewrite Z.eqb_refl. }
  assert (Hne : PInt value <> sudoku_board.empty_indicator self).
  { apply pyval_eqb_neq. now apply digit_not_indicator. }
  assert (Hnew : forall (l : list (Z * Z)),
            List.NoDup l ->
            (forall q, In q l
                       <-> In q (sudoku_board.edited_squares self)
                           \/ q = (row, col)) ->
            session_inv
              (sudoku_board.set_edited
                 (sudoku_board.set_board self
                    (upd (sudoku_board._board self) row col (PInt value))) l)).
  { intros l Hndl Hmem.
    destruct self; cbn [sudoku_board.set_board sudoku_board.set_edited
      sudoku_board.edited_squares sudoku_board._board
      sudoku_board._unsolved_board sudoku_board._solved_board
      sudoku_board.prefilled_squares sudoku_board.player_fillable_squares
      sudoku_board.empty_indicator] in *.
    unfold session_inv; session_simpl.
    split; [assumption|]. split; [assumption|]. split; [assumption|].
    split; [assumption|]. split; [assumption|]. split; [assumption|].
    split; [apply wf9_upd|]. split; [now apply legal_upd|].
    split.
    { apply given_digits_upd; [assumption|].
      cbn [is_digit]. replace ((1 <=? value) && (value <=? 9)) with true by lia.
      apply orb_true_r. }
    split.
    { intros r c Hrc Hnz. rewrite cellv_upd_other; [now apply Hxu|assumption|].
      intro E. injection E as -> ->. contradiction. }
    split; [assumption|]. right.
    intros r c. rewrite Hmem, Hcase. split.
    - intros [(Hrc & Hur & Hcr)|E].
      + split; [assumption|]. split; [assumption|].
        rewrite cellv_upd by assumption.
        now destruct ((r =? row) && (c =? col)).
      + injection E as -> ->. split; [assumption|]. split; [assumption|].
        now rewrite cellv_upd_same.
    - intros (Hrc & Hur & Hcr).
      destruct (Z.eq_dec r row) as [->|Hr];
        [destruct (Z.eq_dec c col) as [->|Hc]|]; [now right| |].
      + left. rewrite cellv_upd_other in Hcr; [tauto|assumption|congruence].
      + left. rewrite cellv_upd_other in Hcr; [tauto|assumption|congruence]. }
  destruct (sudoku_board.square_in (row, col)
              (sudoku_board.edited_squares self)) eqn:Ein.
  - apply square_in_In in Ein.
    rewrite <- (set_edited_same (sudoku_board.set_board _ _)).
    apply Hnew.
    + now destruct self.
    + intro q. destruct self; cbn [sudoku_board.set_board
        sudoku_board.edited_squares] in *.
      split; [tauto|]. intros [H| ->]; assumption.
  - apply square_in_false in Ein. apply Hnew.
    + apply List.NoDup_app; [assumption|repeat constructor; intros []|].
      intros a Ha [<-|[]]. contradiction.
    + intro q. rewrite in_app_iff. cbn [In]. split.
      * intros [H|[H|[]]]; auto.
      * intros [H|H]; auto.
Qed.

Lemma set_empty_inv (self : sudoku_board.SudokuBoard) (row col : Z) :
  session_inv self ->
  session_inv (snd (sudoku_board.set_empty self row col)).
Proof.
  intro Hinv.
  destruct (sudoku_board.in_range row col) eqn:Hrange;
    [|unfold sudoku_board.set_empty; now rewrite Hrange].
  apply in_range_grid in Hrange.
  destruct (session_set_empty self row col Hinv Hrange)
    as [[_ H]|(Hin & l & Hrm & H)]; rewrite H; [exact Hinv|].
  cbn [snd].
  destruct Hinv as
    (He & Hu & Hs & Hx & Hpre & Hfill & Hb & Hl & Hd & Hxu & Hnd & Hed).
  destruct (list_remove_spec _ _ Hin Hnd) as (l' & Hrm' & Hnd' & Hmem).
  assert (l' = l) by congruence. subst l'.
  assert (Hcase : forall r c,
            In (r, c) (sudoku_board.edited_squares self)
            <-> in_grid r c
                /\ cellv (sudoku_board._unsolved_board self) r c
                   = sudoku_board.empty_indicator self
                /\ cellv (sudoku_board._board self) r c
                   <> sudoku_board.empty_indicator self).
  { destruct Hed as [[_ Hnil]|Hed]; [|assumption].
    rewrite Hnil in Hin. destruct Hin. }
  destruct (proj1 (Hcase row col) Hin) as (_ & Hur & Hcr).
  destruct self; unfold session_inv; session_simpl.
  split; [assumption|]. split; [assumption|]. split; [assumption|].
  split; [assumption|]. split; [assumption|]. split; [assumption|].
  split; [apply wf9_upd|]. split; [now apply legal_clear|].
  split.
  { apply given_digits_upd; [assumption|]. now rewrite pyval_eqb_refl. }
  split.
  { intros r c Hrc Hnz. rewrite cellv_upd_other; [now apply Hxu|assumption|].
    intro E. injection E as -> ->. contradiction. }
  split; [assumption|]. right.
  intros r c. rewrite Hmem, Hcase. split.
  - intros [(Hrc & Hur' & Hcr') Hne]. split; [assumption|].
    split; [assumption|]. now rewrite cellv_upd_other.
  - intros (Hrc & Hur' & Hcr').
    assert (Hne : (r, c) <> (row, col)).
    { intro E. injection E as -> ->. rewrite cellv_upd_same in Hcr'; auto. }
    rewrite cellv_upd_other in Hcr' by assumption. tauto.
Qed.

Lemma session_unsolved (self : sudoku_board.SudokuBoard) :
  session_inv self ->
  legal (sudoku_board.empty_indicator self) (sudoku_board._unsolved_board self)
  /\ given_digits (sudoku_board.empty_indicator self)
       (sudoku_board._unsolved_board self) = true
  /\ complete (sudoku_board.empty_indicator self)
       (sudoku_board._solved_board self).
Proof.
  intros (He & Hu & Hs & Hx & _).
  pose proof (solved_complete _ _ He Hs) as Hc.
  split; [|split; [|assumption]].
  - apply (extends_legal _ _ _ Hx); [now apply solved_legal|assumption].
  - now apply (extends_given_digits _ _ _ Hs).
Qed.

Lemma reset_board_inv (self : sudoku_board.SudokuBoard) :
  session_inv self -> session_inv (snd (sudoku_board.reset_board self)).
Proof.
  intro Hinv. destruct (session_unsolved self Hinv) as (Hlu & Hdu & _).
  destruct Hinv as
    (He & Hu & Hs & Hx & Hpre & Hfill & Hb & Hl & Hd & Hxu & Hnd & Hed).
  unfold sudoku_board.reset_board. cbn zeta. cbn [snd].
  destruct self; unfold session_inv; session_simpl.
  split; [assumption|]. split; [assumption|]. split; [assumption|].
  split; [assumption|]. split; [assumption|]. split; [assumption|].
  split; [assumption|]. split; [assumption|]. split; [assumption|].
  split; [now intros r c _ _|]. split; [constructor|]. right.
  intros r c. cbn [In]. split; [intros []|]. intros (_ & H1 & H2). congruence.
Qed.

Lemma update_to_solved_inv (self : sudoku_board.SudokuBoard) :
  session_inv self -> session_inv (sudoku_board.update_to_solved self).
Proof.
  intro Hinv.
  destruct Hinv as
    (He & Hu & Hs & Hx & Hpre & Hfill & Hb & Hl & Hd & Hxu & Hnd & Hed).
  unfold sudoku_board.update_to_solved.
  destruct self; unfold session_inv; session_simpl.
  split; [assumption|]. split; [assumption|]. split; [assumption|].
  split; [assumption|]. split; [assumption|]. split; [assumption|].
  split; [now destruct Hs|]. split; [now apply solved_legal|].
  split; [now apply solved_given_digits|].
  split; [assumption|]. split; [constructor|]. now left.
Qed.

Lemma session_is_valid_board (self : sudoku_board.SudokuBoard)
    (expected : option Z) :
  session_inv self ->
  sudoku_board.is_valid_board_self expected self
  = (Ok match expected with
        | Some n =>
            sudoku_board.total_empty_squares
              (sudoku_board.empty_indicator self) (sudoku_board._board self)
            =? n
        | None => true
        end, self).
Proof.
  intros (He & Hu & Hs & Hx & Hpre & Hfill & Hb & Hl & _).
  unfold sudoku_board.is_valid_board_self.
  destruct (class_is_valid_board_outcome (sudoku_board.empty_indicator self)
              expected _ Hb) as [[_ H]|[Hno _]]; [|contradiction].
  rewrite H. now rewrite set_board_same.
Qed.

Lemma run_call_inv (self : sudoku_board.SudokuBoard) (c : call) :
  session_inv self -> session_inv (run_call self c).
Proof.
  intro Hinv. destruct c as [r c v|r c| | |ex]; cbn [run_call].
  - now apply set_value_inv.
  - now apply set_empty_inv.
  - now apply reset_board_inv.
  - now apply update_to_solved_inv.
  - now rewrite session_is_valid_board.
Qed.

Lemma run_calls_inv (calls : list call) (self : sudoku_board.SudokuBoard) :
  session_inv self -> session_inv (run_calls self calls).
Proof.
  revert self. induction calls as [|c calls IH]; intros self Hinv;
    [exact Hinv|].
  cbn [run_calls fold_left]. apply IH. now apply run_call_inv.
Qed.

Lemma init_ok (u s : board) (e : pyval) (self : sudoku_board.SudokuBoard) :
  fst (sudoku_board.init u s e) = Ok self ->
  wf9 u /\ legal e u /\ given_digits e u = true
  /\ wf9 s /\ legal e s /\ complete e s /\ given_digits e s = true
  /\ extends e u s
  /\ sudoku_board.init u s e = (Ok self, (u, s))
  /\ self = {| sudoku_board.empty_indicator := e;
               sudoku_board._board := u;
               sudoku_board._unsolved_board := u;
               sudoku_board._solved_board := s;
               sudoku_board.prefilled_squares :=
                 squares_where u (fun v => negb (pyval_eqb v e));
               sudoku_board.player_fillable_squares :=
                 squares_where u (fun v => pyval_eqb v e);
               sudoku_board.edited_squares := [] |}.
Proof.
  intro H.
  destruct (init_outcome u s e)
    as [[_ H']|[(_ & _ & r & c & _ & _ & H')|[(_ & _ & _ & H')
       |(Hu & Hl & Hd & [[_ H']|[(_ & _ & r & c & _ & _ & H')
          |[(_ & _ & _ & H')|(Hs & Hls & Hc & Hds & Hx & H')]]])]]];
    rewrite H' in H; cbn [fst] in H; try discriminate.
  assert (E : self = {| sudoku_board.empty_indicator := e;
               sudoku_board._board := u;
               sudoku_board._unsolved_board := u;
               sudoku_board._solved_board := s;
               sudoku_board.prefilled_squares :=
                 squares_where u (fun v => negb (pyval_eqb v e));
               sudoku_board.player_fillable_squares :=
                 squares_where u (fun v => pyval_eqb v e);
               sudoku_board.edited_squares := [] |}) by congruence.
  rewrite H'. rewrite <- E. tauto.
Qed.

Lemma init_session (u s : board) (e : pyval) (self : sudoku_board.SudokuBoard) :
  fst (sudoku_board.init u s e) = Ok self -> session_inv self.
Proof.
  intro H. apply init_ok in H.
  destruct H as (Hu & Hl & Hd & Hs & Hls & Hc & Hds & Hx & _ & ->).
  assert (Hsol : solved s) by now apply (solved_legal_complete e).
  unfold session_inv; session_simpl.
  split; [now apply (solved_complete_indicator e s)|].
  split; [assumption|]. split; [assumption|]. split; [assumption|].
  split; [reflexivity|]. split; [reflexivity|].
  split; [assumption|]. split; [assumption|]. split; [assumption|].
  split; [now intros r c _ _|]. split; [constructor|]. right.
  intros r c. cbn [In]. split; [intros []|]. intros (_ & H1 & H2). congruence.
Qed.

(** No method touches the grids fixed by the constructor. *)
Lemma run_call_fixed (self : sudoku_board.SudokuBoard) (c : call) :
  sudoku_board.empty_indicator (run_call self c)
  = sudoku_board.empty_indicator self
  /\ sudoku_board._unsolved_board (run_call self c)
     = sudoku_board._unsolved_board self
  /\ sudoku_board._solved_board (run_call self c)
     = sudoku_board._solved_board self.
Proof.
  destruct c as [r c v|r c| | |ex]; cbn [run_call].
  - unfold sudoku_board.set_value.
    repeat match goal with
           | |- context [match ?x with _ => _ end] => destruct x
           end; cbn [snd]; session_simpl; auto.
  - unfold sudoku_board.set_empty.
    repeat match goal with
           | |- context [match ?x with _ => _ end] => destruct x
           end; cbn [snd]; session_simpl; auto.
  - unfold sudoku_board.reset_board. cbn [snd]. session_simpl. auto.
  - unfold sudoku_board.update_to_solved. session_simpl. auto.
  - unfold sudoku_board.is_valid_board_self.
    destruct (sudoku_board.is_valid_board _ _ _). cbn [snd]. session_simpl.
    auto.
Qed.

Lemma run_calls_fixed (calls : list call) (self : sudoku_board.SudokuBoard) :
  sudoku_board.empty_indicator (run_calls self calls)
  = sudoku_board.empty_indicator self
  /\ sudoku_board._unsolved_board (run_calls self calls)
     = sudoku_board._unsolved_board self
  /\ sudoku_board._solved_board (run_calls self calls)
     = sudoku_board._solved_board self.
Proof.
  revert self. induction calls as [|c calls IH]; intro self; [auto|].
  cbn [run_calls fold_left].
  destruct (IH (run_call self c)) as (H1 & H2 & H3).
  destruct (run_call_fixed self c) as (H4 & H5 & H6).
  unfold run_calls in *. repeat split; congruence.
Qed.

(** The state reached from a constructed object by any calls. *)
Lemma session_reached (u s : board) (e : pyval)
    (self0 : sudoku_board.SudokuBoard) (calls : list call) :
  fst (sudoku_board.init u s e) = Ok self0 ->
  session_inv (run_calls self0 calls)
  /\ sudoku_board.empty_indicator (run_calls self0 calls) = e
  /\ sudoku_board._unsolved_board (run_calls self0 calls) = u
  /\ sudoku_board._solved_board (run_calls self0 calls) = s.
Proof.
  intro H. split; [apply run_calls_inv; now apply (init_session u s e)|].
  destruct (run_calls_fixed calls self0) as (H1 & H2 & H3).
  apply init_ok in H. destruct H as (_ & _ & _ & _ & _ & _ & _ & _ & _ & ->).
  session_simpl. auto.
Qed.

(** X18.  The constructor of [SudokuBoard] succeeds exactly when the
    unsolved grid is 9x9 with every given cell a digit 1..9, the solved
    grid is a full legal 9x9 grid of digits without the empty indicator,
    and the solved grid agrees with every given cell of the unsolved one.
    It then leaves both argument lists as they were, and the empty
    indicator cannot be a digit 1..9. *)
Theorem init_accepts_iff (u s : board) (e : pyval) :
  ((exists self, fst (sudoku_board.init u s e) = Ok self)
   <-> wf9 u /\ given_digits e u = true
       /\ solved s /\ complete e s /\ extends e u s)
  /\ (forall self, fst (sudoku_board.init u s e) = Ok self ->
        snd (sudoku_board.init u s e) = (u, s) /\ is_digit e = false).
Proof.
  split; [split|].
  - intros [self H]. apply init_ok in H.
    destruct H as (Hu & Hl & Hd & Hs & Hls & Hc & Hds & Hx & _).
    split; [assumption|]. split; [assumption|].
    split; [now apply (solved_legal_complete e)|]. now split.
  - intros (Hu & Hd & Hs & Hc & Hx).
    pose proof (solved_legal e s Hs) as Hls.
    pose proof (extends_legal e u s Hx Hls Hc) as Hl.
    pose proof (solved_given_digits e s Hs) as Hds.
    destruct (init_outcome u s e)
      as [[Hno _]|[(_ & Hno & _)|[(_ & _ & Hno & _)
         |(_ & _ & _ & [[Hno _]|[(_ & Hno & _)
            |[(_ & _ & Hno & _)|(_ & _ & _ & _ & _ & H)]]])]]];
      try contradiction.
    + destruct Hs as [Hs _]. contradiction.
    + exfalso. apply Hno. tauto.
    + rewrite H. eexists. reflexivity.
  - intros self H. pose proof (init_session u s e self H) as Hinv.
    apply init_ok in H.
    destruct H as (_ & _ & _ & _ & _ & _ & _ & _ & -> & ->).
    split; [reflexivity|]. now destruct Hinv.
Qed.

(** X19.  The constructor checks the unsolved grid completely before it
    looks at the solved one: it raises IndexError exactly when the unsolved
    grid is not 9x9, or the unsolved grid passes every check and the
    solved grid is not 9x9.  An unsolved 9x9 grid that breaks the Sudoku
    rules is refused with ValueError, and the caller's list comes back
    with one of its given cells overwritten by the empty indicator. *)
Theorem init_errors (u s : board) (e : pyval) :
  (fst (sudoku_board.init u s e) = Raise IndexError
   <-> ~ wf9 u \/ (legal e u /\ given_digits e u = true /\ ~ wf9 s))
  /\ (wf9 u -> ~ legal e u ->
      fst (sudoku_board.init u s e) = Raise ValueError
      /\ exists r c, in_grid r c /\ cellv u r c <> e
           /\ snd (sudoku_board.init u s e) = (upd u r c e, s)
           /\ upd u r c e <> u).
Proof.
  destruct (init_outcome u s e)
    as [[Hu H]|[(Hu & Hl & r & c & Hrc & Hne & H)|[(Hu & Hl & Hd & H)
       |(Hu & Hl & Hd & [[Hs H]|[(Hs & Hls & r & c & Hrc & Hne & H)
          |[(Hs & Hls & Hno & H)|(Hs & Hls & Hc & Hds & Hx & H)]]])]]];
    rewrite H; cbn [fst snd]; (split; [split|]);
    try discriminate; try tauto.
  intros _ _. split; [reflexivity|]. exists r, c.
  split; [assumption|]. split; [assumption|]. split; [reflexivity|].
  intro E. apply Hne. rewrite <- E at 1. now apply cellv_upd_same.
Qed.

(** X20.  Whatever calls of [set_value], [set_empty], [reset_board],
    [update_to_solved] and [is_valid_board] are made on a constructed
    object, and whatever they return or raise, every prefilled square
    still holds the value the puzzle gave it, the current grid obeys the
    Sudoku rules ([is_valid_board()] answers True and changes nothing), and
    every square of the grid holds a digit or the empty indicator. *)
Theorem session_keeps_prefilled (u s : board) (e : pyval)
    (self0 : sudoku_board.SudokuBoard) (calls : list call) :
  fst (sudoku_board.init u s e) = Ok self0 ->
  let self := run_calls self0 calls in
  (forall r c, in_grid r c -> cellv u r c <> e ->
     sudoku_board.get_value self r c = Ok (cellv u r c))
  /\ sudoku_board.is_valid_board_self None self = (Ok true, self)
  /\ (forall r c, in_grid r c ->
        exists v, sudoku_board.get_value self r c = Ok v
                  /\ (v = e \/ is_digit v = true)).
Proof.
  intros H self.
  destruct (session_reached u s e self0 calls H) as (Hinv & He & Hu & Hs).
  fold self in Hinv, He, Hu, Hs.
  pose proof Hinv as
    (_ & _ & _ & _ & _ & _ & Hb & Hl & Hd & Hxu & _).
  rewrite He, Hu in *.
  assert (Hget : forall r c, in_grid r c ->
            sudoku_board.get_value self r c
            = Ok (cellv (sudoku_board._board self) r c)).
  { intros r c Hrc. unfold sudoku_board.get_value.
    rewrite (proj2 (in_range_grid r c) Hrc). cbn [negb].
    now apply get_cell_wf. }
  split; [|split].
  - intros r c Hrc Hne. rewrite Hget by assumption. f_equal.
    now apply Hxu.
  - now rewrite session_is_valid_board.
  - intros r c Hrc. eexists. split; [now apply Hget|].
    destruct (pyval_eqb (cellv (sudoku_board._board self) r c) e) eqn:E.
    + left. now apply pyval_eqb_eq.
    + right. apply (given_digits_spec e); [assumption..|].
      now apply pyval_eqb_neq.
Qed.

Lemma session_keeps_prefilled_witness :
  exists self0,
    fst (sudoku_board.init partial_board complete_board (PInt 0)) = Ok self0
    /\ let self :=
         run_calls self0
           [SetValue 0 2 4; SetValue 0 0 1; SetEmpty 0 2; SetValue 0 3 2;
            UpdateToSolved; SetValue 9 9 9; ResetBoard; SetValue 8 0 3] in
       (forall r c, in_grid r c -> cellv partial_board r c <> PInt 0 ->
          sudoku_board.get_value self r c = Ok (cellv partial_board r c))
       /\ sudoku_board.is_valid_board_self None self = (Ok true, self)
       /\ (forall r c, in_grid r c ->
             exists v, sudoku_board.get_value self r c = Ok v
                       /\ (v = PInt 0 \/ is_digit v = true)).
Proof.
  eexists. split; [vm_compute; reflexivity|].
  apply (session_keeps_prefilled partial_board complete_board (PInt 0)).
  vm_compute. reflexivity.
Defined.

(** X21.  On an object reached from the constructor, [set_value] raises
    IndexError when [row] or [col] is outside 0..8 (negative indices
    included), else ValueError when [value] is outside 1..9.  Otherwise it
    returns True exactly when the square is not prefilled and no square of
    its row, column or box holds [value]; it then writes [value] into that
    square only and the square is listed in [edited_squares].  When it
    raises or returns False the object is unchanged. *)
Theorem set_value_effect (u s : board) (e : pyval)
    (self0 : sudoku_board.SudokuBoard) (calls : list call)
    (row col value : Z) :
  fst (sudoku_board.init u s e) = Ok self0 ->
  let self := run_calls self0 calls in
  let cur := sudoku_board._board self in
  let ok :=
    cellv u row col = e
    /\ forall r c, in_grid r c -> related row col r c = true ->
         cellv cur r c <> PInt value in
  (~ in_grid row col ->
   sudoku_board.set_value self row col value = (Raise IndexError, self))
  /\ (in_grid row col -> ~ 1 <= value <= 9 ->
      sudoku_board.set_value self row col value = (Raise ValueError, self))
  /\ (in_grid row col -> 1 <= value <= 9 -> ~ ok ->
      sudoku_board.set_value self row col value = (Ok false, self))
  /\ (in_grid row col -> 1 <= value <= 9 -> ok ->
      exists self',
        sudoku_board.set_value self row col value = (Ok true, self')
        /\ sudoku_board._board self' = upd cur row col (PInt value)
        /\ In (row, col) (sudoku_board.edited_squares self')).
Proof.
  intros H self cur ok. subst ok cur.
  destruct (session_reached u s e self0 calls H) as (Hinv & He & Hu & Hs).
  fold self in Hinv, He, Hu, Hs.
  split; [|split; [|split]].
  - intro Hrc. unfold sudoku_board.set_value.
    now rewrite (proj2 (in_range_false row col) Hrc).
  - intros Hrc Hv. unfold sudoku_board.set_value.
    rewrite (proj2 (in_range_grid row col) Hrc). cbn [negb].
    replace ((1 <=? value) && (value <=? 9)) with false by lia.
    reflexivity.
  - intros Hrc Hv Hno.
    rewrite (session_set_value self Hinv row col value Hrc Hv).
    rewrite He, Hu.
    destruct (pyval_eqb (cellv u row col) e) eqn:E1; cbn [andb];
      [|reflexivity].
    destruct (entry_free _ row col (PInt value)) eqn:E2; [|reflexivity].
    exfalso. apply Hno. split; [now apply pyval_eqb_eq|].
    now apply entry_free_true.
  - intros Hrc Hv [Hue Hfree].
    rewrite (session_set_value self Hinv row col value Hrc Hv).
    rewrite He, Hu. rewrite Hue, pyval_eqb_refl. cbn [andb].
    rewrite (proj2 (entry_free_true _ row col (PInt value) Hrc) Hfree).
    cbn zeta. eexists. split; [reflexivity|].
    destruct (sudoku_board.square_in (row, col)
                (sudoku_board.edited_squares self)) eqn:Ein.
    + apply square_in_In in Ein. destruct self. session_simpl. now split.
    + destruct self. session_simpl. split; [reflexivity|].
      apply in_app_iff. right. now left.
Qed.

Lemma set_value_effect_witness :
  exists self0,
    fst (sudoku_board.init partial_board complete_board (PInt 0)) = Ok self0
    /\ exists self',
         sudoku_board.set_value (run_calls self0 [SetValue 0 2 4]) 0 3 6
         = (Ok true, self')
         /\ sudoku_board._board self'
            = upd (sudoku_board._board (run_calls self0 [SetValue 0 2 4]))
                0 3 (PInt 6)
         /\ In (0, 3) (sudoku_board.edited_squares self').
Proof.
  eexists. split; [vm_compute; reflexivity|].
  apply (set_value_effect partial_board complete_board (PInt 0) _
           [SetValue 0 2 4] 0 3 6).
  - vm_compute. reflexivity.
  - unfold in_grid. lia.
  - lia.
  - split; [reflexivity|].
    apply (grid_forall (fun r c => related 0 3 r c = true -> _)).
    repeat constructor; cbn [fst snd]; vm_compute; discriminate.
Defined.

(** X22.  Filling an empty square with [set_value] and clearing it again
    with [set_empty] gives back the object exactly as it was: the grid and
    the list of edited squares are those before the two calls. *)
Theorem set_value_set_empty_round_trip (u s : board) (e : pyval)
    (self0 : sudoku_board.SudokuBoard) (calls : list call)
    (row col value : Z) (self' : sudoku_board.SudokuBoard) :
  fst (sudoku_board.init u s e) = Ok self0 ->
  let self := run_calls self0 calls in
  sudoku_board.is_currently_empty self row col = Ok true ->
  sudoku_board.set_value self row col value = (Ok true, self') ->
  sudoku_board.set_empty self' row col = (Ok true, self).
Proof.
  intros H self Hempty Hset.
  destruct (session_reached u s e self0 calls H) as (Hinv & He & Hu & Hs).
  fold self in Hinv, He, Hu, Hs.
  assert (Hrc : in_grid row col).
  { apply in_range_grid. unfold sudoku_board.is_currently_empty in Hempty.
    destruct (sudoku_board.in_range row col); [reflexivity|discriminate]. }
  assert (Hv : 1 <= value <= 9).
  { unfold sudoku_board.set_value in Hset.
    rewrite (proj2 (in_range_grid row col) Hrc) in Hset. cbn [negb] in Hset.
    destruct ((1 <=? value) && (value <=? 9)) eqn:E; [lia|discriminate]. }
  pose proof Hinv as
    (Hed & _ & _ & _ & _ & _ & Hb & _ & _ & _ & Hnd & Hcase).
  assert (Hcur : cellv (sudoku_board._board self) row col = e).
  { unfold sudoku_board.is_currently_empty, sudoku_board.get_value in Hempty.
    rewrite (proj2 (in_range_grid row col) Hrc) in Hempty.
    cbn [negb] in Hempty. rewrite get_cell_wf in Hempty by assumption.
    cbn [rbind] in Hempty. apply pyval_eqb_eq. rewrite <- He. congruence. }
  assert (Hnot : ~ In (row, col) (sudoku_board.edited_squares self)).
  { destruct Hcase as [[_ ->]|Hcase]; [intros []|].
    rewrite Hcase. rewrite He. tauto. }
  rewrite (session_set_value self Hinv row col value Hrc Hv) in Hset.
  destruct (_ && _); [|discriminate]. cbn zeta in Hset.
  rewrite (proj2 (square_in_false _ _) Hnot) in Hset.
  assert (E : self' = sudoku_board.set_edited
                (sudoku_board.set_board self
                   (upd (sudoku_board._board self) row col (PInt value)))
                (sudoku_board.edited_squares self ++ [(row, col)]))
    by congruence.
  assert (Hback : upd (upd (sudoku_board._board self) row col (PInt value))
                    row col (sudoku_board.empty_indicator self)
                  = sudoku_board._board self).
  { apply upd_refill; [assumption|assumption|congruence]. }
  rewrite E. unfold sudoku_board.set_empty.
  rewrite (proj2 (in_range_grid row col) Hrc). cbn [negb]. cbn zeta.
  destruct self as [e0 cur u0 s0 pre fill edited]. session_simpl.
  assert (Hin : sudoku_board.square_in (row, col) (edited ++ [(row, col)])
                = true).
  { apply square_in_In, in_app_iff. right. now left. }
  rewrite Hin. rewrite set_cell_wf by (apply wf9_upd || assumption).
  rewrite list_remove_last by assumption.
  now rewrite Hback.
Qed.

Lemma set_value_set_empty_round_trip_witness :
  exists self0 self',
    fst (sudoku_board.init partial_board complete_board (PInt 0)) = Ok self0
    /\ sudoku_board.set_value (run_calls self0 [SetValue 0 2 4]) 0 3 6
       = (Ok true, self')
    /\ sudoku_board.set_empty self' 0 3
       = (Ok true, run_calls self0 [SetValue 0 2 4]).
Proof.
  eexists. eexists. split; [vm_compute; reflexivity|].
  split; [vm_compute; reflexivity|].
  apply (set_value_set_empty_round_trip partial_board complete_board (PInt 0)
           _ [SetValue 0 2 4] 0 3 6).
  - vm_compute. reflexivity.
  - vm_compute. reflexivity.
  - vm_compute. reflexivity.
Defined.

Lemma py_index_board_of (f : Z -> Z -> pyval) (r : Z) :
  0 <= r < 9 -> py_index (board_of f) r = Ok (map (f r) (py_range 0 9)).
Proof.
  intro H. destruct (range9_cases r H) as [->|[->|[->|[->|[->|[->|[->|[->| ->]]]]]]]];
    reflexivity.
Qed.

Lemma column_board_of (f : Z -> Z -> pyval) (c : Z) :
  0 <= c < 9 ->
  result_map (fun row => py_index row c) (board_of f)
  = Ok (map (fun r => f r c) (py_range 0 9)).
Proof.
  intro H. destruct (range9_cases c H) as [->|[->|[->|[->|[->|[->|[->|[->| ->]]]]]]]];
    reflexivity.
Qed.

Lemma enumerate_range9 {A} (g : Z -> A) :
  sudoku_board.enumerate (map g (py_range 0 9))
  = map (fun i => (i, g i)) (py_range 0 9).
Proof. reflexivity. Qed.

Lemma in_row_conflicts (f : Z -> Z -> pyval) (row col : Z) (v : pyval)
    (r c : Z) :
  In (r, c) (sudoku_board.row_conflicts row col v
               (map (f row) (py_range 0 9)))
  <-> r = row /\ 0 <= c < 9 /\ (r, c) <> (row, col)
      /\ pyval_eqb (f row c) v = true.
Proof.
  unfold sudoku_board.row_conflicts. rewrite enumerate_range9, in_flat_map.
  split.
  - intros [[i x] [Hin Hp]]. apply in_map_iff in Hin.
    destruct Hin as (j & E & Hj). injection E as <- <-.
    apply py_range_0_9 in Hj.
    destruct (negb (sudoku_board.square_eqb (row, j) (row, col))) eqn:E1;
      [|destruct Hp].
    destruct (pyval_eqb (f row j) v) eqn:E2; [|destruct Hp].
    destruct Hp as [E|[]]. injection E as <- <-.
    split; [reflexivity|]. split; [assumption|]. split; [|assumption].
    intro E. apply square_eqb_eq in E. rewrite E in E1. discriminate.
  - intros (-> & Hc & Hne & Hv). exists (c, f row c). split.
    + apply in_map_iff. exists c. split; [reflexivity|now apply py_range_0_9].
    + rewrite Hv.
      destruct (sudoku_board.square_eqb (row, c) (row, col)) eqn:E.
      * apply square_eqb_eq in E. contradiction.
      * now left.
Qed.

Lemma in_column_conflicts (f : Z -> Z -> pyval) (row col : Z) (v : pyval)
    (r c : Z) :
  In (r, c) (sudoku_board.column_conflicts row col v
               (map (fun y => f y col) (py_range 0 9)))
  <-> c = col /\ 0 <= r < 9 /\ (r, c) <> (row, col)
      /\ pyval_eqb (f r col) v = true.
Proof.
  unfold sudoku_board.column_conflicts.
  rewrite (enumerate_range9 (fun y => f y col)), in_flat_map.
  split.
  - intros [[i x] [Hin Hp]]. apply in_map_iff in Hin.
    destruct Hin as (j & E & Hj). injection E as <- <-.
    apply py_range_0_9 in Hj.
    destruct (negb (sudoku_board.square_eqb (j, col) (row, col))) eqn:E1;
      [|destruct Hp].
    destruct (pyval_eqb (f j col) v) eqn:E2; [|destruct Hp].
    destruct Hp as [E|[]]. injection E as <- <-.
    split; [reflexivity|]. split; [assumption|]. split; [|assumption].
    intro E. apply square_eqb_eq in E. rewrite E in E1. discriminate.
  - intros (-> & Hc & Hne & Hv). exists (r, f r col). split.
    + apply in_map_iff. exists r. split; [reflexivity|now apply py_range_0_9].
    + rewrite Hv.
      destruct (sudoku_board.square_eqb (r, col) (row, col)) eqn:E.
      * apply square_eqb_eq in E. contradiction.
      * now left.
Qed.

Lemma square_conflicts_wf (b : board) (row col : Z) (v : pyval)
    (cells : list (Z * Z)) :
  wf9 b -> (forall p, In p cells -> in_grid (fst p) (snd p)) ->
  sudoku_board.square_conflicts b row col v cells
  = Ok (List.filter
          (fun p => negb (sudoku_board.square_eqb p (row, col))
                    && pyval_eqb (cellv b (fst p) (snd p)) v) cells).
Proof.
  intro Hb. induction cells as [|[r c] rest IH]; intro Hin; [reflexivity|].
  cbn [sudoku_board.square_conflicts List.filter fst snd].
  rewrite IH by (intros p Hp; apply Hin; now right).
  destruct (sudoku_board.square_eqb (r, c) (row, col)); cbn [negb andb rbind];
    [reflexivity|].
  rewrite get_cell_wf by (assumption || apply (Hin (r, c)); now left).
  reflexivity.
Qed.

Lemma related_cases (row col r c : Z) :
  in_grid row col -> in_grid r c ->
  related row col r c = true
  <-> r = row \/ c = col \/ (r / 3 = row / 3 /\ c / 3 = col / 3).
Proof.
  intros _ _. unfold related.
  rewrite !orb_true_iff, andb_true_iff, !Z.eqb_eq. intuition congruence.
Qed.

(** Where [find_conflicts] looks, and what it returns, on a 9x9 grid. *)
Lemma find_conflicts_wf (self : sudoku_board.SudokuBoard)
    (row col value : Z) :
  wf9 (sudoku_board._board self) -> in_grid row col -> 1 <= value <= 9 ->
  exists l,
    sudoku_board.find_conflicts self row col value = Ok l
    /\ List.NoDup l
    /\ forall r c,
         In (r, c) l
         <-> in_grid r c /\ (r, c) <> (row, col)
             /\ related row col r c = true
             /\ cellv (sudoku_board._board self) r c = PInt value.
Proof.
  intros Hb Hrc Hv. unfold sudoku_board.find_conflicts.
  rewrite (proj2 (in_range_grid row col) Hrc). cbn [negb].
  replace ((1 <=? value) && (value <=? 9)) with true by lia. cbn [negb].
  set (b := sudoku_board._board self) in *.
  assert (E1 : py_index b row = Ok (map (cellv b row) (py_range 0 9))).
  { rewrite <- (board_of_cellv b Hb) at 1.
    apply py_index_board_of. unfold in_grid in Hrc. lia. }
  assert (E2 : result_map (fun r => py_index r col) b
               = Ok (map (fun r => cellv b r col) (py_range 0 9))).
  { rewrite <- (board_of_cellv b Hb) at 1.
    apply column_board_of. unfold in_grid in Hrc. lia. }
  rewrite E1. cbn [rbind]. rewrite E2. cbn [rbind].
  cbn zeta. fold (box_cells row col).
  rewrite square_conflicts_wf; [|assumption|].
  2:{ intros [r c] Hp. apply in_box_cells in Hp; tauto. }
  cbn [rbind]. eexists. split; [reflexivity|].
  split; [apply NoDup_ListNoDup, NoDup_remove_dups|].
  intros r c. rewrite <- list_elem_of_In, elem_of_remove_dups, list_elem_of_In.
  rewrite !in_app_iff, in_row_conflicts, in_column_conflicts, List.filter_In.
  rewrite in_box_cells by assumption. cbn [fst snd].
  rewrite andb_true_iff, negb_true_iff.
  assert (Hsq : sudoku_board.square_eqb (r, c) (row, col) = false
                <-> (r, c) <> (row, col)).
  { rewrite <- square_eqb_eq.
    now destruct (sudoku_board.square_eqb (r, c) (row, col)). }
  rewrite Hsq. unfold in_grid in *.
  split.
  - intros [(-> & Hc & Hne & Hval)|[(-> & Hr & Hne & Hval)
                                    |((Hg & H1 & H2) & Hne & Hval)]];
      apply pyval_eqb_eq in Hval;
      (split; [lia|]); (split; [assumption|]); (split; [|assumption]);
      unfold related; rewrite ?Z.eqb_refl, ?orb_true_r; try reflexivity.
    rewrite H1, H2, !Z.eqb_refl. apply orb_true_r.
  - intros (Hg & Hne & Hrel & Hval).
    apply (proj2 (pyval_eqb_eq _ _)) in Hval.
    apply related_cases in Hrel; [|assumption..].
    destruct Hrel as [->|[->|[H1 H2]]].
    + left. repeat split; try assumption; lia.
    + right; left. repeat split; try assumption; lia.
    + right; right. repeat split; try assumption; lia.
Qed.

(** X23.  On an object whose grid is 9x9, [find_conflicts] with [row],
    [col] in 0..8 and [value] in 1..9 returns, without repetition, exactly
    the squares other than [(row, col)] that share its row, column or box
    and hold [value].  When the square itself does not hold [value], the
    list is empty exactly when the validator's [is_valid_entry] accepts
    the value there. *)
Theorem find_conflicts_spec (self : sudoku_board.SudokuBoard)
    (row col value : Z) :
  wf9 (sudoku_board._board self) -> in_grid row col -> 1 <= value <= 9 ->
  exists l,
    sudoku_board.find_conflicts self row col value = Ok l
    /\ List.NoDup l
    /\ (forall r c,
          In (r, c) l
          <-> in_grid r c /\ (r, c) <> (row, col)
              /\ related row col r c = true
              /\ cellv (sudoku_board._board self) r c = PInt value)
    /\ (cellv (sudoku_board._board self) row col <> PInt value ->
        (l = [] <-> is_valid_entry (sudoku_board._board self) row col
                      (PInt value) = Ok true)).
Proof.
  intros Hb Hrc Hv.
  destruct (find_conflicts_wf self row col value Hb Hrc Hv)
    as (l & Hl & Hnd & Hmem).
  exists l. split; [assumption|]. split; [assumption|].
  split; [assumption|]. intro Hown.
  rewrite is_valid_entry_wf by assumption. split.
  - intros ->. f_equal. apply entry_free_true; [assumption|].
    intros r c Hg Hrel Hval.
    assert (Hin : In (r, c) []); [|destruct Hin].
    apply Hmem. split; [assumption|]. split; [|now split].
    intro E. injection E as -> ->. contradiction.
  - intro Hfree. assert (Hf : entry_free (sudoku_board._board self) row col
                                (PInt value) = true) by congruence.
    rewrite entry_free_true in Hf by assumption.
    destruct l as [|[r c] l]; [reflexivity|]. exfalso.
    destruct (proj1 (Hmem r c) (or_introl eq_refl)) as (Hg & _ & Hrel & Hval).
    now apply (Hf r c).
Qed.

Lemma find_conflicts_spec_witness :
  let self :=
    {| sudoku_board.empty_indicator := PInt 0;
       sudoku_board._board := partial_board;
       sudoku_board._unsolved_board := partial_board;
       sudoku_board._solved_board := complete_board;
       sudoku_board.prefilled_squares := [];
       sudoku_board.player_fillable_squares := [];
       sudoku_board.edited_squares := [] |} in
  exists l,
    sudoku_board.find_conflicts self 0 2 9 = Ok l
    /\ List.NoDup l
    /\ (forall r c,
          In (r, c) l
          <-> in_grid r c /\ (r, c) <> (0, 2)
              /\ related 0 2 r c = true
              /\ cellv partial_board r c = PInt 9)
    /\ (cellv partial_board 0 2 <> PInt 9 ->
        (l = [] <-> is_valid_entry partial_board 0 2 (PInt 9) = Ok true)).
Proof.
  apply (find_conflicts_spec
           {| sudoku_board.empty_indicator := PInt 0;
              sudoku_board._board := partial_board;
              sudoku_board._unsolved_board := partial_board;
              sudoku_board._solved_board := complete_board;
              sudoku_board.prefilled_squares := [];
              sudoku_board.player_fillable_squares := [];
              sudoku_board.edited_squares := [] |} 0 2 9).
  - apply wf9_compute. vm_compute. reflexivity.
  - unfold in_grid. lia.
  - lia.
Defined.

(** X24.  On an object reached from the constructor, for a square that is
    not prefilled and a value 1..9, [set_value] refuses (returns False)
    exactly when the square already holds that value or [find_conflicts]
    reports at least one conflicting square; re-entering the value a
    square already holds is refused although no conflict is reported. *)
Theorem set_value_refusal (u s : board) (e : pyval)
    (self0 : sudoku_board.SudokuBoard) (calls : list call)
    (row col value : Z) :
  fst (sudoku_board.init u s e) = Ok self0 ->
  in_grid row col -> 1 <= value <= 9 -> cellv u row col = e ->
  let self := run_calls self0 calls in
  exists l,
    sudoku_board.find_conflicts self row col value = Ok l
    /\ (fst (sudoku_board.set_value self row col value) = Ok false
        <-> sudoku_board.get_value self row col = Ok (PInt value)
            \/ l <> [])
    /\ (sudoku_board.get_value self row col = Ok (PInt value) -> l = []).
Proof.
  intros H Hrc Hv Hue self.
  destruct (session_reached u s e self0 calls H) as (Hinv & He & Hu & Hs).
  fold self in Hinv, He, Hu, Hs.
  pose proof Hinv as (_ & _ & _ & _ & _ & _ & Hb & Hl & _).
  destruct (find_conflicts_wf self row col value Hb Hrc Hv)
    as (l & Hfind & _ & Hmem).
  exists l. split; [assumption|].
  assert (Hget : sudoku_board.get_value self row col
                 = Ok (cellv (sudoku_board._board self) row col)).
  { unfold sudoku_board.get_value.
    rewrite (proj2 (in_range_grid row col) Hrc). cbn [negb].
    now apply get_cell_wf. }
  rewrite Hget.
  rewrite (session_set_value self Hinv row col value Hrc Hv).
  rewrite He, Hu, Hue, pyval_eqb_refl. cbn [andb].
  assert (Hne : PInt value <> e).
  { apply pyval_eqb_neq. apply digit_not_indicator; [|assumption].
    rewrite <- He. now destruct Hinv. }
  split.
  - destruct (entry_free (sudoku_board._board self) row col (PInt value))
      eqn:Efree; cbn zeta; cbn [fst].
    + split; [discriminate|]. rewrite entry_free_true in Efree by assumption.
      intros [Hown|Hcon]; exfalso.
      * apply (Efree row col Hrc (related_refl row col)). congruence.
      * destruct l as [|[r c] l]; [congruence|].
        destruct (proj1 (Hmem r c) (or_introl eq_refl))
          as (Hg & _ & Hrel & Hval).
        now apply (Efree r c).
    + split; [|reflexivity]. intros _.
      destruct (pyval_eqb (cellv (sudoku_board._board self) row col)
                  (PInt value)) eqn:Eown.
      * left. f_equal. now apply pyval_eqb_eq.
      * right. apply pyval_eqb_neq in Eown. intros ->.
        assert (Hf : entry_free (sudoku_board._board self) row col
                       (PInt value) = true); [|congruence].
        apply entry_free_true; [assumption|].
        intros r c Hg Hrel Hval.
        assert (Hin : In (r, c) []); [|destruct Hin].
        apply Hmem. split; [assumption|]. split; [|now split].
        intro E. injection E as -> ->. contradiction.
  - intro Hown. assert (Hcell : cellv (sudoku_board._board self) row col
                                = PInt value) by congruence.
    destruct l as [|[r c] l]; [reflexivity|]. exfalso.
    destruct (proj1 (Hmem r c) (or_introl eq_refl))
      as (Hg & Hd & Hrel & Hval).
    apply (Hl row col r c); try assumption; congruence.
Qed.

Lemma set_value_refusal_witness :
  exists self0,
    fst (sudoku_board.init partial_board complete_board (PInt 0)) = Ok self0
    /\ let self := run_calls self0 [SetValue 0 2 4] in
       exists l,
         sudoku_board.find_conflicts self 0 2 4 = Ok l
         /\ (fst (sudoku_board.set_value self 0 2 4) = Ok false
             <-> sudoku_board.get_value self 0 2 = Ok (PInt 4) \/ l <> [])
         /\ (sudoku_board.get_value self 0 2 = Ok (PInt 4) -> l = []).
Proof.
  eexists. split; [vm_compute; reflexivity|].
  apply (set_value_refusal partial_board complete_board (PInt 0) _
           [SetValue 0 2 4] 0 2 4).
  - vm_compute. reflexivity.
  - unfold in_grid. lia.
  - lia.
  - reflexivity.
Defined.

(** X25.  [has_one_solution] calls [count_solutions] with its default
    empty indicator 0, whatever the object's own indicator is: on an
    object built with an indicator other than 0 it answers True in every
    state, because the counter finds no cell equal to 0. *)
Theorem has_one_solution_ignores_indicator (u s : board) (e : pyval)
    (self0 : sudoku_board.SudokuBoard) (calls : list call) :
  fst (sudoku_board.init u s e) = Ok self0 -> e <> PInt 0 ->
  sudoku_board.has_one_solution (run_calls self0 calls) = Ok true.
Proof.
  intros H Hne.
  destruct (session_reached u s e self0 calls H) as (Hinv & He & Hu & Hs).
  set (self := run_calls self0 calls) in *.
  pose proof Hinv as (_ & _ & _ & _ & _ & _ & Hb & _ & Hd & _).
  unfold sudoku_board.has_one_solution, sudoku_board.get_board_copy.
  rewrite count_solutions_complete; [reflexivity|assumption|].
  intros r c Hrc Hz.
  destruct (pyval_eqb (cellv (sudoku_board._board self) r c)
              (sudoku_board.empty_indicator self)) eqn:E.
  - apply pyval_eqb_eq in E. congruence.
  - apply pyval_eqb_neq in E.
    pose proof (given_digits_spec _ _ r c Hd Hrc E) as Hdig.
    rewrite Hz in Hdig. discriminate.
Qed.

Lemma has_one_solution_ignores_indicator_witness :
  exists self0,
    fst (sudoku_board.init dotted_board complete_board (PStr ".")) = Ok self0
    /\ sudoku_board.has_one_solution (run_calls self0 [SetValue 0 2 1])
       = Ok true.
Proof.
  eexists. split; [vm_compute; reflexivity|].
  apply (has_one_solution_ignores_indicator dotted_board complete_board
           (PStr ".")).
  - vm_compute. reflexivity.
  - discriminate.
Defined.

(** X26.  On an object built with the empty indicator 0,
    [has_one_solution] always returns, and it answers True exactly when
    one and only one solved grid agrees with the non-empty squares of the
    current grid (the player's entries included). *)
Theorem has_one_solution_meaning (u s : board)
    (self0 : sudoku_board.SudokuBoard) (calls : list call) :
  fst (sudoku_board.init u s (PInt 0)) = Ok self0 ->
  let self := run_calls self0 calls in
  let cur := sudoku_board._board self in
  exists answer,
    sudoku_board.has_one_solution self = Ok answer
    /\ (answer = true
        <-> exists s1, (solved s1 /\ extends (PInt 0) cur s1)
              /\ forall s2, solved s2 /\ extends (PInt 0) cur s2 -> s2 = s1).
Proof.
  intros H self cur. subst cur.
  destruct (session_reached u s (PInt 0) self0 calls H)
    as (Hinv & He & Hu & Hs).
  fold self in Hinv, He, Hu, Hs.
  pose proof Hinv as (Hed & _ & _ & _ & _ & _ & Hb & Hl & Hd & _).
  rewrite He in *.
  destruct (count_solutions_rec_meaning 2 (PInt 0)
              (S (count_empty (PInt 0) (sudoku_board._board self)))
              (sudoku_board._board self) ltac:(lia) Hb ltac:(lia))
    as (n & Hout & Hn).
  exists (n =? 1). split.
  - unfold sudoku_board.has_one_solution, sudoku_board.get_board_copy,
      count_solutions. now rewrite Hout.
  - rewrite Z.eqb_eq.
    apply (count_of_cases
             (fun s1 => solved s1
                        /\ extends (PInt 0) (sudoku_board._board self) s1)).
    eapply count_of_ext; [|exact Hn].
    intro s1. now apply filled_from_iff_solved.
Qed.

Lemma has_one_solution_meaning_witness :
  exists self0,
    fst (sudoku_board.init partial_board complete_board (PInt 0)) = Ok self0
    /\ let cur := sudoku_board._board (run_calls self0 [SetValue 0 2 4]) in
       exists answer,
         sudoku_board.has_one_solution (run_calls self0 [SetValue 0 2 4])
         = Ok answer
         /\ (answer = true
             <-> exists s1, (solved s1 /\ extends (PInt 0) cur s1)
                   /\ forall s2, solved s2 /\ extends (PInt 0) cur s2
                                 -> s2 = s1).
Proof.
  eexists. split; [vm_compute; reflexivity|].
  apply (has_one_solution_meaning partial_board complete_board _
           [SetValue 0 2 4]).
  vm_compute. reflexivity.
Defined.

(** X27.  On an object reached from the constructor, [get_hint] never
    raises.  When the current grid has no empty square it returns
    (0, 0, 0); otherwise it returns a square that is currently empty and
    not prefilled, together with the digit the solved grid holds there. *)
Theorem get_hint_spec (u s : board) (e : pyval)
    (self0 : sudoku_board.SudokuBoard) (calls : list call) (choice : nat) :
  fst (sudoku_board.init u s e) = Ok self0 ->
  let self := run_calls self0 calls in
  let cur := sudoku_board._board self in
  exists v r c,
    sudoku_board.get_hint choice self = Ok (v, r, c)
    /\ ((complete e cur /\ (v, r, c) = (PInt 0, 0, 0))
        \/ (~ complete e cur /\ in_grid r c
            /\ cellv cur r c = e /\ cellv u r c = e
            /\ v = cellv s r c /\ is_digit v = true)).
Proof.
  intros H self cur. subst cur.
  destruct (session_reached u s e self0 calls H) as (Hinv & He & Hu & Hs).
  fold self in Hinv, He, Hu, Hs.
  pose proof Hinv as
    (Hed & Hwu & Hsol & Hx & Hpre & Hfill & Hb & Hl & Hd & Hxu & Hnd & Hcase).
  rewrite He, Hu, Hs in *.
  unfold sudoku_board.get_hint. rewrite He, Hfill, Hs.
  destruct (sudoku_board.total_empty_squares e (sudoku_board._board self) =? 0)
    eqn:Etot.
  - apply Z.eqb_eq, total_empty_squares_zero in Etot; [|assumption].
    exists (PInt 0), 0, 0. split; [reflexivity|]. now left.
  - apply Z.eqb_neq in Etot.
    assert (Hnc : ~ complete e (sudoku_board._board self)).
    { intro Hc. apply Etot. now apply total_empty_squares_zero. }
    assert (Hmem : forall r c,
              In (r, c) (sudoku_board.edited_squares self)
              <-> in_grid r c /\ cellv u r c = e
                  /\ cellv (sudoku_board._board self) r c <> e).
    { destruct Hcase as [[Hcur _]|Hcase]; [|assumption].
      exfalso. apply Hnc. rewrite Hcur. now apply solved_complete. }
    set (empty_squares :=
           List.filter
             (fun square =>
                negb (sudoku_board.square_in square
                        (sudoku_board.edited_squares self)))
             (squares_where u (fun v => pyval_eqb v e))).
    assert (Hin : forall r c,
              In (r, c) empty_squares
              <-> in_grid r c /\ cellv u r c = e
                  /\ cellv (sudoku_board._board self) r c = e).
    { intros r c. unfold empty_squares.
      rewrite List.filter_In, in_squares_where, negb_true_iff.
      rewrite square_in_false, Hmem, pyval_eqb_eq.
      destruct (pyval_eqb (cellv (sudoku_board._board self) r c) e) eqn:E.
      - apply pyval_eqb_eq in E. intuition congruence.
      - apply pyval_eqb_neq in E. tauto. }
    assert (Hsome : empty_squares <> []).
    { assert (Hex : exists r c, in_grid r c
                      /\ cellv (sudoku_board._board self) r c = e).
      { rewrite total_empty_squares_count, count_empty_cells in Etot
          by assumption.
        destruct (List.filter _ cells9) as [|[r c] l] eqn:Ef;
          [cbn [length] in Etot; lia|].
        assert (Hp : In (r, c) (List.filter
                       (fun p => pyval_eqb
                          (cellv (sudoku_board._board self) (fst p) (snd p)) e)
                       cells9)) by (rewrite Ef; now left).
        apply List.filter_In in Hp. destruct Hp as [Hp Hv].
        exists r, c. split; [now apply in_cells9|now apply pyval_eqb_eq]. }
      destruct Hex as (r & c & Hrc & Hcell).
      assert (Hp : In (r, c) empty_squares).
      { apply Hin. split; [assumption|]. split; [|assumption].
        destruct (pyval_eqb (cellv u r c) e) eqn:E;
          [now apply pyval_eqb_eq|].
        apply pyval_eqb_neq in E. rewrite <- (Hxu r c Hrc E) in E.
        contradiction. }
      intro Hnil. rewrite Hnil in Hp. destruct Hp. }
    destruct empty_squares as [|p l] eqn:El; [contradiction|].
    rewrite <- El in *.
    assert (Hlen : (length empty_squares <> 0)%nat)
      by (rewrite El; discriminate).
    pose proof (nth_In empty_squares (0, 0)
                  (Nat.mod_upper_bound choice _ Hlen)) as Hnth.
    destruct (nth (choice mod length empty_squares) empty_squares (0, 0))
      as [row col].
    apply Hin in Hnth. destruct Hnth as (Hrc & Hur & Hcr).
    rewrite get_cell_wf by (destruct Hsol; assumption). cbn [rbind].
    eexists _, row, col. split; [reflexivity|]. right.
    split; [assumption|]. split; [assumption|]. split; [assumption|].
    split; [assumption|]. split; [reflexivity|]. now apply Hsol.
Qed.

Lemma get_hint_spec_witness :
  exists self0,
    fst (sudoku_board.init partial_board complete_board (PInt 0)) = Ok self0
    /\ let cur := sudoku_board._board (run_calls self0 [SetValue 0 2 4]) in
       exists v r c,
         sudoku_board.get_hint 7 (run_calls self0 [SetValue 0 2 4])
         = Ok (v, r, c)
         /\ ((complete (PInt 0) cur /\ (v, r, c) = (PInt 0, 0, 0))
             \/ (~ complete (PInt 0) cur /\ in_grid r c
                 /\ cellv cur r c = PInt 0 /\ cellv partial_board r c = PInt 0
                 /\ v = cellv complete_board r c /\ is_digit v = true)).
Proof.
  eexists. split; [vm_compute; reflexivity|].
  apply (get_hint_spec partial_board complete_board (PInt 0) _
           [SetValue 0 2 4] 7).
  vm_compute. reflexivity.
Defined.

(** X28.  After [update_to_solved] the current grid is the solved grid
    and the object is frozen: no call of [set_value] or [set_empty]
    returns True or changes it, whatever its arguments. *)
Theorem update_to_solved_freezes (u s : board) (e : pyval)
    (self0 : sudoku_board.SudokuBoard) (calls : list call) :
  fst (sudoku_board.init u s e) = Ok self0 ->
  let self := sudoku_board.update_to_solved (run_calls self0 calls) in
  sudoku_board._board self = s
  /\ (forall row col value,
        snd (sudoku_board.set_value self row col value) = self
        /\ fst (sudoku_board.set_value self row col value) <> Ok true)
  /\ (forall row col,
        snd (sudoku_board.set_empty self row col) = self
        /\ fst (sudoku_board.set_empty self row col) <> Ok true).
Proof.
  intros H self.
  destruct (session_reached u s e self0 (calls ++ [UpdateToSolved]) H)
    as (Hinv & He & Hu & Hs).
  assert (Eself : run_calls self0 (calls ++ [UpdateToSolved]) = self).
  { unfold run_calls. now rewrite fold_left_app. }
  rewrite Eself in *.
  assert (Hcur : sudoku_board._board self = s).
  { rewrite <- Hs. reflexivity. }
  assert (Hnil : sudoku_board.edited_squares self = []) by reflexivity.
  pose proof Hinv as (Hed & _ & Hsol & _).
  split; [assumption|]. split.
  - intros row col value.
    destruct (sudoku_board.in_range row col) eqn:Hrange.
    2:{ unfold sudoku_board.set_value. rewrite Hrange. cbn [negb fst snd].
        split; [reflexivity|discriminate]. }
    apply in_range_grid in Hrange.
    destruct ((1 <=? value) && (value <=? 9)) eqn:Hv.
    2:{ unfold sudoku_board.set_value.
        rewrite (proj2 (in_range_grid row col) Hrange), Hv.
        cbn [negb fst snd]. split; [reflexivity|discriminate]. }
    assert (Hv' : 1 <= value <= 9) by lia.
    rewrite (session_set_value self Hinv row col value Hrange Hv').
    assert (Hfree : entry_free (sudoku_board._board self) row col
                      (PInt value) = false).
    { destruct (entry_free _ row col (PInt value)) eqn:Efree; [|reflexivity].
      exfalso. rewrite entry_free_true in Efree by assumption.
      rewrite Hs in Hsol.
      destruct (solved_row_has_digit s row value Hsol
                  ltac:(unfold in_grid in Hrange; lia) Hv')
        as (c0 & Hc0 & Hcell).
      apply (Efree row c0); [unfold in_grid in *; lia| |congruence].
      unfold related. now rewrite Z.eqb_refl. }
    rewrite Hfree, andb_false_r. cbn [fst snd].
    split; [reflexivity|discriminate].
  - intros row col. unfold sudoku_board.set_empty.
    destruct (sudoku_board.in_range row col); cbn [negb]; cbn zeta;
      [rewrite Hnil|]; cbn [sudoku_board.square_in existsb fst snd];
      (split; [reflexivity|discriminate]).
Qed.

Lemma update_to_solved_freezes_witness :
  exists self0,
    fst (sudoku_board.init partial_board complete_board (PInt 0)) = Ok self0
    /\ let self :=
         sudoku_board.update_to_solved (run_calls self0 [SetValue 0 2 4]) in
       sudoku_board._board self = complete_board
       /\ (forall row col value,
             snd (sudoku_board.set_value self row col value) = self
             /\ fst (sudoku_board.set_value self row col value) <> Ok true)
       /\ (forall row col,
             snd (sudoku_board.set_empty self row col) = self
             /\ fst (sudoku_board.set_empty self row col) <> Ok true).
Proof.
  eexists. split; [vm_compute; reflexivity|].
  apply (update_to_solved_freezes partial_board complete_board (PInt 0) _
           [SetValue 0 2 4]).
  vm_compute. reflexivity.
Defined.

(** X29.  On an object reached from the constructor,
    [is_valid_board(expected_empties=n)] never changes the object and
    answers whether the current grid has exactly [n] empty squares; with
    [n = 0] it answers True exactly when the current grid is a solved
    grid, which then agrees with every prefilled square. *)
Theorem is_valid_board_detects_solved (u s : board) (e : pyval)
    (self0 : sudoku_board.SudokuBoard) (calls : list call) (n : Z) :
  fst (sudoku_board.init u s e) = Ok self0 ->
  let self := run_calls self0 calls in
  let cur := sudoku_board._board self in
  sudoku_board.is_valid_board_self (Some n) self
  = (Ok (Z.of_nat (count_empty e cur) =? n), self)
  /\ (fst (sudoku_board.is_valid_board_self (Some 0) self) = Ok true
      <-> solved cur)
  /\ extends e u cur.
Proof.
  intros H self cur. subst cur.
  destruct (session_reached u s e self0 calls H) as (Hinv & He & Hu & Hs).
  fold self in Hinv, He, Hu, Hs.
  pose proof Hinv as
    (Hed & _ & _ & _ & _ & _ & Hb & Hl & Hd & Hxu & _).
  rewrite He, Hu in *.
  rewrite !session_is_valid_board by assumption.
  rewrite He, total_empty_squares_count.
  split; [reflexivity|]. split; [|assumption].
  cbn [fst]. split.
  - intro E. assert (E0 : count_empty e (sudoku_board._board self) = 0%nat).
    { assert (Hz : (Z.of_nat (count_empty e (sudoku_board._board self)) =? 0)
                   = true) by congruence.
      apply Z.eqb_eq in Hz. lia. }
    apply (solved_legal_complete e); try assumption.
    now apply count_empty_zero.
  - intro Hsol. rewrite count_empty_complete;
      [reflexivity|assumption|now apply solved_complete].
Qed.

Lemma is_valid_board_detects_solved_witness :
  exists self0,
    fst (sudoku_board.init partial_board complete_board (PInt 0)) = Ok self0
    /\ let self := run_calls self0 [SetValue 0 2 4] in
       let cur := sudoku_board._board self in
       sudoku_board.is_valid_board_self (Some 50) self
       = (Ok (Z.of_nat (count_empty (PInt 0) cur) =? 50), self)
       /\ (fst (sudoku_board.is_valid_board_self (Some 0) self) = Ok true
           <-> solved cur)
       /\ extends (PInt 0) partial_board cur.
Proof.
  eexists. split; [vm_compute; reflexivity|].
  apply (is_valid_board_detects_solved partial_board complete_board (PInt 0) _
           [SetValue 0 2 4] 50).
  vm_compute. reflexivity.
Defined.

(** * The order in which the solver finds completions *)

Lemma get_empty_before (b : board) (e : pyval) (r c : Z) :
  wf9 b -> get_empty b e = Ok (Some (r, c)) ->
  forall r' c', in_grid r' c' -> before r' c' r c -> cellv b r' c' <> e.
Proof.
  intros Hb Hget. rewrite get_empty_wf in Hget by assumption.
  assert (Hf : List.find (fun p => pyval_eqb (cellv b (fst p) (snd p)) e)
                 cells9 = Some (r, c)) by congruence.
  apply find_least in Hf. destruct Hf as (i & Hi & Hless).
  apply cells9_index in Hi. destruct Hi as (Hi & Er & Ec).
  intros r' c' Hrc' Hbefore.
  apply in_cells9 in Hrc'. apply In_nth_error in Hrc'.
  destruct Hrc' as [j Hj].
  pose proof (cells9_index _ _ _ Hj) as (Hj81 & Er' & Ec').
  assert (Hlt : (j < i)%nat).
  { pose proof (Nat.div_mod_eq i 9). pose proof (Nat.div_mod_eq j 9).
    pose proof (Nat.mod_upper_bound i 9). pose proof (Nat.mod_upper_bound j 9).
    unfold before in Hbefore. lia. }
  specialize (Hless j (r', c') Hlt Hj). cbn [fst snd] in Hless.
  now apply pyval_eqb_neq.
Qed.

Section FillLeast.
Variables (e : pyval) (rec : M bool) (b : board) (r c : Z).
Hypothesis Hb : wf9 b.
Hypothesis Hrc : in_grid r c.
Hypothesis He : cellv b r c = e.
Hypothesis Hfirst : forall r' c', in_grid r' c' -> before r' c' r c ->
  cellv b r' c' <> e.
Hypothesis Hrec : forall v, PInt v <> e ->
  fill_outcome e (upd b r c (PInt v)) (rec (upd b r c (PInt v))).
Hypothesis Hleast : forall v g s, PInt v <> e ->
  rec (upd b r c (PInt v)) = (Ok true, g) ->
  filled_from e (upd b r c (PInt v)) s -> s = g \/ comes_first g s.

Lemma fill_candidates_least (values : list Z) (g s : board) :
  StronglySorted Z.lt values ->
  (forall v, In v values -> 1 <= v <= 9) ->
  fill_candidates rec e r c values b = (Ok true, g) ->
  filled_from e b s ->
  (exists v, In v values /\ cellv s r c = PInt v) ->
  s = g \/ comes_first g s.
Proof.
  intros Hsorted Hdig Hrun Hs.
  induction values as [|v rest IH]; intros (w & Hw & Hsw); [destruct Hw|].
  apply StronglySorted_inv in Hsorted. destruct Hsorted as [Hsorted' Hlt].
  assert (Hv : 1 <= v <= 9) by (apply Hdig; now left).
  assert (IH' := fun Hrun' => IH Hsorted' (fun x Hx => Hdig x (or_intror Hx))
                                Hrun'). clear IH.
  destruct (entry_free b r c (PInt v)) eqn:Hfree.
  - assert (Hne : PInt v <> e) by (eapply entry_free_not_empty; eauto).
    rewrite fill_candidates_free in Hrun by assumption.
    destruct (Hrec v Hne) as [[Hout Hno]|[g' [Hout Hg']]];
      rewrite Hout in Hrun.
    + rewrite bind_write_cell in Hrun by (apply wf9_upd || assumption).
      rewrite (upd_refill b e (PInt v) r c) in Hrun by assumption.
      apply IH'; [assumption|].
      destruct Hw as [<-|Hw]; [|eauto].
      exfalso. apply Hno. exists s. rewrite <- Hsw.
      now apply filled_from_place.
    + assert (g' = g) by congruence. subst g'.
      destruct Hw as [<-|Hw].
      * apply (Hleast v); [assumption..|].
        apply filled_from_placed_iff; auto.
      * right. exists r, c, v, w. split; [assumption|].
        pose proof Hs as (_ & _ & Hxs & _).
        pose proof Hg' as (_ & _ & Hxg & _).
        split; [|split; [|split]].
        -- intros r' c' Hrc' Hbefore.
           pose proof (Hfirst r' c' Hrc' Hbefore) as Hgiven.
           rewrite (Hxs r' c' Hrc' Hgiven).
           rewrite (Hxg r' c' Hrc').
           ++ apply cellv_upd_other; [assumption|].
              intro E. injection E as -> ->. unfold before in Hbefore. lia.
           ++ rewrite cellv_upd_other; [assumption..|].
              intro E. injection E as -> ->. unfold before in Hbefore. lia.
        -- rewrite (Hxg r c Hrc); rewrite cellv_upd_same by assumption;
             [reflexivity|assumption].
        -- assumption.
        -- rewrite List.Forall_forall in Hlt. now apply Hlt.
  - rewrite fill_candidates_taken in Hrun by assumption.
    apply IH'; [assumption|].
    destruct Hw as [<-|Hw]; [|eauto].
    pose proof (filled_from_free b s e r c Hrc He Hs) as Hfs. congruence.
Qed.
End FillLeast.

Lemma fill_board_rec_least (e : pyval) (fuel : nat) (b g s : board) :
  wf9 b -> (count_empty e b < fuel)%nat ->
  fill_board_rec fuel e b = (Ok true, g) ->
  filled_from e b s -> s = g \/ comes_first g s.
Proof.
  revert b g s. induction fuel as [|fuel IH]; intros b g s Hb Hlt Hrun Hs;
    [lia|].
  cbn [fill_board_rec] in Hrun. rewrite bind_reading in Hrun.
  destruct (get_empty_total b e Hb) as [[[r c]|] Hget]; rewrite Hget in Hrun.
  - destruct (get_empty_some b e r c Hb Hget) as [Hrc He].
    assert (Hfuel : forall v, PInt v <> e ->
              (count_empty e (upd b r c (PInt v)) < fuel)%nat).
    { intros v Hv.
      rewrite (count_empty_fill b e (PInt v) r c) in Hlt by assumption. lia. }
    apply (fill_candidates_least e (fill_board_rec fuel e) b r c Hb Hrc He)
      with (values := py_range 1 10); try assumption.
    + now apply get_empty_before.
    + intros v Hv. apply fill_board_rec_spec; [apply wf9_upd|now apply Hfuel].
    + intros v g' s' Hv Hrun' Hs'.
      apply (IH (upd b r c (PInt v))); auto. apply wf9_upd.
    + change (py_range 1 10) with [1; 2; 3; 4; 5; 6; 7; 8; 9].
      repeat constructor.
    + intros v Hv. now apply py_range_1_10.
    + pose proof Hs as (_ & _ & _ & Hp).
      destruct (Hp r c Hrc He) as [Hd _].
      apply is_digit_spec in Hd. destruct Hd as [d [Hd Hsd]].
      exists d. split; [now apply py_range_1_10|assumption].
  - left. assert (g = b) by (unfold ret in Hrun; congruence). subst g.
    pose proof (get_empty_none b e Hb Hget) as Hc.
    destruct Hs as (Hws & _ & Hx & _).
    apply board_ext; [assumption..|].
    intros r c Hrc. apply Hx; [assumption|now apply Hc].
Qed.

(** X30.  [fill_board] tries the empty cells in row-major order and the
    digits in ascending order, so the grid it ends with is the first
    completion in that order: any other completion agrees with it up to
    some cell, where the other completion holds a larger digit. *)
Theorem fill_board_least (e : pyval) (b g s : board) :
  wf9 b -> fill_board e b = (Ok true, g) -> filled_from e b s ->
  s = g \/ comes_first g s.
Proof.
  intros Hb Hrun Hs.
  apply (fill_board_rec_least e (S (count_empty e b)) b); auto.
Qed.


Lemma fill_board_least_witness :
  exists g s,
    fill_board (PInt 0) three_way_board = (Ok true, g)
    /\ fill_board (PInt 0) (upd three_way_board 1 7 (PInt 8)) = (Ok true, s)
    /\ s <> g
    /\ (s = g \/ comes_first g s).
Proof.
  eexists. eexists. split; [vm_compute; reflexivity|].
  split; [vm_compute; reflexivity|].
  split; [vm_compute; discriminate|].
  apply (fill_board_least (PInt 0) three_way_board).
  - apply wf9_compute. vm_compute. reflexivity.
  - vm_compute. reflexivity.
  - apply filled_from_iff_solved.
    + apply wf9_compute. vm_compute. reflexivity.
    + apply legal_compute; [apply wf9_compute|]; vm_compute; reflexivity.
    + vm_compute. reflexivity.
    + reflexivity.
    + split.
      * apply (solved_legal_complete (PInt 0)).
        -- apply wf9_compute. vm_compute. reflexivity.
        -- apply legal_compute; [apply wf9_compute|]; vm_compute; reflexivity.
        -- apply count_empty_zero; [apply wf9_compute|];
             vm_compute; reflexivity.
        -- vm_compute. reflexivity.
      * match goal with
        | |- extends _ _ ?s =>
            refine (grid_forall
                      (fun r c => cellv three_way_board r c <> PInt 0 ->
                                  cellv s r c = cellv three_way_board r c) _)
        end.
        repeat constructor; cbn [fst snd]; vm_compute; intro H;
          try reflexivity; exfalso; apply H; reflexivity.
Defined.
